(** * accountancy._payment: the payment-table parser of the monthly reports

    A shallow embedding of [src/accountancy/_payment.py] (and of the line
    record of [src/accountancy/_monthly_report.py]) together with the
    properties of the parser that the repository's specification states.

    Modelling conventions.
    - A Python [str] is modelled by its UTF-8 encoding, a [string] of bytes.
      Every operation the parser applies to text (equality, [startswith],
      truthiness, and regular expressions whose literals and character
      classes are ASCII) gives the same answer on the encoding as on the
      code points, because [|], [:], [-], [#] and the digits never occur
      inside a multi-byte UTF-8 sequence.
    - A Python [int] is a [Z].  The interpreter limits a conversion
      between [int] and [str] to [int_max_str_digits] digits, 4300 unless
      configured otherwise, and raises [ValueError] beyond.  [int(s)]
      models the limit.  The numbers the parser formats are days and
      prices that [int] has returned, which are within the limit because
      [int] accepted them (lemma [parsed_numbers_printable]), hours and minutes of two digits, and the year,
      the month and the line numbers its caller supplies, which [load]
      reads from a path of four and two digits and from [enumerate].
      The rows and the parser states of the private classes hold such
      numbers only; they are taken to be within the limit, and
      formatting them is total.  A theorem about the formatting of a
      [Receipt] that the parser has not built names the limit as a
      hypothesis ([printable]).
    - [datetime.datetime(...)] is the constructor of CPython: it converts
      its arguments to C integers of 32 bits first and raises
      [OverflowError] if one does not fit; it checks the ranges after
      that and raises [ValueError] if a field is out of range.
    - The logger is a sink of records; the model keeps the records of
      severity warning and error, in emission order.  The debug records of
      the source format texts and the numbers named above, which are
      within the digit limit; they cannot raise and do not influence
      control flow, and they are left out of the trail.
    - Exceptions are explicit: every effectful function returns an
      [outcome] next to the diagnostic trail. *)

From Stdlib Require Import String Ascii ZArith List Bool Lia.
From Stdlib Require Import Decimal DecimalString DecimalN DecimalZ.
From Stdlib Require Import Sorting.Sorted Sorting.Permutation.
From Stdlib Require DecimalFacts OrderedTypeEx.
Import ListNotations.

Open Scope string_scope.
Open Scope Z_scope.

(* ================================================================== *)
(** * Text and integer primitives *)
(* ================================================================== *)

(** The double-quote character, used inside diagnostic messages. *)
Definition dquote : string := String (ascii_of_nat 34) EmptyString.

Definition is_digit (c : ascii) : bool :=
  let n := nat_of_ascii c in (48 <=? n)%nat && (n <=? 57)%nat.

Definition is_pipe (c : ascii) : bool := Ascii.eqb c "|"%char.

Definition not_pipe (c : ascii) : bool := negb (is_pipe c).

(** [all_chars p s]: every character of [s] satisfies [p]. *)
Fixpoint all_chars (p : ascii -> bool) (s : string) : bool :=
  match s with
  | EmptyString => true
  | String c s' => p c && all_chars p s'
  end.

(** [sys.int_info.default_max_str_digits]: the largest number of digits
    of a conversion between [int] and [str]. *)
Definition int_max_str_digits : nat := 4300.

(** The number of digit characters of a text. *)
Fixpoint count_digits (s : string) : nat :=
  match s with
  | EmptyString => O
  | String c s' => ((if is_digit c then 1 else 0) + count_digits s')%nat
  end.

(** Python [str(n)] for an [int] within the digit limit. *)
Definition str (n : Z) : string := NilZero.string_of_int (Z.to_int n).

(** [printable n]: the decimal numeral of [n] is within the digit limit,
    so that [str(n)] and [f'{n}'] return it; beyond the limit they raise
    [ValueError]. *)
Definition printable (n : Z) : Prop :=
  (count_digits (str n) <= int_max_str_digits)%nat.

(** Python [int(s)]; [None] stands for [ValueError], which is raised
    when [s] has more digits than the limit allows and when [s] is not a
    decimal numeral. *)
Definition int (s : string) : option Z :=
  if (int_max_str_digits <? count_digits s)%nat then None
  else option_map Z.of_int (NilZero.int_of_string s).

Fixpoint zeros (n : nat) : string :=
  match n with
  | O => EmptyString
  | S n' => String "0"%char (zeros n')
  end.

Definition zfill (width : nat) (s : string) : string :=
  zeros (width - String.length s) ++ s.

(** The format specification [0w] applied to an [int] (as in [f'{n:02}']):
    sign-aware zero padding to [width] characters. *)
Definition format_0 (width : nat) (n : Z) : string :=
  if n <? 0 then "-" ++ zfill (width - 1) (str (- n))
  else zfill width (str n).

(** [s.startswith(p)]. *)
Definition startswith (p s : string) : bool := String.prefix p s.

(* ================================================================== *)
(** * Exceptions and the diagnostic trail *)
(* ================================================================== *)

Inductive level : Type := WARNING | ERROR.

Definition LogRecord : Type := (level * string)%type.

Inductive exn : Type := IndexError | ValueError | TypeError | OverflowError.

Inductive outcome (A : Type) : Type :=
| Returned (a : A)
| Raised (e : exn).

Arguments Returned {A} a.
Arguments Raised {A} e.

(** A computation appends to the trail and either returns or raises. *)
Definition M (A : Type) : Type := list LogRecord -> outcome A * list LogRecord.

Definition ret {A} (a : A) : M A := fun tr => (Returned a, tr).

Definition raise {A} (e : exn) : M A := fun tr => (Raised e, tr).

Definition bind {A B} (c : M A) (k : A -> M B) : M B :=
  fun tr =>
    match c tr with
    | (Returned a, tr') => k a tr'
    | (Raised e, tr') => (Raised e, tr')
    end.

Definition emit (lv : level) (msg : string) : M unit :=
  fun tr => (Returned tt, (tr ++ [(lv, msg)])%list).

(** Lifting a pure partial result: [None] raises [e]. *)
Definition lift {A} (e : exn) (o : option A) : M A :=
  match o with
  | Some a => ret a
  | None => raise e
  end.

Declare Scope monad_scope.
Delimit Scope monad_scope with monad.
Notation "x <- c ;; k" := (bind c (fun x => k))
  (at level 61, c at next level, right associativity) : monad_scope.
Notation "c ;; k" := (bind c (fun _ => k))
  (at level 61, right associativity) : monad_scope.
Open Scope monad_scope.

(* ================================================================== *)
(** * A backtracking matcher for the regular expressions of the source *)
(* ================================================================== *)

(** The named groups of the row pattern. *)
Inductive group : Type := Gday | Ghour | Gminute | Gstore | Gitem | Gprice.

Record captures : Type := mkCaptures {
  c_day : option string;
  c_hour : option string;
  c_minute : option string;
  c_store : option string;
  c_item : option string;
  c_price : option string
}.

Definition no_captures : captures := mkCaptures None None None None None None.

Definition get (n : group) (g : captures) : option string :=
  match n with
  | Gday => c_day g
  | Ghour => c_hour g
  | Gminute => c_minute g
  | Gstore => c_store g
  | Gitem => c_item g
  | Gprice => c_price g
  end.

Definition set (n : group) (w : string) (g : captures) : captures :=
  match n with
  | Gday => mkCaptures (Some w) (c_hour g) (c_minute g) (c_store g) (c_item g) (c_price g)
  | Ghour => mkCaptures (c_day g) (Some w) (c_minute g) (c_store g) (c_item g) (c_price g)
  | Gminute => mkCaptures (c_day g) (c_hour g) (Some w) (c_store g) (c_item g) (c_price g)
  | Gstore => mkCaptures (c_day g) (c_hour g) (c_minute g) (Some w) (c_item g) (c_price g)
  | Gitem => mkCaptures (c_day g) (c_hour g) (c_minute g) (c_store g) (Some w) (c_price g)
  | Gprice => mkCaptures (c_day g) (c_hour g) (c_minute g) (c_store g) (c_item g) (Some w)
  end.

(** The fragment of regular expressions the source uses.  Repetition
    with [+] is applied to character classes only. *)
Inductive regex : Type :=
| Chr (c : ascii)                   (* a literal character *)
| Cls (p : ascii -> bool)           (* a character class *)
| Cat (a b : regex)                 (* concatenation *)
| Alt (a b : regex)                 (* ordered alternation [a|b] *)
| Plus (p : ascii -> bool)          (* greedy [cls+] *)
| Opt (a : regex)                   (* greedy [a?] *)
| Rep (n : nat) (a : regex)         (* [a{n}] *)
| Grp (n : group) (a : regex).      (* [(?P<n>a)] *)

(** The text consumed between a position [s] and a later position [s']. *)
Definition taken (s s' : string) : string :=
  substring 0 (String.length s - String.length s') s.

Section Matcher.
Variable R : Type.

(** Greedy [cls*]: take as many characters as possible, and give one
    back at a time while the continuation fails. *)
Fixpoint star (p : ascii -> bool) (s : string) (k : string -> option R)
  : option R :=
  match s with
  | String c s' =>
      if p c then
        match star p s' k with
        | Some r => Some r
        | None => k s
        end
      else k s
  | EmptyString => k s
  end.

Definition plus (p : ascii -> bool) (s : string) (k : string -> option R)
  : option R :=
  match s with
  | String c s' => if p c then star p s' k else None
  | EmptyString => None
  end.

(** [exec r s g k]: match [r] at the front of [s] with captures [g],
    then run the continuation on what is left; alternatives are tried
    in order, and a failing continuation makes the matcher backtrack. *)
Fixpoint exec (r : regex) (s : string) (g : captures)
         (k : string -> captures -> option R) {struct r} : option R :=
  match r with
  | Chr c =>
      match s with
      | String c' s' => if Ascii.eqb c c' then k s' g else None
      | EmptyString => None
      end
  | Cls p =>
      match s with
      | String c' s' => if p c' then k s' g else None
      | EmptyString => None
      end
  | Cat a b => exec a s g (fun s' g' => exec b s' g' k)
  | Alt a b =>
      match exec a s g k with
      | Some x => Some x
      | None => exec b s g k
      end
  | Plus p => plus p s (fun s' => k s' g)
  | Opt a =>
      match exec a s g k with
      | Some x => Some x
      | None => k s g
      end
  | Rep n a =>
      (fix rep (n : nat) (s : string) (g : captures) : option R :=
         match n with
         | O => k s g
         | S n' => exec a s g (fun s' g' => rep n' s' g')
         end) n s g
  | Grp n a => exec a s g (fun s' g' => k s' (set n (taken s s') g'))
  end.
End Matcher.

Arguments star {R} p s k.
Arguments plus {R} p s k.
Arguments exec {R} r s g k.

(** [re.match(r, s)]: the pattern must match at the start of [s]; the
    match may end anywhere. *)
Definition re_match (r : regex) (s : string) : option captures :=
  exec r s no_captures (fun _ g => Some g).

(** Concatenation of a non-empty list of expressions (the empty list
    gives the expression of the empty word). *)
Fixpoint sequence (rs : list regex) : regex :=
  match rs with
  | [] => Rep 0 (Chr "|"%char)
  | [r] => r
  | r :: rs' => Cat r (sequence rs')
  end.

(* ================================================================== *)
(** * The data model *)
(* ================================================================== *)

(** [MonthlyReportLine] of [_monthly_report.py]. *)
Module MonthlyReportLine.
Record t : Type := mk { text : string; line_number : Z }.
End MonthlyReportLine.

Module ReceiptItem.
Record t : Type := mk { name : string; price : Z; line_number : Z }.
End ReceiptItem.

(** The value of [datetime.datetime(year, month, day, hour, minute)]. *)
Module DateTime.
Record t : Type := mk { year : Z; month : Z; day : Z; hour : Z; minute : Z }.

Definition is_leap (y : Z) : bool :=
  (y mod 4 =? 0) && (negb (y mod 100 =? 0) || (y mod 400 =? 0)).

Definition days_in_month (y m : Z) : Z :=
  if m =? 2 then (if is_leap y then 29 else 28)
  else if (m =? 4) || (m =? 6) || (m =? 9) || (m =? 11) then 30
  else 31.

(** The range checks of the constructor. *)
Definition valid (y mo d h mi : Z) : bool :=
  (1 <=? y) && (y <=? 9999) && (1 <=? mo) && (mo <=? 12) &&
  (1 <=? d) && (d <=? days_in_month y mo) &&
  (0 <=? h) && (h <=? 23) && (0 <=? mi) && (mi <=? 59).

(** The argument fits a C [int]. *)
Definition fits_int (z : Z) : bool := (- 2 ^ 31 <=? z) && (z <? 2 ^ 31).

(** The constructor; [None] when it raises. *)
Definition make (y mo d h mi : Z) : option t :=
  if valid y mo d h mi then Some (mk y mo d h mi) else None.

(** The exception of a constructor that raises: the arguments are
    converted to C integers before any range is checked. *)
Definition make_error (y mo d h mi : Z) : exn :=
  if fits_int y && fits_int mo && fits_int d && fits_int h && fits_int mi
  then ValueError
  else OverflowError.

(** [a < b], the chronological (lexicographic) order. *)
Definition ltb (a b : t) : bool :=
  (year a <? year b) || ((year a =? year b) &&
  ((month a <? month b) || ((month a =? month b) &&
  ((day a <? day b) || ((day a =? day b) &&
  ((hour a <? hour b) || ((hour a =? hour b) &&
  (minute a <? minute b)))))))).

(** [a > b]. *)
Definition gtb (a b : t) : bool := ltb b a.

(** [a <= b], that is [not (b < a)]. *)
Definition leb (a b : t) : bool := negb (ltb b a).

Definition eqb (a b : t) : bool :=
  (year a =? year b) && (month a =? month b) && (day a =? day b) &&
  (hour a =? hour b) && (minute a =? minute b).
End DateTime.

Module Receipt.
Record t : Type := mk {
  year : Z;
  month : Z;
  day : Z;
  hour : Z;
  minute : Z;
  store : string;
  items : list ReceiptItem.t;
  line_number : Z
}.

(** The property [datetime]; [None] when the constructor raises. *)
Definition datetime (r : t) : option DateTime.t :=
  DateTime.make (year r) (month r) (day r) (hour r) (minute r).

(** The exception the property raises when it has no value. *)
Definition datetime_error (r : t) : exn :=
  DateTime.make_error (year r) (month r) (day r) (hour r) (minute r).

Definition last_line_number (r : t) : Z :=
  line_number r + Z.of_nat (List.length (items r)) - 1.

(** The f-string of a row that continues a receipt. *)
Definition continuation_row (item : ReceiptItem.t) : string :=
  "||||" ++ ReceiptItem.name item ++ "|" ++ str (ReceiptItem.price item) ++ "|".

(** The f-string of the first row, which carries the key. *)
Definition key_row (r : t) (item : ReceiptItem.t) : string :=
  "|" ++ str (day r)
  ++ "|" ++ format_0 2 (hour r) ++ ":" ++ format_0 2 (minute r)
  ++ "|" ++ store r
  ++ "|" ++ ReceiptItem.name item ++ "|" ++ str (ReceiptItem.price item) ++ "|".

(** The loop of [to_table_rows]: [rows] is the list built so far. *)
Fixpoint to_table_rows_loop (r : t) (its : list ReceiptItem.t)
         (rows : list string) : list string :=
  match its with
  | [] => rows
  | item :: its' =>
      let row :=
        match rows with
        | _ :: _ => continuation_row item
        | [] => key_row r item
        end in
      to_table_rows_loop r its' (rows ++ [row])%list
  end.

Definition to_table_rows (r : t) : list string :=
  to_table_rows_loop r (items r) [].
End Receipt.

Module _TableKey.
Record t : Type := mk {
  day : Z;
  hour : Z;
  minute : Z;
  store : string;
  line_number : Z
}.
End _TableKey.

(** Indexing a list: [l[0]] and [l[-1]] raise [IndexError] on []. *)
Definition index_first {A} (l : list A) : option A := List.hd_error l.

Definition index_last {A} (l : list A) : option A := List.hd_error (List.rev l).

(* ================================================================== *)
(** * The line classifier: [_TableRow.parse_line] *)
(* ================================================================== *)

Definition bar : regex := Chr "|"%char.

(** The key group:
    [\|(?P<day>[0-9]+)\|(?P<hour>[0-9]{2}):(?P<minute>[0-9]{2})\|(?P<store>[^\|]+)]. *)
Definition key_cells : regex :=
  sequence [bar; Grp Gday (Plus is_digit);
       bar; Grp Ghour (Rep 2 (Cls is_digit)); Chr ":"%char;
       Grp Gminute (Rep 2 (Cls is_digit));
       bar; Grp Gstore (Plus not_pipe)].

(** The item group: [\|(?P<item>[^\|]+)\|(?P<price>-?[0-9]+)\|]. *)
Definition item_cells : regex :=
  sequence [bar; Grp Gitem (Plus not_pipe);
       bar; Grp Gprice (Cat (Opt (Chr "-"%char)) (Plus is_digit));
       bar].

(** [\|{3}]. *)
Definition three_bars : regex := Rep 3 bar.

(** The whole pattern of [parse_line]: two groups in sequence, each an
    alternation whose second branch is [\|{3}]. *)
Definition row_pattern : regex :=
  Cat (Alt key_cells three_bars) (Alt item_cells three_bars).

Module _TableRow.
Record t : Type := mk {
  key : option _TableKey.t;
  item : option ReceiptItem.t;
  line_number : Z
}.

Definition is_empty (row : t) : bool :=
  match key row, item row with
  | None, None => true
  | _, _ => false
  end.

(** [int(row_match.group(n))]: [TypeError] when the group did not take
    part in the match, [ValueError] when [int] rejects the text. *)
Definition int_group (g : captures) (n : group) : M Z :=
  s <- lift TypeError (get n g) ;; lift ValueError (int s).

Definition parse_line (line : MonthlyReportLine.t)
  : M (option t) :=
  let text := MonthlyReportLine.text line in
  let line_number := MonthlyReportLine.line_number line in
  match re_match row_pattern text with
  | None =>
      emit ERROR ("failed to parse " ++ dquote ++ text ++ dquote
                  ++ " at line " ++ str line_number) ;;
      ret None
  | Some row_match =>
      key <-
        match get Gday row_match with
        | Some _ =>
            day <- int_group row_match Gday ;;
            hour <- int_group row_match Ghour ;;
            minute <- int_group row_match Gminute ;;
            store <- lift TypeError (get Gstore row_match) ;;
            ret (Some (_TableKey.mk day hour minute store line_number))
        | None => ret None
        end ;;
      item <-
        match get Gitem row_match with
        | Some name =>
            price <- int_group row_match Gprice ;;
            ret (Some (ReceiptItem.mk name price line_number))
        | None => ret None
        end ;;
      ret (Some (mk key item line_number))
  end.
End _TableRow.

(* ================================================================== *)
(** * The section filter and the table scanner *)
(* ================================================================== *)

(** A [for] loop whose body may log and raise. *)
Fixpoint for_each {A B} (f : A -> B -> M A) (l : list B) (a : A) : M A :=
  match l with
  | [] => ret a
  | b :: l' => a' <- f a b ;; for_each f l' a'
  end.

Definition section_heading : string := "## 出費".

(** The generator [_filter_payment_section], as the list of the lines it
    yields; [in_section] is its local flag (initially [false]). *)
Fixpoint _filter_payment_section_from (in_section : bool)
         (lines : list MonthlyReportLine.t) : list MonthlyReportLine.t :=
  match lines with
  | [] => []
  | line :: rest =>
      if negb in_section then
        if startswith section_heading (MonthlyReportLine.text line)
        then _filter_payment_section_from true rest
        else _filter_payment_section_from false rest
      else
        if startswith "#" (MonthlyReportLine.text line)
        then []
        else line :: _filter_payment_section_from true rest
  end.

Definition _filter_payment_section (lines : list MonthlyReportLine.t)
  : list MonthlyReportLine.t :=
  _filter_payment_section_from false lines.

Definition header : string := "|日|時刻|店|商品|価格|".

Definition alignment : string := "|--:|--:|:--|:--|--:|".

(** The values of the local variable [state]. *)
Inductive scan_state : Type := St_header | St_body | St_outer.

(** The local variables of [_parse_payment_table]. *)
Record scanner : Type := mkScanner {
  state : scan_state;
  tables : list (list _TableRow.t);
  table : list _TableRow.t
}.

Definition scanner_init : scanner := mkScanner St_outer [] [].

Definition close_table (sc : scanner) : scanner :=
  mkScanner St_outer (tables sc ++ [table sc])%list [].

(** One iteration of the loop of [_parse_payment_table]. *)
Definition scan_step (sc : scanner) (line : MonthlyReportLine.t) : M scanner :=
  let text := MonthlyReportLine.text line in
  match state sc with
  | St_body =>
      if negb (text =? "")%string then
        row <- _TableRow.parse_line line ;;
        match row with
        | Some row =>
            ret (mkScanner St_body (tables sc) (table sc ++ [row])%list)
        | None => ret (close_table sc)
        end
      else ret (close_table sc)
  | St_header =>
      if (text =? alignment)%string
      then ret (mkScanner St_body (tables sc) (table sc))
      else
        emit ERROR ("unexpected row " ++ dquote ++ text ++ dquote) ;;
        ret sc
  | St_outer =>
      if (text =? header)%string
      then ret (mkScanner St_header (tables sc) (table sc))
      else ret sc
  end.

Definition scan (lines : list MonthlyReportLine.t) : M scanner :=
  for_each scan_step (_filter_payment_section lines) scanner_init.

Definition _parse_payment_table (lines : list MonthlyReportLine.t)
  : M (list (list _TableRow.t)) :=
  sc <- scan lines ;;
  match table sc with
  | _ :: _ => ret (tables sc ++ [table sc])%list
  | [] => ret (tables sc)
  end.

(* ================================================================== *)
(** * The receipt assembler: [_PaymentTableParser] *)
(* ================================================================== *)

Definition position_suffix (year month line : Z) : string :=
  " at " ++ format_0 4 year ++ "/" ++ format_0 2 month ++ ".md:" ++ str line.

Definition _first_position_message (receipt : Receipt.t) : M string :=
  row <- lift IndexError (index_first (Receipt.to_table_rows receipt)) ;;
  ret (row ++ position_suffix (Receipt.year receipt) (Receipt.month receipt)
                              (Receipt.line_number receipt)).

Definition _last_position_message (receipt : Receipt.t) : M string :=
  row <- lift IndexError (index_last (Receipt.to_table_rows receipt)) ;;
  ret (row ++ position_suffix (Receipt.year receipt) (Receipt.month receipt)
                              (Receipt.last_line_number receipt)).

(** [logger.warning(f'<prefix>{_first_position_message(receipt)}')]: the
    message is formatted before the record is emitted. *)
Definition warn_first (prefix : string) (receipt : Receipt.t) : M unit :=
  msg <- _first_position_message receipt ;; emit WARNING (prefix ++ msg).

Module _PaymentTableParser.
Record t : Type := mk {
  _year : Z;
  _month : Z;
  _receipts : list Receipt.t;
  _is_last_empty : bool;
  _is_before_key_empty : bool;
  _table_key : option _TableKey.t;
  _table_items : list ReceiptItem.t
}.

(** [__init__]. *)
Definition init (year month : Z) : t :=
  mk year month [] false false None [].

Definition set_receipts (self : t) (v : list Receipt.t) : t :=
  mk (_year self) (_month self) v (_is_last_empty self)
     (_is_before_key_empty self) (_table_key self) (_table_items self).

Definition set_is_last_empty (self : t) (v : bool) : t :=
  mk (_year self) (_month self) (_receipts self) v
     (_is_before_key_empty self) (_table_key self) (_table_items self).

Definition set_is_before_key_empty (self : t) (v : bool) : t :=
  mk (_year self) (_month self) (_receipts self) (_is_last_empty self)
     v (_table_key self) (_table_items self).

Definition set_table_key (self : t) (v : option _TableKey.t) : t :=
  mk (_year self) (_month self) (_receipts self) (_is_last_empty self)
     (_is_before_key_empty self) v (_table_items self).

Definition set_table_items (self : t) (v : list ReceiptItem.t) : t :=
  mk (_year self) (_month self) (_receipts self) (_is_last_empty self)
     (_is_before_key_empty self) (_table_key self) v.

(** The candidate receipt built from the pending key and items. *)
Definition candidate (self : t) (k : _TableKey.t) : Receipt.t :=
  Receipt.mk (_year self) (_month self)
             (_TableKey.day k) (_TableKey.hour k) (_TableKey.minute k)
             (_TableKey.store k) (_table_items self)
             (_TableKey.line_number k).

(** [receipt.datetime] outside a [try]. *)
Definition datetime_of (receipt : Receipt.t) : M DateTime.t :=
  lift (Receipt.datetime_error receipt) (Receipt.datetime receipt).

(** The block [# validate order]. *)
Definition validate_order (self : t) (receipt : Receipt.t) : M unit :=
  match _receipts self with
  | _ :: _ =>
      last <- lift IndexError (index_last (_receipts self)) ;;
      last_dt <- datetime_of last ;;
      dt <- datetime_of receipt ;;
      if DateTime.gtb last_dt dt
      then warn_first "wrong order: " receipt
      else ret tt
  | [] => ret tt
  end.

(** The block [# validate empty row]. *)
Definition validate_empty_row (self : t) (receipt : Receipt.t) : M unit :=
  match _receipts self with
  | _ :: _ =>
      last <- lift IndexError (index_last (_receipts self)) ;;
      last_dt <- datetime_of last ;;
      dt <- datetime_of receipt ;;
      if DateTime.day last_dt <? DateTime.day dt then
        if negb (_is_before_key_empty self)
        then warn_first "need an empty row before: " receipt
        else ret tt
      else
        if _is_before_key_empty self
        then warn_first "need not an empty row before: " receipt
        else ret tt
  | [] =>
      if negb (_is_before_key_empty self)
      then warn_first "need an empty row before: " receipt
      else ret tt
  end.

Definition _push_receipt (self : t) : M t :=
  match _table_key self with
  | None => ret self
  | Some k =>
      let receipt := candidate self k in
      (* reset temporary key & items *)
      let self := set_table_items (set_table_key self None) [] in
      (* validate datetime *)
      match Receipt.datetime receipt with
      | None =>
          match Receipt.datetime_error receipt with
          | ValueError =>
              (* except ValueError *)
              msg <- _first_position_message receipt ;;
              emit ERROR ("invalid datetime: " ++ msg) ;;
              ret self
          | e => raise e
          end
      | Some _ =>
          validate_order self receipt ;;
          validate_empty_row self receipt ;;
          (* add to receipts *)
          ret (set_receipts self (_receipts self ++ [receipt])%list)
      end
  end.

Definition push (self : t) (row : _TableRow.t) : M t :=
  if _TableRow.is_empty row then
    (if _is_last_empty self
     then emit WARNING ("consective empty row at "
                        ++ format_0 4 (_year self) ++ "/"
                        ++ format_0 2 (_month self) ++ ".md:"
                        ++ str (_TableRow.line_number row))
     else ret tt) ;;
    self <- _push_receipt self ;;
    ret (set_is_last_empty self true)
  else
    self <-
      match _TableRow.key row with
      | Some k =>
          self <- _push_receipt self ;;
          (* set temporary key *)
          ret (set_table_key
                 (set_is_before_key_empty self (_is_last_empty self))
                 (Some k))
      | None => ret self
      end ;;
    let self :=
      match _TableRow.item row with
      | Some item => set_table_items self (_table_items self ++ [item])%list
      | None => self
      end in
    ret (set_is_last_empty self false).

Definition result (self : t) : M (list Receipt.t) :=
  self <- _push_receipt self ;;
  (if negb (_is_last_empty self) then
     last <- lift IndexError (index_last (_receipts self)) ;;
     msg <- _last_position_message last ;;
     emit WARNING ("need an empty row after: " ++ msg)
   else ret tt) ;;
  ret (_receipts self).

(** One table through a fresh parser: the inner loop of [parse_payment]
    followed by [result()]. *)
Definition run (year month : Z) (table : list _TableRow.t)
  : M (list Receipt.t) :=
  parser <- for_each push table (init year month) ;;
  result parser.
End _PaymentTableParser.

(* ================================================================== *)
(** * Top level: [parse_payment] *)
(* ================================================================== *)

(** [list.sort(key=...)] is a stable sort that compares keys with [<]
    only.  The keys are computed first; insertion from the right keeps
    equal keys in their original order. *)
Fixpoint insert_keyed {A} (x : DateTime.t * A) (l : list (DateTime.t * A))
  : list (DateTime.t * A) :=
  match l with
  | [] => [x]
  | y :: l' =>
      if DateTime.ltb (fst y) (fst x) then y :: insert_keyed x l'
      else x :: y :: l'
  end.

Fixpoint sort_keyed {A} (l : list (DateTime.t * A)) : list (DateTime.t * A) :=
  match l with
  | [] => []
  | x :: l' => insert_keyed x (sort_keyed l')
  end.

(** The key of every element, in order; the first failure raises. *)
Fixpoint keyed (receipts : list Receipt.t)
  : option (list (DateTime.t * Receipt.t)) :=
  match receipts with
  | [] => Some []
  | r :: rest =>
      match Receipt.datetime r with
      | None => None
      | Some dt =>
          match keyed rest with
          | None => None
          | Some l => Some ((dt, r) :: l)
          end
      end
  end.

(** The exception of the first key that fails (no key fails on the
    empty list). *)
Fixpoint keyed_error (receipts : list Receipt.t) : exn :=
  match receipts with
  | [] => ValueError
  | r :: rest =>
      match Receipt.datetime r with
      | None => Receipt.datetime_error r
      | Some _ => keyed_error rest
      end
  end.

(** [receipts.sort(key=lambda receipt: receipt.datetime)]. *)
Definition sort_by_datetime (receipts : list Receipt.t) : M (list Receipt.t) :=
  l <- lift (keyed_error receipts) (keyed receipts) ;;
  ret (List.map snd (sort_keyed l)).

(** The receipts of all tables, in the order they were assembled:
    [parse_payment] up to, and excluding, the final sort. *)
Definition assemble (year month : Z) (lines : list MonthlyReportLine.t)
  : M (list Receipt.t) :=
  tables <- _parse_payment_table lines ;;
  for_each (fun receipts table =>
              rs <- _PaymentTableParser.run year month table ;;
              ret (receipts ++ rs)%list)
           tables [].

Definition parse_payment (year month : Z) (lines : list MonthlyReportLine.t)
  : M (list Receipt.t) :=
  receipts <- assemble year month lines ;;
  (* sort by old...new *)
  sort_by_datetime receipts.

(* ================================================================== *)
(** * Specification-side definitions and sample inputs *)
(* ================================================================== *)

(** The numbering of [MonthlyReport.load]: [enumerate(file, start=1)]. *)
Fixpoint enumerate (start : Z) (texts : list string)
  : list MonthlyReportLine.t :=
  match texts with
  | [] => []
  | s :: rest => MonthlyReportLine.mk s start :: enumerate (start + 1) rest
  end.

Definition report (texts : list string) : list MonthlyReportLine.t :=
  enumerate 1 texts.

(** A table body that holds one item row and no key row. *)
Definition report_items_only : list MonthlyReportLine.t :=
  report [section_heading; header; alignment; "||||Gadget|300|"].

(** A table whose body is closed at once by a blank line. *)
Definition report_no_rows : list MonthlyReportLine.t :=
  report [section_heading; header; alignment; ""; "text"].

(** April: a key row for the 31st without an item, between empty rows. *)
Definition report_april_31_bare : list MonthlyReportLine.t :=
  report [section_heading; header; alignment;
          "||||||"; "|31|09:30|Store|||"; "||||||"].

(** April: a key row for the 31st that carries an item. *)
Definition report_april_31 : list MonthlyReportLine.t :=
  report [section_heading; header; alignment;
          "||||||"; "|31|09:30|Store|Widget|500|"; "||||||"].

(** A key row with the placeholder item group, followed by an empty
    row (and preceded by one). *)
Definition report_bare_key : list MonthlyReportLine.t :=
  report [section_heading; header; alignment;
          "||||||"; "|15|09:30|Store|||"; "||||||"].

(** A header line followed by a line that is not the alignment row,
    then by the alignment row and a table body. *)
Definition report_late_alignment : list MonthlyReportLine.t :=
  report [section_heading; header; "stray text"; alignment;
          "||||||"; "|15|09:30|Store|Widget|500|"; "||||||"].

Definition unexpected_row_record (text : string) : LogRecord :=
  (ERROR, "unexpected row " ++ dquote ++ text ++ dquote).

(** A trail holds a record of the given severity whose message starts
    with [prefix]. *)
Definition emitted (lv : level) (prefix : string) (trail : list LogRecord)
  : Prop :=
  exists msg, In (lv, prefix ++ msg) trail.

(** The parser state after a flush that returns: what [_push_receipt]
    leaves behind, without the diagnostics. *)
Definition flushed (self : _PaymentTableParser.t) : _PaymentTableParser.t :=
  match _PaymentTableParser._table_key self with
  | None => self
  | Some k =>
      let receipt := _PaymentTableParser.candidate self k in
      let self' :=
        _PaymentTableParser.set_table_items
          (_PaymentTableParser.set_table_key self None) [] in
      match Receipt.datetime receipt with
      | None => self'
      | Some _ =>
          _PaymentTableParser.set_receipts self'
            (_PaymentTableParser._receipts self' ++ [receipt])%list
      end
  end.

(** The parser state after a [push] that returns. *)
Definition pushed (self : _PaymentTableParser.t) (row : _TableRow.t)
  : _PaymentTableParser.t :=
  if _TableRow.is_empty row then
    _PaymentTableParser.set_is_last_empty (flushed self) true
  else
    let self1 :=
      match _TableRow.key row with
      | Some k =>
          let f := flushed self in
          _PaymentTableParser.set_table_key
            (_PaymentTableParser.set_is_before_key_empty f
               (_PaymentTableParser._is_last_empty f))
            (Some k)
      | None => self
      end in
    let self2 :=
      match _TableRow.item row with
      | Some item =>
          _PaymentTableParser.set_table_items self1
            (_PaymentTableParser._table_items self1 ++ [item])%list
      | None => self1
      end in
    _PaymentTableParser.set_is_last_empty self2 false.

(** Every receipt the parser hands out belongs to the requested month
    and has a timestamp. *)
Definition well_dated (year month : Z) (r : Receipt.t) : Prop :=
  Receipt.year r = year /\ Receipt.month r = month /\
  Receipt.datetime r <> None.

(** [at_time t r]: the timestamp of [r] is [t]. *)
Definition at_time (t : DateTime.t) (r : Receipt.t) : bool :=
  match Receipt.datetime r with
  | Some d => DateTime.eqb d t
  | None => false
  end.

(** [chronological a b]: both receipts have a timestamp and the one of
    [a] is not later than the one of [b]. *)
Definition chronological (a b : Receipt.t) : Prop :=
  match Receipt.datetime a, Receipt.datetime b with
  | Some x, Some y => DateTime.leb x y = true
  | _, _ => False
  end.

Definition key_le {A} (a b : DateTime.t * A) : Prop :=
  DateTime.leb (fst a) (fst b) = true.

Definition key_is {A} (t : DateTime.t) (a : DateTime.t * A) : bool :=
  DateTime.eqb (fst a) t.

(** The key stored next to a receipt is the receipt's timestamp. *)
Definition key_of_receipt (p : DateTime.t * Receipt.t) : Prop :=
  Receipt.datetime (snd p) = Some (fst p).

(** The invariant of the parser state behind [well_dated]. *)
Definition dated (year month : Z) (self : _PaymentTableParser.t) : Prop :=
  _PaymentTableParser._year self = year /\
  _PaymentTableParser._month self = month /\
  Forall (well_dated year month) (_PaymentTableParser._receipts self).

(** Two tables in one section; the second holds a receipt that is
    earlier than, and one that is at the same time as, the receipt of
    the first. *)
Definition report_two_tables : list MonthlyReportLine.t :=
  report [section_heading; header; alignment;
          "||||||"; "|20|09:30|Bakery|Bread|200|"; "||||||";
          ""; "a note between the tables";
          header; alignment;
          "||||||"; "|10|09:30|Grocer|Apple|100|"; "||||||";
          "|20|09:30|Cafe|Tea|300|"; "||||||"].

(** Rows of one table: a receipt on the 30th, an empty row, then a
    receipt on the 10th. *)
Definition rows_day_goes_back : list _TableRow.t :=
  [ _TableRow.mk None None 4;
    _TableRow.mk (Some (_TableKey.mk 30 9 30 "Store" 5))
                 (Some (ReceiptItem.mk "Widget" 500 5)) 5;
    _TableRow.mk None None 6;
    _TableRow.mk (Some (_TableKey.mk 10 9 30 "Store" 7))
                 (Some (ReceiptItem.mk "Gadget" 300 7)) 7 ].

(** ** The grouping of rows into receipts, in the specification's words *)

Definition cell {A} (o : option A) : list A :=
  match o with
  | Some a => [a]
  | None => []
  end.

(** The item cells of the rows that continue a receipt: the rows in
    front of [rows] that carry an item and no key, up to (and
    excluding) the next key row or empty row. *)
Fixpoint continuation_items (rows : list _TableRow.t) : list ReceiptItem.t :=
  match rows with
  | row :: rest =>
      match _TableRow.key row, _TableRow.item row with
      | None, Some item => item :: continuation_items rest
      | _, _ => []
      end
  | [] => []
  end.

(** One receipt per key-carrying row; its items are the item cell of the
    key row followed by the item cells of the rows that continue it. *)
Fixpoint spec_receipts (year month : Z) (rows : list _TableRow.t)
  : list Receipt.t :=
  match rows with
  | [] => []
  | row :: rest =>
      match _TableRow.key row with
      | Some k =>
          Receipt.mk year month
                     (_TableKey.day k) (_TableKey.hour k) (_TableKey.minute k)
                     (_TableKey.store k)
                     (cell (_TableRow.item row) ++ continuation_items rest)%list
                     (_TableKey.line_number k)
          :: spec_receipts year month rest
      | None => spec_receipts year month rest
      end
  end.

(** [extends r s]: the receipt [r] has the year, month, day, hour,
    minute, store and line number of [s], and its item list ends with
    the item list of [s]. *)
Definition extends (r s : Receipt.t) : Prop :=
  Receipt.year r = Receipt.year s /\
  Receipt.month r = Receipt.month s /\
  Receipt.day r = Receipt.day s /\
  Receipt.hour r = Receipt.hour s /\
  Receipt.minute r = Receipt.minute s /\
  Receipt.store r = Receipt.store s /\
  Receipt.line_number r = Receipt.line_number s /\
  exists front, Receipt.items r = (front ++ Receipt.items s)%list.

Definition is_key_row (row : _TableRow.t) : bool :=
  match _TableRow.key row with
  | Some _ => true
  | None => false
  end.

Definition count_key_rows (rows : list _TableRow.t) : nat :=
  List.length (filter is_key_row rows).

(** Every key row names a real date and time of the month. *)
Definition valid_key (year month : Z) (k : _TableKey.t) : bool :=
  DateTime.valid year month
                 (_TableKey.day k) (_TableKey.hour k) (_TableKey.minute k).

Definition all_dates_valid (year month : Z) (rows : list _TableRow.t) : bool :=
  forallb (fun row =>
             match _TableRow.key row with
             | Some k => valid_key year month k
             | None => true
             end) rows.

(** Every row that carries an item and no key continues a receipt:
    it is not the first row of the table and does not come directly
    after an empty row.  [open] tells whether a receipt is open in front
    of [rows]. *)
Fixpoint attached (open : bool) (rows : list _TableRow.t) : bool :=
  match rows with
  | [] => true
  | row :: rest =>
      match _TableRow.key row, _TableRow.item row with
      | Some _, _ => attached true rest
      | None, Some _ => open && attached true rest
      | None, None => attached false rest
      end
  end.

(** Every receipt gets at least one item: a key row without an item is
    followed by a row that carries an item and no key.  [need] tells
    whether the receipt open in front of [rows] still has no item. *)
Fixpoint itemful (need : bool) (rows : list _TableRow.t) : bool :=
  match rows with
  | [] => negb need
  | row :: rest =>
      match _TableRow.key row, _TableRow.item row with
      | Some _, Some _ => negb need && itemful false rest
      | Some _, None => negb need && itemful true rest
      | None, Some _ => itemful false rest
      | None, None => negb need && itemful false rest
      end
  end.

(** The receipt that the pending key and items of a parser state will
    become once the rows in front have been pushed. *)
Definition pending (self : _PaymentTableParser.t) (rows : list _TableRow.t)
  : list Receipt.t :=
  match _PaymentTableParser._table_key self with
  | Some k =>
      [Receipt.mk (_PaymentTableParser._year self)
                  (_PaymentTableParser._month self)
                  (_TableKey.day k) (_TableKey.hour k) (_TableKey.minute k)
                  (_TableKey.store k)
                  (_PaymentTableParser._table_items self
                   ++ continuation_items rows)%list
                  (_TableKey.line_number k)]
  | None => []
  end.

(** A table where an item row follows an empty row: the item [Orphan]
    stands between the empty row and the key row of the 2nd. *)
Definition rows_with_orphan : list _TableRow.t :=
  [ _TableRow.mk None None 4;
    _TableRow.mk (Some (_TableKey.mk 1 9 30 "Store" 5))
                 (Some (ReceiptItem.mk "Widget" 500 5)) 5;
    _TableRow.mk None None 6;
    _TableRow.mk None (Some (ReceiptItem.mk "Orphan" 100 7)) 7;
    _TableRow.mk (Some (_TableKey.mk 2 9 30 "Store" 8))
                 (Some (ReceiptItem.mk "Gadget" 300 8)) 8;
    _TableRow.mk None None 9 ].

(** A well-formed table: two receipts, the first with two items. *)
Definition rows_well_formed : list _TableRow.t :=
  [ _TableRow.mk None None 4;
    _TableRow.mk (Some (_TableKey.mk 15 9 30 "Example Store" 5))
                 (Some (ReceiptItem.mk "Widget" 500 5)) 5;
    _TableRow.mk None (Some (ReceiptItem.mk "Gadget" 300 6)) 6;
    _TableRow.mk None None 7;
    _TableRow.mk (Some (_TableKey.mk 16 18 5 "Cafe" 8)) None 8;
    _TableRow.mk None (Some (ReceiptItem.mk "Tea" 300 9)) 9;
    _TableRow.mk None None 10 ].

(** An empty row comes last in [rows]: it immediately precedes the row
    that follows them. *)
Definition blank_before (rows : list _TableRow.t) : bool :=
  match index_last rows with
  | Some row => _TableRow.is_empty row
  | None => false
  end.

(** The row continues a receipt: it carries an item and no key. *)
Definition continues (row : _TableRow.t) : Prop :=
  _TableRow.key row = None /\ _TableRow.item row <> None.

(** ** Invariants of the parser state behind a run that returns *)

(** Every closed receipt has a timestamp and at least one item. *)
Definition settled (self : _PaymentTableParser.t) : Prop :=
  Forall (fun r => Receipt.datetime r <> None /\ Receipt.items r <> [])
         (_PaymentTableParser._receipts self).

(** A receipt is open and has no item yet. *)
Definition need (self : _PaymentTableParser.t) : bool :=
  match _PaymentTableParser._table_key self,
        _PaymentTableParser._table_items self with
  | Some _, [] => true
  | _, _ => false
  end.

Definition is_open (self : _PaymentTableParser.t) : bool :=
  match _PaymentTableParser._table_key self with
  | Some _ => true
  | None => false
  end.

(** Unless the last row was empty, a receipt is open or closed. *)
Definition anchored (self : _PaymentTableParser.t) : Prop :=
  _PaymentTableParser._is_last_empty self = true \/
  _PaymentTableParser._table_key self <> None \/
  _PaymentTableParser._receipts self <> [].

(** The pending key names a real date and time. *)
Definition key_valid (self : _PaymentTableParser.t) : Prop :=
  forall k, _PaymentTableParser._table_key self = Some k ->
            valid_key (_PaymentTableParser._year self)
                      (_PaymentTableParser._month self) k = true.

(** ** What a regular expression matches *)

(** [matches r w g g']: the expression [r] matches the word [w] and
    turns the captures [g] into [g']. *)
Inductive matches : regex -> string -> captures -> captures -> Prop :=
| m_chr c g : matches (Chr c) (String c EmptyString) g g
| m_cls p c g : p c = true -> matches (Cls p) (String c EmptyString) g g
| m_cat a b w1 w2 g g1 g2 :
    matches a w1 g g1 -> matches b w2 g1 g2 ->
    matches (Cat a b) (w1 ++ w2) g g2
| m_alt_l a b w g g' : matches a w g g' -> matches (Alt a b) w g g'
| m_alt_r a b w g g' : matches b w g g' -> matches (Alt a b) w g g'
| m_plus p w g :
    w <> EmptyString -> all_chars p w = true -> matches (Plus p) w g g
| m_opt_some a w g g' : matches a w g g' -> matches (Opt a) w g g'
| m_opt_none a g : matches (Opt a) EmptyString g g
| m_rep_O a g : matches (Rep 0 a) EmptyString g g
| m_rep_S n a w1 w2 g g1 g2 :
    matches a w1 g g1 -> matches (Rep n a) w2 g1 g2 ->
    matches (Rep (S n) a) (w1 ++ w2) g g2
| m_grp n a w g g' : matches a w g g' -> matches (Grp n a) w g (set n w g').

(** ** The row grammar, in the specification's words *)

(** An unsigned integer: one or more digits. *)
Definition numeral (s : string) : Prop :=
  s <> EmptyString /\ all_chars is_digit s = true.

(** Exactly two digits. *)
Definition two_digits (s : string) : Prop :=
  String.length s = 2%nat /\ all_chars is_digit s = true.

(** A signed integer: an optional minus sign and one or more digits. *)
Definition signed_numeral (s : string) : Prop :=
  numeral s \/ exists d, s = String "-"%char d /\ numeral d.

(** Text of a cell: not empty and without [|]. *)
Definition cell_text (s : string) : Prop :=
  s <> EmptyString /\ all_chars not_pipe s = true.

(** The key cell group: day, hour, minute and store, or three empty
    cells standing for no key on this row. *)
Inductive key_group
  : string -> option (string * string * string * string) -> Prop :=
| key_real d h m st :
    numeral d -> two_digits h -> two_digits m -> cell_text st ->
    key_group ("|" ++ d ++ "|" ++ h ++ ":" ++ m ++ "|" ++ st)
              (Some (d, h, m, st))
| key_placeholder : key_group "|||" None.

(** The item cell group: name and price, or the placeholder of empty
    cells standing for no item on this row. *)
Inductive item_group : string -> option (string * string) -> Prop :=
| item_real n p :
    cell_text n -> signed_numeral p ->
    item_group ("|" ++ n ++ "|" ++ p ++ "|") (Some (n, p))
| item_placeholder : item_group "|||" None.

(** A row: exactly one key group followed by exactly one item group. *)
Definition row_shape (w : string)
           (kc : option (string * string * string * string))
           (ic : option (string * string)) : Prop :=
  exists a b, w = a ++ b /\ key_group a kc /\ item_group b ic.

(** The numeral is within the digit limit of [int]. *)
Definition within_limit (s : string) : Prop :=
  (count_digits s <= int_max_str_digits)%nat.

(** The day and the price of the cells are within the digit limit (the
    hour and the minute have two digits). *)
Definition shape_within_limit
           (kc : option (string * string * string * string))
           (ic : option (string * string)) : Prop :=
  match kc with
  | Some (d, _, _, _) => within_limit d
  | None => True
  end /\
  match ic with
  | Some (_, p) => within_limit p
  | None => True
  end.

(** The captures left by a match of the row pattern. *)
Definition captures_of (kc : option (string * string * string * string))
           (ic : option (string * string)) : captures :=
  mkCaptures
    (option_map (fun '(d, _, _, _) => d) kc)
    (option_map (fun '(_, h, _, _) => h) kc)
    (option_map (fun '(_, _, m, _) => m) kc)
    (option_map (fun '(_, _, _, st) => st) kc)
    (option_map fst ic)
    (option_map snd ic).

(** The key a row reads from the cells of its key group. *)
Definition key_reads (n : Z) (kc : option (string * string * string * string))
           (k : option _TableKey.t) : Prop :=
  match kc, k with
  | Some (d, h, m, st), Some k =>
      int d = Some (_TableKey.day k) /\
      int h = Some (_TableKey.hour k) /\
      int m = Some (_TableKey.minute k) /\
      _TableKey.store k = st /\
      _TableKey.line_number k = n
  | None, None => True
  | _, _ => False
  end.

(** The item a row reads from the cells of its item group. *)
Definition item_reads (n : Z) (ic : option (string * string))
           (i : option ReceiptItem.t) : Prop :=
  match ic, i with
  | Some (name, p), Some i =>
      ReceiptItem.name i = name /\
      int p = Some (ReceiptItem.price i) /\
      ReceiptItem.line_number i = n
  | None, None => True
  | _, _ => False
  end.

Definition row_reads (n : Z) (kc : option (string * string * string * string))
           (ic : option (string * string)) (row : _TableRow.t) : Prop :=
  _TableRow.line_number row = n /\
  key_reads n kc (_TableRow.key row) /\
  item_reads n ic (_TableRow.item row).

(** The last character of a text is [|]. *)
Fixpoint ends_with_bar (s : string) : bool :=
  match s with
  | EmptyString => false
  | String c EmptyString => is_pipe c
  | String _ s' => ends_with_bar s'
  end.

(** The text does not start with a character of the class [p]. *)
Definition stops (p : ascii -> bool) (s : string) : bool :=
  match s with
  | EmptyString => true
  | String c _ => negb (p c)
  end.

Definition failed_to_parse (line : MonthlyReportLine.t) : LogRecord :=
  (ERROR, "failed to parse " ++ dquote ++ MonthlyReportLine.text line ++ dquote
          ++ " at line " ++ str (MonthlyReportLine.line_number line)).

(** A line whose front is a full row and that goes on after it. *)
Definition line_with_trailing_text : MonthlyReportLine.t :=
  MonthlyReportLine.mk "|15|09:30|Store|Widget|500| and more" 5.

(** An item row whose price has one digit more than the limit. *)
Definition line_with_long_price : MonthlyReportLine.t :=
  MonthlyReportLine.mk ("||||x|" ++ zeros (S int_max_str_digits) ++ "|") 5.

(** ** Reading a rendered receipt back *)

(** The lines fed to the classifier one after the other. *)
Fixpoint classify (lines : list MonthlyReportLine.t)
  : M (list (option _TableRow.t)) :=
  match lines with
  | [] => ret []
  | line :: rest =>
      row <- _TableRow.parse_line line ;;
      rows <- classify rest ;;
      ret (row :: rows)
  end.

(** The rows that continue a receipt, read at the lines [n], [n+1], ... *)
Fixpoint continuation_rows (n : Z) (its : list ReceiptItem.t)
  : list _TableRow.t :=
  match its with
  | [] => []
  | i :: its' =>
      _TableRow.mk None
        (Some (ReceiptItem.mk (ReceiptItem.name i) (ReceiptItem.price i) n)) n
      :: continuation_rows (n + 1) its'
  end.

(** The rows of a receipt whose first row is read at line [n]: the key
    fields and the first item on the first row, then one row per
    further item, in order. *)
Definition reread (r : Receipt.t) (n : Z) : list _TableRow.t :=
  match Receipt.items r with
  | [] => []
  | i :: its =>
      _TableRow.mk
        (Some (_TableKey.mk (Receipt.day r) (Receipt.hour r)
                            (Receipt.minute r) (Receipt.store r) n))
        (Some (ReceiptItem.mk (ReceiptItem.name i) (ReceiptItem.price i) n)) n
      :: continuation_rows (n + 1) its
  end.

(** The checks behind the two-digit rendering of hours and minutes. *)
Definition two_digit_format_ok (h : Z) : bool :=
  (String.length (format_0 2 h) =? 2)%nat &&
  all_chars is_digit (format_0 2 h) &&
  match int (format_0 2 h) with
  | Some z => z =? h
  | None => false
  end.

(** A receipt at hour 100. *)
Definition receipt_hour_100 : Receipt.t :=
  Receipt.mk 2024 4 15 100 30 "Store" [ReceiptItem.mk "Widget" 500 5] 5.

(** A receipt with two items, one of a negative price. *)
Definition receipt_sample : Receipt.t :=
  Receipt.mk 2024 4 5 9 3 "Example Store"
             [ReceiptItem.mk "Widget" 500 7; ReceiptItem.mk "Refund" (-120) 8] 7.

(* ================================================================== *)
(** * Further definitions: the section, the report and its callers *)
(* ================================================================== *)

(** The line opens the expenses section: [re.match(r'## 出費', text)]. *)
Definition opens_section (line : MonthlyReportLine.t) : bool :=
  startswith section_heading (MonthlyReportLine.text line).

(** The line is a heading: [text.startswith('#')]. *)
Definition is_heading (line : MonthlyReportLine.t) : bool :=
  startswith "#" (MonthlyReportLine.text line).

(** The line numbers a row carries are all the number [n]. *)
Definition numbered (n : Z) (row : _TableRow.t) : Prop :=
  _TableRow.line_number row = n /\
  (forall k, _TableRow.key row = Some k -> _TableKey.line_number k = n) /\
  (forall i, _TableRow.item row = Some i -> ReceiptItem.line_number i = n).

(** The row is what the classifier reads from a line of [lines] that
    lies inside the expenses section. *)
Definition read_from (lines : list MonthlyReportLine.t) (row : _TableRow.t)
  : Prop :=
  exists line,
    In line (_filter_payment_section lines) /\
    MonthlyReportLine.text line <> EmptyString /\
    (forall tr, _TableRow.parse_line line tr = (Returned (Some row), tr)) /\
    numbered (MonthlyReportLine.line_number line) row.

(** All rows a scanner holds: the closed tables and the open one. *)
Definition all_rows (sc : scanner) : list _TableRow.t :=
  (concat (tables sc) ++ table sc)%list.

Definition is_error (r : LogRecord) : Prop := fst r = ERROR.

(** The text of the line holds more digits than [int] accepts in one
    numeral. *)
Definition too_many_digits (line : MonthlyReportLine.t) : Prop :=
  (int_max_str_digits < count_digits (MonthlyReportLine.text line))%nat.

(** A report whose table holds an item row with a price of 4301
    digits. *)
Definition report_long_price : list MonthlyReportLine.t :=
  report [section_heading; header; alignment; "||||||";
          "||||x|" ++ zeros (S int_max_str_digits) ++ "|"].

(** A report that holds a table with a line the classifier rejects,
    followed by a well-formed row. *)
Definition report_broken_row : list MonthlyReportLine.t :=
  report [section_heading; header; alignment;
          "||||||"; "|15|09:30|Store|Widget|500|"; "| 16 |10:00|Cafe|Tea|300|";
          "|17|11:00|Cafe|Tea|300|"; "||||||"].

(** The lines of a table body: two rows. *)
Definition body_lines_sample : list MonthlyReportLine.t :=
  [MonthlyReportLine.mk "||||||" 4;
   MonthlyReportLine.mk "|15|09:30|Store|Widget|500|" 5].

(** The record is not the warning that [result] emits. *)
Definition before_result (r : LogRecord) : Prop :=
  forall msg, r <> (WARNING, "need an empty row after: " ++ msg).

(** The text of the warning for an empty row that follows an empty row. *)
Definition consecutive_empty_record (year month line : Z) : LogRecord :=
  (WARNING, "consective empty row at " ++ format_0 4 year ++ "/"
            ++ format_0 2 month ++ ".md:" ++ str line).

(** A parser state with a closed receipt on the 30th and a pending one
    on the 10th. *)
Definition parser_day_goes_back : _PaymentTableParser.t :=
  _PaymentTableParser.mk 2024 4
    [Receipt.mk 2024 4 30 9 30 "Store" [ReceiptItem.mk "Widget" 500 5] 5]
    false true (Some (_TableKey.mk 10 9 30 "Store" 7))
    [ReceiptItem.mk "Gadget" 300 7].




(** Rows that do not end with an empty row. *)
Definition rows_open_end : list _TableRow.t :=
  [ _TableRow.mk None None 4;
    _TableRow.mk (Some (_TableKey.mk 15 9 30 "Store" 5))
                 (Some (ReceiptItem.mk "Widget" 500 5)) 5 ].

(** The receipt was assembled from rows of [rows]: its key fields are
    those of the key of one of the rows, and each of its items is the
    item of one of the rows. *)
Definition assembled_from (rows : list _TableRow.t) (r : Receipt.t) : Prop :=
  (exists row k,
      In row rows /\ _TableRow.key row = Some k /\
      Receipt.day r = _TableKey.day k /\
      Receipt.hour r = _TableKey.hour k /\
      Receipt.minute r = _TableKey.minute k /\
      Receipt.store r = _TableKey.store k /\
      Receipt.line_number r = _TableKey.line_number k) /\
  (forall i, In i (Receipt.items r) ->
             exists row, In row rows /\ _TableRow.item row = Some i).

(** The closed receipts, the pending key and the pending items of a
    parser state all stem from rows of [rows]. *)
Definition drawn_from (rows : list _TableRow.t) (self : _PaymentTableParser.t)
  : Prop :=
  Forall (assembled_from rows) (_PaymentTableParser._receipts self) /\
  (forall k, _PaymentTableParser._table_key self = Some k ->
             exists row, In row rows /\ _TableRow.key row = Some k) /\
  (forall i, In i (_PaymentTableParser._table_items self) ->
             exists row, In row rows /\ _TableRow.item row = Some i).

(** The receipt was read from the lines of the expenses section of
    [lines]: its day, time and store are the key the classifier reads
    from the line whose number the receipt carries, and each of its
    items is the item the classifier reads from the line whose number
    the item carries. *)
Definition receipt_read_from (lines : list MonthlyReportLine.t)
           (r : Receipt.t) : Prop :=
  (exists line row k,
      In line (_filter_payment_section lines) /\
      (forall tr, _TableRow.parse_line line tr = (Returned (Some row), tr)) /\
      _TableRow.key row = Some k /\
      Receipt.day r = _TableKey.day k /\
      Receipt.hour r = _TableKey.hour k /\
      Receipt.minute r = _TableKey.minute k /\
      Receipt.store r = _TableKey.store k /\
      Receipt.line_number r = MonthlyReportLine.line_number line) /\
  (forall i, In i (Receipt.items r) ->
     exists line row,
       In line (_filter_payment_section lines) /\
       (forall tr, _TableRow.parse_line line tr = (Returned (Some row), tr)) /\
       _TableRow.item row = Some i /\
       ReceiptItem.line_number i = MonthlyReportLine.line_number line).


(** A report whose table holds a key row for the day 2^31. *)
Definition report_day_overflow : list MonthlyReportLine.t :=
  report [section_heading; header; alignment;
          "||||||"; "|2147483648|09:30|Store|Widget|500|"; "||||||"].

(** ** A rendered receipt inside a report *)

(** The numbers that [to_table_rows] formats are within the digit
    limit, so that none of its f-strings raises. *)
Definition renderable (r : Receipt.t) : Prop :=
  printable (Receipt.day r) /\ printable (Receipt.hour r) /\
  printable (Receipt.minute r) /\
  Forall (fun i => printable (ReceiptItem.price i)) (Receipt.items r).

(** The items with the line numbers [n], [n+1], ... *)
Fixpoint renumber (n : Z) (its : list ReceiptItem.t) : list ReceiptItem.t :=
  match its with
  | [] => []
  | i :: its' =>
      ReceiptItem.mk (ReceiptItem.name i) (ReceiptItem.price i) n
      :: renumber (n + 1) its'
  end.

(** The receipt moved to line [n]: the same fields, the key row at line
    [n] and one item per line from there. *)
Definition relocated (r : Receipt.t) (n : Z) : Receipt.t :=
  Receipt.mk (Receipt.year r) (Receipt.month r) (Receipt.day r)
             (Receipt.hour r) (Receipt.minute r) (Receipt.store r)
             (renumber n (Receipt.items r)) n.

(** A report whose expenses section holds one table: an empty row, the
    rows of the receipt as [to_table_rows] renders them, an empty row. *)
Definition rendered_report (r : Receipt.t) : list MonthlyReportLine.t :=
  report ([section_heading; header; alignment; "||||||"]
          ++ Receipt.to_table_rows r ++ ["||||||"])%list.

(** A receipt of April 2024 at line 5 with two items on the lines 5, 6. *)
Definition receipt_at_line_5 : Receipt.t :=
  Receipt.mk 2024 4 15 9 30 "Example Store"
             [ReceiptItem.mk "Widget" 500 5; ReceiptItem.mk "Refund" (-120) 6] 5.

(* ================================================================== *)
(** * [MonthlyReport] of [_monthly_report.py] *)
(* ================================================================== *)

(** The line feed. *)
Definition newline : string := String (ascii_of_nat 10) EmptyString.

(** The class of [.]: every character but the line feed. *)
Definition not_newline (c : ascii) : bool := negb (Ascii.eqb c (ascii_of_nat 10)).

(** [s.removesuffix('\n')]. *)
Fixpoint removesuffix_newline (s : string) : string :=
  match s with
  | EmptyString => EmptyString
  | String c EmptyString =>
      if Ascii.eqb c (ascii_of_nat 10) then EmptyString else s
  | String c s' => String c (removesuffix_newline s')
  end.

(** [re.match(r'^# (?P<title>.+)', text)] followed by [.group('title')]:
    the pattern is anchored at the start, so [^] holds; the group is the
    last part of the pattern, so its text is what [.+] consumes. *)
Definition title_match (text : string) : option string :=
  exec (Cat (Chr "#"%char) (Chr " "%char)) text no_captures
       (fun s _ =>
          exec (Plus not_newline) s no_captures
               (fun s' _ => Some (taken s s'))).

Module MonthlyReport.
Record t : Type := mk {
  _year : Z;
  _month : Z;
  _lines : list MonthlyReportLine.t
}.

Definition year (self : t) : Z := _year self.

Definition month (self : t) : Z := _month self.

(** [''.join(f'{line.text}\n' for line in self._lines)]. *)
Definition text (self : t) : string :=
  String.concat EmptyString
    (List.map (fun line => MonthlyReportLine.text line ++ newline)
              (_lines self)).

Definition title (self : t) : option string :=
  match _lines self with
  | line :: _ => title_match (MonthlyReportLine.text line)
  | [] => None
  end.

Definition payment (self : t) : M (list Receipt.t) :=
  parse_payment (year self) (month self) (_lines self).

(** The title [load] expects: [f'{year}年 {month}月']. *)
Definition expected_title (year month : Z) : string :=
  str year ++ "年 " ++ str month ++ "月".

(** [str(x)] of an optional text inside an f-string. *)
Definition show (o : option string) : string :=
  match o with
  | Some s => s
  | None => "None"
  end.

(** [load] from the point where the file is open: [raw] are the lines
    that iterating over the file yields, [year] and [month] the numbers
    read from the path.  The records of severity info and debug are
    left out, as everywhere. *)
Definition load_lines (year month : Z) (raw : list string) : M t :=
  let lines := enumerate 1 (List.map removesuffix_newline raw) in
  let report := mk year month lines in
  let title := expected_title year month in
  (if match MonthlyReport.title report with
      | Some t => negb (t =? title)%string
      | None => true
      end
   then emit WARNING ("unexpected title: " ++ dquote
                      ++ show (MonthlyReport.title report) ++ dquote
                      ++ " (expected " ++ dquote ++ title ++ dquote ++ ")")
   else ret tt) ;;
  ret report.
End MonthlyReport.

(** A raw line as a text file yields it: no line feed but, possibly,
    at its end. *)
Definition file_line (raw : string) : Prop :=
  all_chars not_newline (removesuffix_newline raw) = true.

(** The lines of a small report file. *)
Definition raw_report_sample : list string :=
  ["# 2024年 4月" ++ newline; newline; section_heading ++ newline;
   header ++ newline; alignment ++ newline; "||||||" ++ newline;
   "|15|09:30|Store|Widget|500|" ++ newline; "||||||" ++ newline].

(* ================================================================== *)
(** * The book list of [bookwalker_list.py] *)
(* ================================================================== *)

Module Book.
Record t : Type := mk {
  title : string;
  price : Z;
  purchase_time : DateTime.t;
  line_number : Z
}.

(** [a < b] of a dataclass with [order=True]: the fields are compared as
    a tuple, the first pair of unequal fields decides.  Texts are
    compared by code point, which is the order of their UTF-8 bytes. *)
Definition ltb (a b : t) : bool :=
  match String.compare (title a) (title b) with
  | Lt => true
  | Gt => false
  | Eq =>
      (price a <? price b) ||
      ((price a =? price b) &&
       (DateTime.ltb (purchase_time a) (purchase_time b) ||
        (DateTime.eqb (purchase_time a) (purchase_time b) &&
         (line_number a <? line_number b))))
  end.
End Book.

Definition is_book (item : ReceiptItem.t) : bool :=
  negb (ReceiptItem.name item =? "コイン利用")%string
  && negb (ReceiptItem.name item =? "消費税")%string
  && negb (ReceiptItem.name item =? "クーポン割引")%string
  && negb (startswith "期間限定コイン" (ReceiptItem.name item))
  && negb (startswith "BOOK☆WALKER コイン" (ReceiptItem.name item)).

Definition book_store : string := "BOOK☆WALKER".

(** The inner loop of [main]: the books of one receipt. *)
Definition books_of_receipt (books : list Book.t) (receipt : Receipt.t)
  : M (list Book.t) :=
  for_each
    (fun books item =>
       (* filter by item name *)
       if negb (is_book item) then ret books
       else
         purchase_time <- lift (Receipt.datetime_error receipt)
                               (Receipt.datetime receipt) ;;
         ret (books ++ [Book.mk (ReceiptItem.name item)
                                (ReceiptItem.price item)
                                purchase_time
                                (ReceiptItem.line_number item)])%list)
    (Receipt.items receipt) books.

(** The loop [# books] of [main]. *)
Definition collect_books (receipts : list Receipt.t) : M (list Book.t) :=
  for_each
    (fun books receipt =>
       (* filter by store *)
       if negb (Receipt.store receipt =? book_store)%string then ret books
       else books_of_receipt books receipt)
    receipts [].

(** [books.sort()]: a stable sort that compares with [<] only. *)
Fixpoint insert_book (x : Book.t) (l : list Book.t) : list Book.t :=
  match l with
  | [] => [x]
  | y :: l' =>
      if Book.ltb y x then y :: insert_book x l' else x :: y :: l'
  end.

Fixpoint sort_books (l : list Book.t) : list Book.t :=
  match l with
  | [] => []
  | x :: l' => insert_book x (sort_books l')
  end.

(** [main] between the loading of the reports and the output: the
    books of the receipts, sorted. *)
Definition sorted_books (receipts : list Receipt.t) : M (list Book.t) :=
  books <- collect_books receipts ;;
  ret (sort_books books).

(** The loop [# receipts] of [main]: the receipts of all reports, in
    the order of the reports. *)
Definition collect_receipts (reports : list MonthlyReport.t)
  : M (list Receipt.t) :=
  for_each
    (fun receipts report =>
       payment <- MonthlyReport.payment report ;;
       ret (receipts ++ payment)%list)
    reports [].

(** [main] from the loaded reports to the sorted book list. *)
Definition book_list (reports : list MonthlyReport.t) : M (list Book.t) :=
  receipts <- collect_receipts reports ;;
  sorted_books receipts.

(** [a] does not come after [b]. *)
Definition book_le (a b : Book.t) : Prop := Book.ltb b a = false.

(** The book of an item bought at [dt]. *)
Definition book_of (item : ReceiptItem.t) (dt : DateTime.t) : Book.t :=
  Book.mk (ReceiptItem.name item) (ReceiptItem.price item) dt
          (ReceiptItem.line_number item).

(** [b] is the book of an item that passes [is_book], on a receipt of
    the book store. *)
Definition listed (receipts : list Receipt.t) (b : Book.t) : Prop :=
  exists r i dt,
    In r receipts /\ Receipt.store r = book_store /\
    In i (Receipt.items r) /\ is_book i = true /\
    Receipt.datetime r = Some dt /\ b = book_of i dt.

(** A report with a purchase at the book store: two books, between them
    a line of coins used, and a purchase elsewhere. *)
Definition report_books : list MonthlyReportLine.t :=
  report [section_heading; header; alignment;
          "||||||"; "|3|21:05|BOOK☆WALKER|Volume 2|660|";
          "||||コイン利用|-100|"; "||||Volume 1|660|";
          "||||||"; "|4|12:00|Grocer|Apple|100|"; "||||||"].

(** Two monthly reports: the one with the books and an earlier month. *)
Definition reports_sample : list MonthlyReport.t :=
  [MonthlyReport.mk 2024 3
     (report [section_heading; header; alignment;
              "||||||"; "|9|08:15|BOOK☆WALKER|Volume 3|700|"; "||||||"]);
   MonthlyReport.mk 2024 4 report_books].

(* ================================================================== *)
(** * Reasoning about computations *)
(* ================================================================== *)

Lemma bind_returned {A B} (c : M A) (k : A -> M B) tr b tr' :
  bind c k tr = (Returned b, tr') ->
  exists a tr1, c tr = (Returned a, tr1) /\ k a tr1 = (Returned b, tr').
Proof.
  unfold bind. destruct (c tr) as [[a|e] tr1]; intros H.
  - exists a, tr1. split; [reflexivity | exact H].
  - discriminate H.
Qed.

Lemma bind_eq {A B} (c : M A) (k : A -> M B) tr a tr1 :
  c tr = (Returned a, tr1) -> bind c k tr = k a tr1.
Proof. unfold bind. intros ->. reflexivity. Qed.

Lemma ret_returned {A} (a b : A) tr tr' :
  ret a tr = (Returned b, tr') -> a = b /\ tr = tr'.
Proof. unfold ret. intros H. inversion H. split; reflexivity. Qed.

Lemma lift_returned {A} e (o : option A) a tr tr' :
  lift e o tr = (Returned a, tr') -> o = Some a /\ tr = tr'.
Proof.
  destruct o as [x|]; simpl; unfold ret, raise; intros H; inversion H.
  split; reflexivity.
Qed.

Lemma emit_returned lv msg u tr tr' :
  emit lv msg tr = (Returned u, tr') -> tr' = (tr ++ [(lv, msg)])%list.
Proof. unfold emit. intros H. inversion H. reflexivity. Qed.

(** Break every hypothesis [c tr = (Returned _, _)] along the binds,
    returns, lifts and emissions of [c]. *)
Ltac returns :=
  repeat match goal with
  | H : bind _ _ _ = (Returned _, _) |- _ =>
      apply bind_returned in H; destruct H as (? & ? & ? & H)
  | H : ret _ _ = (Returned _, _) |- _ =>
      apply ret_returned in H; destruct H as [? ?]
  | H : lift _ _ _ = (Returned _, _) |- _ =>
      apply lift_returned in H; destruct H as [? ?]
  | H : emit _ _ _ = (Returned _, _) |- _ =>
      apply emit_returned in H
  end.


(* ================================================================== *)
(** * The assembler: state reached by a run that returns *)
(* ================================================================== *)

Import _PaymentTableParser.


Lemma push_receipt_no_key self tr :
  _table_key self = None -> _push_receipt self tr = (Returned self, tr).
Proof. unfold _push_receipt. intros ->. reflexivity. Qed.

Lemma push_receipt_flushed self tr self' tr' :
  _push_receipt self tr = (Returned self', tr') -> self' = flushed self.
Proof.
  unfold _push_receipt, flushed.
  destruct (_table_key self) as [k|].
  - destruct (Receipt.datetime (candidate self k)).
    + intros H. returns. subst. reflexivity.
    + destruct (Receipt.datetime_error (candidate self k)); intros H;
        try discriminate H.
      returns. subst. reflexivity.
  - intros H. returns. subst. reflexivity.
Qed.

Lemma push_pushed self row tr self' tr' :
  push self row tr = (Returned self', tr') -> self' = pushed self row.
Proof.
  unfold push, pushed. destruct (_TableRow.is_empty row).
  - intros H. returns.
    match goal with F : _push_receipt _ _ = _ |- _ =>
      apply push_receipt_flushed in F end.
    subst. reflexivity.
  - intros H. returns. subst self'.
    destruct (_TableRow.key row) as [k|]; returns.
    + match goal with F : _push_receipt _ _ = _ |- _ =>
        apply push_receipt_flushed in F end.
      subst. reflexivity.
    + subst. reflexivity.
Qed.

Lemma for_each_push_pushed rows self tr self' tr' :
  for_each push rows self tr = (Returned self', tr') ->
  self' = fold_left pushed rows self.
Proof.
  revert self tr. induction rows as [|row rows IH]; intros self tr H; simpl in *.
  - returns. subst. reflexivity.
  - returns.
    match goal with F : push _ _ _ = _ |- _ => apply push_pushed in F end.
    subst. exact (IH _ _ H).
Qed.

Lemma result_flushed self tr rs tr' :
  result self tr = (Returned rs, tr') -> rs = _receipts (flushed self).
Proof.
  unfold result. intros H. returns.
  match goal with F : _push_receipt _ _ = _ |- _ =>
    apply push_receipt_flushed in F end.
  subst. reflexivity.
Qed.

Lemma run_flushed year month rows tr rs tr' :
  run year month rows tr = (Returned rs, tr') ->
  rs = _receipts (flushed (fold_left pushed rows (init year month))).
Proof.
  unfold run. intros H. returns.
  match goal with F : for_each _ _ _ _ = _ |- _ =>
    apply for_each_push_pushed in F end.
  apply result_flushed in H. subst. reflexivity.
Qed.

(** ** The month and the timestamps of the closed receipts *)

Lemma flushed_dated year month self :
  dated year month self -> dated year month (flushed self).
Proof.
  intros (Hy & Hm & Hr). unfold flushed.
  destruct (_table_key self) as [k|]; [|repeat split; assumption].
  destruct (Receipt.datetime (candidate self k)) eqn:E.
  - repeat split; simpl; try assumption.
    apply Forall_app. split; [assumption|].
    constructor; [|constructor].
    repeat split; simpl; try assumption. rewrite E. discriminate.
  - repeat split; simpl; assumption.
Qed.

Lemma pushed_dated year month self row :
  dated year month self -> dated year month (pushed self row).
Proof.
  intros H. unfold pushed.
  destruct (_TableRow.is_empty row).
  - destruct (flushed_dated _ _ _ H) as (Hy & Hm & Hr).
    repeat split; simpl; assumption.
  - destruct (flushed_dated _ _ _ H) as (Fy & Fm & Fr).
    destruct H as (Hy & Hm & Hr).
    destruct (_TableRow.key row) as [k|], (_TableRow.item row) as [i|];
      repeat split; simpl; assumption.
Qed.

Lemma fold_pushed_dated year month rows self :
  dated year month self -> dated year month (fold_left pushed rows self).
Proof.
  revert self. induction rows as [|row rows IH]; intros self H; simpl.
  - exact H.
  - apply IH. apply pushed_dated. exact H.
Qed.

Lemma run_well_dated year month rows tr rs tr' :
  run year month rows tr = (Returned rs, tr') ->
  Forall (well_dated year month) rs.
Proof.
  intros H. apply run_flushed in H. subst rs.
  apply flushed_dated, fold_pushed_dated.
  repeat split; simpl; constructor.
Qed.

Lemma assemble_loop_well_dated year month tbls acc tr rs tr' :
  Forall (well_dated year month) acc ->
  for_each (fun receipts table =>
              rs <- run year month table ;; ret (receipts ++ rs)%list)
           tbls acc tr = (Returned rs, tr') ->
  Forall (well_dated year month) rs.
Proof.
  revert acc tr. induction tbls as [|tb tbls IH]; intros acc tr Hacc H; simpl in H.
  - returns. subst. exact Hacc.
  - returns. subst.
    match goal with F : run _ _ _ _ = _ |- _ => apply run_well_dated in F;
      apply (IH _ _ (proj2 (Forall_app _ _ _) (conj Hacc F)) H) end.
Qed.

Lemma assemble_well_dated year month lines tr rs tr' :
  assemble year month lines tr = (Returned rs, tr') ->
  Forall (well_dated year month) rs.
Proof.
  unfold assemble. intros H. returns.
  apply (assemble_loop_well_dated _ _ _ _ _ _ _ (Forall_nil _) H).
Qed.

Lemma dated_receipts year month self :
  dated year month self ->
  Forall (fun r => Receipt.datetime r <> None) (_receipts self).
Proof.
  intros (_ & _ & H). eapply Forall_impl; [|exact H].
  intros r (_ & _ & Hd). exact Hd.
Qed.

(** ** Rendering a receipt and its position *)

Lemma to_table_rows_loop_app r its rows :
  rows <> [] ->
  Receipt.to_table_rows_loop r its rows =
  (rows ++ map Receipt.continuation_row its)%list.
Proof.
  revert rows. induction its as [|i its IH]; intros rows Hne; simpl.
  - rewrite app_nil_r. reflexivity.
  - destruct rows as [|x rows]; [congruence|].
    rewrite IH by discriminate.
    rewrite <- app_assoc. reflexivity.
Qed.

Lemma to_table_rows_cons r i its :
  Receipt.items r = i :: its ->
  Receipt.to_table_rows r =
  Receipt.key_row r i :: map Receipt.continuation_row its.
Proof.
  unfold Receipt.to_table_rows. intros ->. simpl.
  rewrite to_table_rows_loop_app by discriminate. reflexivity.
Qed.


Lemma index_last_some {A} (l : list A) :
  l <> [] -> exists x, index_last l = Some x /\ In x l.
Proof.
  intros Hne. destruct (exists_last Hne) as (l' & x & ->).
  exists x. unfold index_last. rewrite rev_app_distr. simpl.
  split; [reflexivity|]. apply in_or_app. right. left. reflexivity.
Qed.

Lemma first_position_message_items r i its tr :
  Receipt.items r = i :: its ->
  _first_position_message r tr =
  (Returned (Receipt.key_row r i
             ++ position_suffix (Receipt.year r) (Receipt.month r)
                                (Receipt.line_number r)), tr).
Proof.
  intros H. unfold _first_position_message.
  rewrite (to_table_rows_cons _ _ _ H). reflexivity.
Qed.

Lemma last_position_message_items r tr :
  Receipt.items r <> [] ->
  exists msg, _last_position_message r tr = (Returned msg, tr).
Proof.
  intros H. unfold _last_position_message.
  destruct (Receipt.items r) as [|i its] eqn:E; [congruence|].
  rewrite (to_table_rows_cons _ _ _ E).
  destruct (index_last_some (Receipt.key_row r i :: map Receipt.continuation_row its))
    as (x & Hx & _); [discriminate|].
  rewrite Hx. eexists. reflexivity.
Qed.

Lemma warn_first_items prefix r i its tr :
  Receipt.items r = i :: its ->
  exists msg,
    warn_first prefix r tr =
    (Returned tt, (tr ++ [(WARNING, (prefix ++ msg)%string)])%list).
Proof.
  intros H. unfold warn_first.
  rewrite (bind_eq _ _ _ _ _ (first_position_message_items _ _ _ tr H)).
  eexists. reflexivity.
Qed.

Lemma datetime_fields r dt :
  Receipt.datetime r = Some dt ->
  DateTime.year dt = Receipt.year r /\ DateTime.month dt = Receipt.month r /\
  DateTime.day dt = Receipt.day r /\ DateTime.hour dt = Receipt.hour r /\
  DateTime.minute dt = Receipt.minute r.
Proof.
  unfold Receipt.datetime, DateTime.make.
  destruct (DateTime.valid _ _ _ _ _); [|discriminate].
  intros H. inversion H. simpl. repeat split; reflexivity.
Qed.

(** A constructor that returns has converted its arguments; had it
    raised, the exception would have been [ValueError]. *)
Lemma valid_fits y mo d h mi :
  DateTime.valid y mo d h mi = true ->
  DateTime.make_error y mo d h mi = ValueError.
Proof.
  unfold DateTime.valid, DateTime.make_error, DateTime.fits_int. intros E.
  repeat (apply andb_true_iff in E; destruct E as [E ?]).
  repeat match goal with
  | H : (_ <=? _) = true |- _ => apply Z.leb_le in H
  end.
  assert (Hdm : DateTime.days_in_month y mo <= 31).
  { unfold DateTime.days_in_month.
    destruct (mo =? 2); [destruct (DateTime.is_leap y); lia|].
    destruct ((mo =? 4) || (mo =? 6) || (mo =? 9) || (mo =? 11)); lia. }
  change (2 ^ 31) with 2147483648.
  repeat match goal with
  | |- context [?a <=? ?b] =>
      destruct (Z.leb_spec a b); [|lia]
  | |- context [?a <? ?b] =>
      destruct (Z.ltb_spec a b); [|lia]
  end.
  reflexivity.
Qed.


(** ** The diagnostics of one flush *)

Lemma emitted_app lv prefix l1 l2 :
  emitted lv prefix (l1 ++ l2)%list <->
  emitted lv prefix l1 \/ emitted lv prefix l2.
Proof.
  unfold emitted. split.
  - intros (msg & H). apply in_app_or in H.
    destruct H; [left | right]; exists msg; assumption.
  - intros [(msg & H) | (msg & H)]; exists msg; apply in_or_app; auto.
Qed.

Lemma emitted_nil lv prefix : ~ emitted lv prefix [].
Proof. intros (msg & []). Qed.

Lemma validate_order_trail self c i its dt tr :
  Receipt.items c = i :: its ->
  Receipt.datetime c = Some dt ->
  Forall (fun r => Receipt.datetime r <> None) (_receipts self) ->
  exists new,
    validate_order self c tr = (Returned tt, (tr ++ new)%list) /\
    (new = [] \/ exists msg, new = [(WARNING, "wrong order: " ++ msg)]).
Proof.
  intros Hi Hdt Hall. unfold validate_order.
  destruct (_receipts self) as [|r0 rs0] eqn:E.
  - exists []. rewrite app_nil_r. split; [reflexivity | left; reflexivity].
  - destruct (index_last_some (r0 :: rs0)) as (prev & Hprev & Hin);
      [discriminate|].
    rewrite Forall_forall in Hall. specialize (Hall _ Hin).
    destruct (Receipt.datetime prev) as [pd|] eqn:Epd; [|congruence].
    unfold bind, datetime_of. rewrite Hprev. simpl. rewrite Epd, Hdt. simpl.
    destruct (DateTime.gtb pd dt).
    + destruct (warn_first_items "wrong order: " c i its tr Hi) as (msg & Hw).
      rewrite Hw. eexists. split; [reflexivity|]. right. eexists. reflexivity.
    + exists []. rewrite app_nil_r. split; [reflexivity | left; reflexivity].
Qed.

Lemma need_before_not_need_not msg msg' :
  (WARNING, "need an empty row before: " ++ msg)
  <> (WARNING, "need not an empty row before: " ++ msg').
Proof. simpl. discriminate. Qed.

Lemma wrong_order_not_need msg msg' :
  (WARNING, "wrong order: " ++ msg)
  <> (WARNING, "need an empty row before: " ++ msg').
Proof. simpl. discriminate. Qed.

Lemma wrong_order_not_need_not msg msg' :
  (WARNING, "wrong order: " ++ msg)
  <> (WARNING, "need not an empty row before: " ++ msg').
Proof. simpl. discriminate. Qed.

Lemma emitted_one lv prefix msg :
  emitted lv prefix [(lv, prefix ++ msg)].
Proof. exists msg. left. reflexivity. Qed.

Lemma validate_empty_row_trail self c i its dt tr :
  Receipt.items c = i :: its ->
  Receipt.datetime c = Some dt ->
  Forall (fun r => Receipt.datetime r <> None) (_receipts self) ->
  exists new,
    validate_empty_row self c tr = (Returned tt, (tr ++ new)%list) /\
    (emitted WARNING "need an empty row before: " new <->
       _is_before_key_empty self = false /\
       match index_last (_receipts self) with
       | Some prev => Receipt.day prev < Receipt.day c
       | None => True
       end) /\
    (emitted WARNING "need not an empty row before: " new <->
       _is_before_key_empty self = true /\
       exists prev, index_last (_receipts self) = Some prev /\
                    Receipt.day c <= Receipt.day prev) /\
    ~ emitted WARNING "wrong order: " new.
Proof.
  intros Hi Hdt Hall. unfold validate_empty_row.
  destruct (warn_first_items "need an empty row before: " c i its tr Hi)
    as (m1 & Hw1).
  destruct (warn_first_items "need not an empty row before: " c i its tr Hi)
    as (m2 & Hw2).
  destruct (_receipts self) as [|r0 rs0] eqn:E.
  - simpl. destruct (_is_before_key_empty self); simpl.
    + exists []. rewrite app_nil_r. split; [reflexivity|].
      split; [|split].
      * split; [intros H; destruct (emitted_nil _ _ H) | intros [H _]; discriminate].
      * split; [intros H; destruct (emitted_nil _ _ H)
               | intros (_ & prev & H & _); discriminate].
      * apply emitted_nil.
    + rewrite Hw1. eexists. split; [reflexivity|]. split; [|split].
      * split; [intros _; split; [reflexivity | exact I]
               | intros _; apply emitted_one].
      * split; [| intros [H _]; discriminate].
        intros (msg & [H|[]]). destruct (need_before_not_need_not _ _ H).
      * intros (msg & [H|[]]). simpl in H. discriminate.
  - destruct (index_last_some (r0 :: rs0)) as (prev & Hprev & Hin);
      [discriminate|].
    rewrite Forall_forall in Hall. specialize (Hall _ Hin).
    destruct (Receipt.datetime prev) as [pd|] eqn:Epd; [|congruence].
    destruct (datetime_fields _ _ Epd) as (_ & _ & Hpd & _).
    destruct (datetime_fields _ _ Hdt) as (_ & _ & Hcd & _).
    unfold bind, datetime_of. rewrite Hprev. simpl. rewrite Epd, Hdt. simpl.
    rewrite Hpd, Hcd.
    destruct (Receipt.day prev <? Receipt.day c) eqn:Elt;
      [apply Z.ltb_lt in Elt | apply Z.ltb_ge in Elt];
      destruct (_is_before_key_empty self); simpl.
    + exists []. rewrite app_nil_r. split; [reflexivity|]. split; [|split].
      * split; [intros H; destruct (emitted_nil _ _ H) | intros [H _]; discriminate].
      * split; [intros H; destruct (emitted_nil _ _ H)|].
        intros (_ & p & Hp & Hle). inversion Hp; subst. lia.
      * apply emitted_nil.
    + rewrite Hw1. eexists. split; [reflexivity|]. split; [|split].
      * split; [intros _; split; [reflexivity | exact Elt]
               | intros _; apply emitted_one].
      * split; [| intros [H _]; discriminate].
        intros (msg & [H|[]]). destruct (need_before_not_need_not _ _ H).
      * intros (msg & [H|[]]). simpl in H. discriminate.
    + rewrite Hw2. eexists. split; [reflexivity|]. split; [|split].
      * split; [| intros [H _]; discriminate].
        intros (msg & [H|[]]). symmetry in H.
        destruct (need_before_not_need_not _ _ H).
      * split; [intros _; split; [reflexivity|]; exists prev; split;
                  [reflexivity | exact Elt]
               | intros _; apply emitted_one].
      * intros (msg & [H|[]]). simpl in H. discriminate.
    + exists []. rewrite app_nil_r. split; [reflexivity|]. split; [|split].
      * split; [intros H; destruct (emitted_nil _ _ H) | intros [_ H]; lia].
      * split; [intros H; destruct (emitted_nil _ _ H) | intros [H _]; discriminate].
      * apply emitted_nil.
Qed.

(** ** Grouping rows into receipts *)

Lemma spec_receipts_length year month rows :
  List.length (spec_receipts year month rows) = count_key_rows rows.
Proof.
  unfold count_key_rows. induction rows as [|row rows IH]; simpl.
  - reflexivity.
  - unfold is_key_row at 1. destruct (_TableRow.key row); simpl; rewrite IH; reflexivity.
Qed.

Lemma valid_key_datetime year month k its :
  valid_key year month k = true ->
  Receipt.datetime
    (Receipt.mk year month (_TableKey.day k) (_TableKey.hour k)
                (_TableKey.minute k) (_TableKey.store k) its
                (_TableKey.line_number k)) <> None.
Proof.
  unfold valid_key, Receipt.datetime, DateTime.make. simpl.
  intros ->. discriminate.
Qed.

Lemma fold_pushed_receipts year month rows :
  forall self,
    _year self = year -> _month self = month ->
    all_dates_valid year month rows = true ->
    (forall k, _table_key self = Some k -> valid_key year month k = true) ->
    (_table_key self = None -> _table_items self = []) ->
    attached (match _table_key self with Some _ => true | None => false end)
             rows = true ->
    _receipts (flushed (fold_left pushed rows self)) =
    (_receipts self ++ pending self rows ++ spec_receipts year month rows)%list.
Proof.
  induction rows as [|row rows IH]; intros self Hy Hm Hv Hk Hn Ha.
  - simpl. unfold flushed, pending.
    destruct self as [y m rs le be [k|] its]; simpl in *.
    + subst y m. specialize (Hk k eq_refl).
      pose proof (valid_key_datetime _ _ k its Hk) as Hd.
      unfold candidate. simpl.
      destruct (Receipt.datetime _); [|congruence].
      simpl. rewrite !app_nil_r. reflexivity.
    + rewrite app_nil_r. reflexivity.
  - simpl in Hv. apply andb_true_iff in Hv. destruct Hv as [Hv1 Hv].
    simpl fold_left.
    assert (Hd : forall k its,
               _table_key self = Some k ->
               Receipt.datetime
                 (Receipt.mk year month (_TableKey.day k) (_TableKey.hour k)
                    (_TableKey.minute k) (_TableKey.store k) its
                    (_TableKey.line_number k)) <> None).
    { intros k its Hs. apply valid_key_datetime. apply Hk. exact Hs. }
    destruct self as [y m rs le be key its]; simpl in *. subst y m.
    destruct row as [rk ri rl]; simpl in *.
    destruct rk as [k'|]; [|destruct ri as [i|]].
    + (* a key row *)
      rewrite IH.
      * destruct key as [k|]; [specialize (Hd k its eq_refl)|rewrite (Hn eq_refl)];
          unfold pushed, flushed, pending, candidate; simpl;
          [destruct (Receipt.datetime _); [|congruence]|];
          destruct ri; simpl; rewrite ?app_nil_r, <- ?app_assoc; reflexivity.
      * destruct key as [k|]; [specialize (Hd k its eq_refl)|];
          unfold pushed, flushed, candidate; simpl;
          [destruct (Receipt.datetime _); [|congruence]|];
          destruct ri; reflexivity.
      * destruct key as [k|]; [specialize (Hd k its eq_refl)|];
          unfold pushed, flushed, candidate; simpl;
          [destruct (Receipt.datetime _); [|congruence]|];
          destruct ri; reflexivity.
      * exact Hv.
      * destruct key as [k|]; [specialize (Hd k its eq_refl)|];
          unfold pushed, flushed, candidate; simpl;
          [destruct (Receipt.datetime _); [|congruence]|];
          destruct ri; simpl; intros k0 Hk0; inversion Hk0; subst; exact Hv1.
      * destruct key as [k|]; [specialize (Hd k its eq_refl)|];
          unfold pushed, flushed, candidate; simpl;
          [destruct (Receipt.datetime _); [|congruence]|];
          destruct ri; simpl; discriminate.
      * destruct key as [k|]; [specialize (Hd k its eq_refl)|];
          unfold pushed, flushed, candidate; simpl;
          [destruct (Receipt.datetime _); [|congruence]|];
          destruct ri; simpl; exact Ha.
    + (* an item row *)
      destruct key as [k|]; simpl in Ha; [|discriminate].
      rewrite IH; unfold pushed, pending; simpl;
        try assumption; try reflexivity.
      * rewrite <- app_assoc. reflexivity.
      * discriminate.
    + (* an empty row *)
      rewrite IH.
      * destruct key as [k|]; [specialize (Hd k its eq_refl)|];
          unfold pushed, flushed, pending, candidate; simpl;
          [destruct (Receipt.datetime _); [|congruence]|];
          simpl; rewrite ?app_nil_r, <- ?app_assoc; reflexivity.
      * destruct key as [k|]; [specialize (Hd k its eq_refl)|];
          unfold pushed, flushed, candidate; simpl;
          [destruct (Receipt.datetime _); [|congruence]|]; reflexivity.
      * destruct key as [k|]; [specialize (Hd k its eq_refl)|];
          unfold pushed, flushed, candidate; simpl;
          [destruct (Receipt.datetime _); [|congruence]|]; reflexivity.
      * exact Hv.
      * destruct key as [k|]; [specialize (Hd k its eq_refl)|];
          unfold pushed, flushed, candidate; simpl;
          [destruct (Receipt.datetime _); [|congruence]|];
          simpl; discriminate.
      * destruct key as [k|]; [specialize (Hd k its eq_refl)|];
          unfold pushed, flushed, candidate; simpl;
          [destruct (Receipt.datetime _); [|congruence]|];
          simpl; intros _; try reflexivity.
        apply Hn. reflexivity.
      * destruct key as [k|]; [specialize (Hd k its eq_refl)|];
          unfold pushed, flushed, candidate; simpl;
          [destruct (Receipt.datetime _); [|congruence]|];
          simpl; exact Ha.
Qed.

Lemma run_spec_receipts year month rows tr rs tr' :
  all_dates_valid year month rows = true ->
  attached false rows = true ->
  run year month rows tr = (Returned rs, tr') ->
  rs = spec_receipts year month rows.
Proof.
  intros Hv Ha H. apply run_flushed in H. subst rs.
  rewrite (fold_pushed_receipts year month rows); simpl;
    try assumption; try reflexivity.
  discriminate.
Qed.

(** Without the condition [attached]: one receipt per key row, with the
    fields of its key, whose items end with the item cells from the key
    row up to the next key row or empty row. *)
Lemma extends_same y m d h mi st its ln :
  extends (Receipt.mk y m d h mi st its ln)
          (Receipt.mk y m d h mi st (its ++ [])%list ln).
Proof.
  unfold extends. simpl. repeat split. exists []. simpl.
  rewrite app_nil_r. reflexivity.
Qed.

Lemma extends_drop r y m d h mi st a b ln :
  extends r (Receipt.mk y m d h mi st (a ++ b)%list ln) ->
  extends r (Receipt.mk y m d h mi st b ln).
Proof.
  unfold extends. simpl.
  intros (H1 & H2 & H3 & H4 & H5 & H6 & H7 & front & H8).
  repeat (split; [assumption|]).
  exists (front ++ a)%list. rewrite H8, app_assoc. reflexivity.
Qed.

Lemma fold_pushed_extends year month rows :
  forall self,
    _year self = year -> _month self = month ->
    all_dates_valid year month rows = true ->
    (forall k, _table_key self = Some k -> valid_key year month k = true) ->
    exists tail,
      _receipts (flushed (fold_left pushed rows self)) =
        (_receipts self ++ tail)%list /\
      Forall2 extends tail
              (pending self rows ++ spec_receipts year month rows)%list.
Proof.
  induction rows as [|row rows IH]; intros self Hy Hm Hv Hk.
  - simpl. unfold flushed, pending.
    destruct self as [y m rs le be [k|] its]; simpl in *.
    + subst y m. specialize (Hk k eq_refl).
      pose proof (valid_key_datetime _ _ k its Hk) as Hd.
      unfold candidate. simpl.
      destruct (Receipt.datetime _); [|congruence]. simpl.
      eexists. split; [reflexivity|].
      constructor; [apply extends_same | constructor].
    + exists []. rewrite app_nil_r. split; [reflexivity | constructor].
  - simpl in Hv. apply andb_true_iff in Hv. destruct Hv as [Hv1 Hv].
    simpl fold_left.
    assert (Hd : forall k its,
               _table_key self = Some k ->
               Receipt.datetime
                 (Receipt.mk year month (_TableKey.day k) (_TableKey.hour k)
                    (_TableKey.minute k) (_TableKey.store k) its
                    (_TableKey.line_number k)) <> None).
    { intros k its Hs. apply valid_key_datetime. apply Hk. exact Hs. }
    destruct self as [y m rs le be key its]; simpl in *. subst y m.
    destruct row as [rk ri rl]; simpl in *.
    destruct rk as [k'|]; [|destruct ri as [i|]].
    + (* a key row *)
      destruct key as [k|].
      * specialize (Hd k its eq_refl).
        destruct (IH (pushed (mk year month rs le be (Some k) its)
                             (_TableRow.mk (Some k') ri rl)))
          as (tail & Ht & Hf).
        -- unfold pushed, flushed, candidate; simpl.
           destruct (Receipt.datetime _); [|congruence]. destruct ri; reflexivity.
        -- unfold pushed, flushed, candidate; simpl.
           destruct (Receipt.datetime _); [|congruence]. destruct ri; reflexivity.
        -- exact Hv.
        -- unfold pushed, flushed, candidate; simpl.
           destruct (Receipt.datetime _); [|congruence].
           destruct ri; simpl; intros k0 Hk0; inversion Hk0; subst; exact Hv1.
        -- rewrite Ht. clear Ht.
           unfold pushed, flushed, pending, candidate in *; simpl in *.
           destruct (Receipt.datetime _); [|congruence].
           eexists. split.
           ++ destruct ri; simpl; rewrite <- app_assoc; reflexivity.
           ++ simpl. constructor; [apply extends_same|].
              destruct ri; simpl in *; exact Hf.
      * destruct (IH (pushed (mk year month rs le be None its)
                             (_TableRow.mk (Some k') ri rl)))
          as (tail & Ht & Hf).
        -- destruct ri; reflexivity.
        -- destruct ri; reflexivity.
        -- exact Hv.
        -- unfold pushed, flushed; simpl.
           destruct ri; simpl; intros k0 Hk0; inversion Hk0; subst; exact Hv1.
        -- rewrite Ht. clear Ht. exists tail.
           unfold pushed, flushed, pending in *; simpl in *.
           split; [destruct ri; reflexivity|].
           destruct ri as [i|]; simpl in *;
             inversion Hf as [|t s ts ss Hhead Hrest]; subst;
             (constructor; [|exact Hrest]).
           ++ apply (extends_drop _ _ _ _ _ _ _ its).
              rewrite <- app_assoc in Hhead. exact Hhead.
           ++ apply (extends_drop _ _ _ _ _ _ _ its). exact Hhead.
    + (* an item row *)
      destruct (IH (pushed (mk year month rs le be key its)
                           (_TableRow.mk None (Some i) rl)))
        as (tail & Ht & Hf); try reflexivity; try assumption.
      rewrite Ht. clear Ht. exists tail.
      unfold pushed, pending in *; simpl in *.
      split; [reflexivity|].
      destruct key as [k|]; simpl in *; [|exact Hf].
      rewrite <- app_assoc in Hf. exact Hf.
    + (* an empty row *)
      destruct key as [k|].
      * specialize (Hd k its eq_refl).
        destruct (IH (pushed (mk year month rs le be (Some k) its)
                             (_TableRow.mk None None rl)))
          as (tail & Ht & Hf).
        -- unfold pushed, flushed, candidate; simpl.
           destruct (Receipt.datetime _); [|congruence]. reflexivity.
        -- unfold pushed, flushed, candidate; simpl.
           destruct (Receipt.datetime _); [|congruence]. reflexivity.
        -- exact Hv.
        -- unfold pushed, flushed, candidate; simpl.
           destruct (Receipt.datetime _); [|congruence].
           simpl. intros k0 Hk0. discriminate Hk0.
        -- rewrite Ht. clear Ht.
           unfold pushed, flushed, pending, candidate in *; simpl in *.
           destruct (Receipt.datetime _); [|congruence].
           eexists. split; [simpl; rewrite <- app_assoc; reflexivity|].
           simpl. constructor; [apply extends_same | exact Hf].
      * destruct (IH (pushed (mk year month rs le be None its)
                             (_TableRow.mk None None rl)))
          as (tail & Ht & Hf); try reflexivity; try assumption.
        rewrite Ht. clear Ht. exists tail.
        split; [reflexivity | exact Hf].
Qed.

Lemma run_extends year month rows tr rs tr' :
  all_dates_valid year month rows = true ->
  run year month rows tr = (Returned rs, tr') ->
  Forall2 extends rs (spec_receipts year month rows).
Proof.
  intros Hv H. apply run_flushed in H. subst rs.
  destruct (fold_pushed_extends year month rows (init year month))
    as (tail & Ht & Hf); try reflexivity; try assumption.
  - simpl. intros k Hk. discriminate Hk.
  - rewrite Ht. exact Hf.
Qed.

(** A candidate with an impossible date that carries an item: the date
    error is emitted and the candidate is dropped. *)
Lemma push_receipt_invalid_date self k tr :
  _table_key self = Some k ->
  _table_items self <> [] ->
  Receipt.datetime (candidate self k) = None ->
  Receipt.datetime_error (candidate self k) = ValueError ->
  exists msg,
    _push_receipt self tr =
      (Returned (flushed self),
       (tr ++ [(ERROR, ("invalid datetime: " ++ msg)%string)])%list) /\
    _receipts (flushed self) = _receipts self.
Proof.
  intros Hk Hi Hd He. unfold _push_receipt, flushed. rewrite Hk, Hd, He.
  destruct (_table_items self) as [|i its] eqn:E; [congruence|].
  rewrite (bind_eq _ _ _ _ _
             (first_position_message_items (candidate self k) i its tr E)).
  eexists. split; reflexivity.
Qed.

(** ** Runs that return *)

(** A state is [settled] when every closed receipt has a timestamp and
    at least one item. *)
Lemma push_receipt_returns self tr :
  Forall (fun r => Receipt.datetime r <> None) (_receipts self) ->
  (_table_key self = None \/ _table_items self <> []) ->
  (forall k, _table_key self = Some k ->
             Receipt.datetime (candidate self k) = None ->
             Receipt.datetime_error (candidate self k) = ValueError) ->
  exists new, _push_receipt self tr = (Returned (flushed self), (tr ++ new)%list).
Proof.
  intros Hall Hready Hfit.
  destruct (_table_key self) as [k|] eqn:Hk.
  - destruct Hready as [Hready|Hi]; [discriminate|].
    destruct (Receipt.datetime (candidate self k)) as [dt|] eqn:Hdt.
    + destruct (_table_items self) as [|i its] eqn:Ei; [congruence|].
      set (self0 := set_table_items (set_table_key self None) []).
      assert (Hc : Receipt.items (candidate self k) = i :: its)
        by (unfold candidate; simpl; exact Ei).
      destruct (validate_order_trail self0 _ i its dt tr Hc Hdt Hall)
        as (n1 & Ho & _).
      destruct (validate_empty_row_trail self0 _ i its dt (tr ++ n1)%list
                                         Hc Hdt Hall) as (n2 & He & _).
      exists (n1 ++ n2)%list.
      unfold _push_receipt, flushed. rewrite Hk, Hdt. fold self0.
      rewrite (bind_eq _ _ _ _ _ Ho), (bind_eq _ _ _ _ _ He).
      rewrite app_assoc. reflexivity.
    + destruct (push_receipt_invalid_date self k tr Hk Hi Hdt
                                          (Hfit k eq_refl Hdt)) as (msg & H & _).
      eexists. exact H.
  - exists []. rewrite app_nil_r.
    rewrite (push_receipt_no_key _ _ Hk). unfold flushed. rewrite Hk.
    reflexivity.
Qed.

Lemma itemful_mono rows : itemful true rows = true -> itemful false rows = true.
Proof.
  destruct rows as [|row rows]; simpl; [discriminate|].
  destruct (_TableRow.key row), (_TableRow.item row); simpl;
    try discriminate; auto.
Qed.

Lemma need_false_ready self :
  need self = false -> _table_key self = None \/ _table_items self <> [].
Proof.
  unfold need. destruct (_table_key self); [|left; reflexivity].
  destruct (_table_items self); [discriminate|]. right. discriminate.
Qed.

Lemma settled_dated self :
  settled self -> Forall (fun r => Receipt.datetime r <> None) (_receipts self).
Proof. apply Forall_impl. intros r [H _]. exact H. Qed.

Lemma flushed_settled self :
  settled self -> need self = false -> settled (flushed self).
Proof.
  unfold settled, need, flushed. intros Hs Hn.
  destruct (_table_key self) as [k|]; [|exact Hs].
  destruct (Receipt.datetime (candidate self k)) eqn:E; simpl; [|exact Hs].
  apply Forall_app. split; [exact Hs|].
  constructor; [|constructor]. split; [rewrite E; discriminate|].
  unfold candidate; simpl. destruct (_table_items self); [discriminate|].
  discriminate.
Qed.

Lemma flushed_fields self :
  _year (flushed self) = _year self /\ _month (flushed self) = _month self /\
  _is_last_empty (flushed self) = _is_last_empty self /\
  _table_key (flushed self) = None /\
  (_table_key self <> None -> _table_items (flushed self) = []) /\
  (_table_key self = None -> flushed self = self).
Proof.
  unfold flushed. destruct (_table_key self) as [k|] eqn:E.
  - destruct (Receipt.datetime (candidate self k)); simpl;
      repeat split; try reflexivity; intros; congruence.
  - repeat split; try assumption; try reflexivity. intros H. congruence.
Qed.

Lemma key_valid_fit self :
  key_valid self ->
  forall k, _table_key self = Some k ->
            Receipt.datetime (candidate self k) = None ->
            Receipt.datetime_error (candidate self k) = ValueError.
Proof.
  intros Hkv k Hk Hd.
  destruct (valid_key_datetime _ _ k (_table_items self) (Hkv k Hk) Hd).
Qed.

Lemma push_returns self row tr :
  settled self ->
  key_valid self ->
  (need self = false \/
   (_TableRow.key row = None /\ _TableRow.item row <> None)) ->
  exists new, push self row tr = (Returned (pushed self row), (tr ++ new)%list).
Proof.
  intros Hs Hkv Hc. unfold push, pushed.
  destruct (_TableRow.is_empty row) eqn:Ee.
  - assert (Hn : need self = false).
    { destruct Hc as [Hn|[_ Hi]]; [exact Hn|].
      unfold _TableRow.is_empty in Ee.
      destruct (_TableRow.key row), (_TableRow.item row); congruence. }
    assert (Hw : exists n0,
               (if _is_last_empty self
                then emit WARNING
                       ("consective empty row at "
                        ++ format_0 4 (_year self) ++ "/"
                        ++ format_0 2 (_month self) ++ ".md:"
                        ++ str (_TableRow.line_number row))
                else ret tt) tr = (Returned tt, (tr ++ n0)%list)).
    { destruct (_is_last_empty self); [eexists; reflexivity|].
      exists []. rewrite app_nil_r. reflexivity. }
    destruct Hw as (n0 & Hw).
    destruct (push_receipt_returns self (tr ++ n0)%list (settled_dated _ Hs)
                                   (need_false_ready _ Hn)
                                   (key_valid_fit _ Hkv)) as (n1 & Hp).
    exists (n0 ++ n1)%list.
    rewrite (bind_eq _ _ _ _ _ Hw), (bind_eq _ _ _ _ _ Hp).
    rewrite app_assoc. reflexivity.
  - destruct (_TableRow.key row) as [k|] eqn:Ek.
    + assert (Hn : need self = false).
      { destruct Hc as [Hn|[Hk _]]; [exact Hn | discriminate]. }
      destruct (push_receipt_returns self tr (settled_dated _ Hs)
                                     (need_false_ready _ Hn)
                                     (key_valid_fit _ Hkv)) as (n1 & Hp).
      exists n1. unfold bind at 1. unfold bind at 1. rewrite Hp.
      reflexivity.
    + exists []. rewrite app_nil_r. reflexivity.
Qed.

Lemma pushed_itemful self row rest :
  itemful (need self) (row :: rest) = true ->
  itemful (need (pushed self row)) rest = true /\
  (need self = false \/
   (_TableRow.key row = None /\ _TableRow.item row <> None)).
Proof.
  destruct self as [y m rs le be key its], row as [rk ri rl].
  unfold need, pushed, flushed, _TableRow.is_empty, candidate. simpl.
  destruct rk as [k'|], ri as [i|], key as [k|], its as [|i0 its]; simpl;
    try discriminate;
    try (destruct (Receipt.datetime _); simpl);
    intros H; split;
    try (left; reflexivity);
    try (right; split; [reflexivity | discriminate]);
    try exact H;
    try (apply itemful_mono; exact H).
Qed.

Lemma pushed_settled self row :
  settled self ->
  (need self = false \/
   (_TableRow.key row = None /\ _TableRow.item row <> None)) ->
  settled (pushed self row).
Proof.
  intros Hs Hc.
  destruct (_TableRow.key row) as [k'|] eqn:Ek;
    [|destruct (_TableRow.item row) as [i|] eqn:Ei].
  - assert (Hn : need self = false)
      by (destruct Hc as [Hn|[Hk _]]; [exact Hn | discriminate]).
    pose proof (flushed_settled _ Hs Hn) as Hf.
    unfold pushed, _TableRow.is_empty. rewrite Ek.
    destruct (_TableRow.item row); exact Hf.
  - unfold pushed, _TableRow.is_empty. rewrite Ek, Ei. exact Hs.
  - assert (Hn : need self = false)
      by (destruct Hc as [Hn|[_ Hi]]; [exact Hn | congruence]).
    pose proof (flushed_settled _ Hs Hn) as Hf.
    unfold pushed, _TableRow.is_empty. rewrite Ek, Ei. exact Hf.
Qed.

Lemma pushed_anchored self row :
  attached (is_open self) [row] = true -> anchored (pushed self row).
Proof.
  destruct self as [y m rs le be key its], row as [rk ri rl].
  unfold anchored, is_open, pushed, flushed, _TableRow.is_empty, candidate.
  simpl.
  destruct rk as [k'|], ri as [i|], key as [k|]; simpl;
    try discriminate;
    try (destruct (Receipt.datetime _); simpl);
    intros _;
    try (left; reflexivity);
    right; left; discriminate.
Qed.

Lemma pushed_open self row rest :
  attached (is_open self) (row :: rest) = true ->
  attached (is_open self) [row] = true /\
  attached (is_open (pushed self row)) rest = true.
Proof.
  destruct self as [y m rs le be key its], row as [rk ri rl].
  unfold is_open, pushed, flushed, _TableRow.is_empty, candidate. simpl.
  destruct rk as [k'|], ri as [i|], key as [k|]; simpl;
    try discriminate;
    try (destruct (Receipt.datetime _); simpl);
    intros H; split; try reflexivity; exact H.
Qed.

Lemma fold_pushed_anchored rows :
  forall self,
    rows <> [] ->
    attached (is_open self) rows = true ->
    anchored (fold_left pushed rows self).
Proof.
  induction rows as [|row rows IH]; intros self Hne Ha; [congruence|].
  destruct (pushed_open _ _ _ Ha) as [H1 H2]. simpl.
  destruct rows as [|row' rows'].
  - simpl. apply pushed_anchored. exact H1.
  - apply IH; [discriminate | exact H2].
Qed.

Lemma pushed_key_valid self row :
  key_valid self ->
  match _TableRow.key row with
  | Some k => valid_key (_year self) (_month self) k = true
  | None => True
  end ->
  key_valid (pushed self row) /\
  _year (pushed self row) = _year self /\
  _month (pushed self row) = _month self.
Proof.
  destruct self as [y m rs le be key its], row as [rk ri rl].
  unfold key_valid, pushed, flushed, _TableRow.is_empty, candidate. simpl.
  intros Hk Hv.
  destruct rk as [k'|], ri as [i|], key as [k|]; simpl;
    try (destruct (Receipt.datetime _); simpl);
    (split; [|split; reflexivity]);
    intros k0 Hk0; inversion Hk0; subst; try exact Hv;
    apply Hk; reflexivity.
Qed.

Lemma fold_pushed_key_valid rows :
  forall self,
    key_valid self ->
    all_dates_valid (_year self) (_month self) rows = true ->
    key_valid (fold_left pushed rows self).
Proof.
  induction rows as [|row rows IH]; intros self Hk Hv; simpl.
  - exact Hk.
  - simpl in Hv. apply andb_true_iff in Hv. destruct Hv as [Hv1 Hv].
    assert (Hrow : match _TableRow.key row with
                   | Some k => valid_key (_year self) (_month self) k = true
                   | None => True
                   end).
    { destruct (_TableRow.key row); [exact Hv1 | exact I]. }
    destruct (pushed_key_valid self row Hk Hrow) as (Hk' & Hy & Hm).
    apply IH; [exact Hk'|]. rewrite Hy, Hm. exact Hv.
Qed.

Lemma for_each_push_returns rows :
  forall self tr,
    settled self ->
    key_valid self ->
    all_dates_valid (_year self) (_month self) rows = true ->
    itemful (need self) rows = true ->
    exists new,
      for_each push rows self tr =
        (Returned (fold_left pushed rows self), (tr ++ new)%list) /\
      settled (fold_left pushed rows self) /\
      need (fold_left pushed rows self) = false.
Proof.
  induction rows as [|row rows IH]; intros self tr Hs Hkv Hv Hi.
  - exists []. rewrite app_nil_r. simpl in *.
    split; [reflexivity|]. split; [exact Hs|].
    destruct (need self); [discriminate | reflexivity].
  - destruct (pushed_itemful _ _ _ Hi) as [Hi' Hc].
    destruct (push_returns self row tr Hs Hkv Hc) as (n1 & Hp).
    simpl in Hv. apply andb_true_iff in Hv. destruct Hv as [Hv1 Hv].
    assert (Hrow : match _TableRow.key row with
                   | Some k => valid_key (_year self) (_month self) k = true
                   | None => True
                   end).
    { destruct (_TableRow.key row); [exact Hv1 | exact I]. }
    destruct (pushed_key_valid self row Hkv Hrow) as (Hkv' & Hy & Hm).
    destruct (IH (pushed self row) (tr ++ n1)%list
                 (pushed_settled _ _ Hs Hc) Hkv')
      as (n2 & Hf & Hs' & Hn'); [rewrite Hy, Hm; exact Hv | exact Hi' |].
    exists (n1 ++ n2)%list. simpl.
    rewrite (bind_eq _ _ _ _ _ Hp), Hf, app_assoc.
    split; [reflexivity|]. split; assumption.
Qed.

Lemma result_returns self tr :
  settled self -> need self = false -> anchored self -> key_valid self ->
  exists new,
    result self tr = (Returned (_receipts (flushed self)), (tr ++ new)%list).
Proof.
  intros Hs Hn Ha Hk.
  destruct (push_receipt_returns self tr (settled_dated _ Hs)
                                 (need_false_ready _ Hn)
                                 (key_valid_fit _ Hk)) as (n1 & Hp).
  pose proof (flushed_settled _ Hs Hn) as Hf.
  unfold result. rewrite (bind_eq _ _ _ _ _ Hp).
  destruct (flushed_fields self) as (_ & _ & Hle & _ & _ & Hsame).
  destruct (_is_last_empty (flushed self)) eqn:Ele; simpl.
  - exists n1. reflexivity.
  - assert (Hne : _receipts (flushed self) <> []).
    { rewrite Hle in Ele. destruct Ha as [Ha|[Ha|Ha]]; [congruence| |].
      - unfold flushed. destruct (_table_key self) as [k|] eqn:Ek; [|congruence].
        pose proof (valid_key_datetime _ _ k (_table_items self) (Hk k Ek)) as Hd.
        unfold candidate.
        destruct (Receipt.datetime _); [|congruence]. simpl.
        intros H. apply app_eq_nil in H. destruct H as [_ H]. discriminate.
      - unfold flushed. destruct (_table_key self) as [k|]; [|exact Ha].
        destruct (Receipt.datetime _); simpl; [|exact Ha].
        intros H. apply app_eq_nil in H. destruct H as [_ H]. discriminate. }
    destruct (index_last_some _ Hne) as (last & Hlast & Hin).
    unfold settled in Hf. rewrite Forall_forall in Hf.
    destruct (Hf _ Hin) as [_ Hitems].
    destruct (last_position_message_items last (tr ++ n1)%list Hitems)
      as (msg & Hmsg).
    unfold bind at 1. unfold bind at 1. unfold bind at 1.
    rewrite Hlast. simpl. rewrite Hmsg. simpl.
    eexists. rewrite <- app_assoc. reflexivity.
Qed.

Lemma run_returns year month rows tr :
  all_dates_valid year month rows = true ->
  attached false rows = true ->
  itemful false rows = true ->
  rows <> [] ->
  exists new,
    run year month rows tr =
      (Returned (spec_receipts year month rows), (tr ++ new)%list).
Proof.
  intros Hv Ha Hi Hne.
  destruct (for_each_push_returns rows (init year month) tr)
    as (n1 & Hf & Hs & Hn);
    [constructor | intros k H; discriminate | exact Hv | exact Hi |].
  destruct (result_returns (fold_left pushed rows (init year month))
                           (tr ++ n1)%list Hs Hn) as (n2 & Hr).
  - apply fold_pushed_anchored; [exact Hne | exact Ha].
  - apply fold_pushed_key_valid; [intros k H; discriminate | exact Hv].
  - exists (n1 ++ n2)%list. unfold run.
    rewrite (bind_eq _ _ _ _ _ Hf), Hr, app_assoc.
    rewrite (fold_pushed_receipts year month rows); simpl;
      try assumption; try reflexivity.
    discriminate.
Qed.

(** ** The flags and the pending key after a run of rows *)

Lemma pushed_shape self row :
  _year (pushed self row) = _year self /\
  _month (pushed self row) = _month self /\
  _is_last_empty (pushed self row) = _TableRow.is_empty row /\
  (_TableRow.is_empty row = true -> _table_key (pushed self row) = None).
Proof.
  destruct self as [y m rs le be key its], row as [rk ri rl].
  unfold pushed, flushed, _TableRow.is_empty, candidate. simpl.
  destruct rk as [k'|], ri as [i|], key as [k|]; simpl;
    try (destruct (Receipt.datetime _); simpl);
    repeat split; try reflexivity; intros H; try discriminate H.
Qed.

Lemma fold_pushed_shape year month rows :
  _year (fold_left pushed rows (init year month)) = year /\
  _month (fold_left pushed rows (init year month)) = month /\
  _is_last_empty (fold_left pushed rows (init year month)) =
    match index_last rows with
    | Some row => _TableRow.is_empty row
    | None => false
    end /\
  (_is_last_empty (fold_left pushed rows (init year month)) = true ->
   _table_key (fold_left pushed rows (init year month)) = None).
Proof.
  induction rows as [|row rows IH] using rev_ind.
  - simpl. repeat split; try reflexivity; discriminate.
  - destruct IH as (Hy & Hm & _ & _).
    destruct (pushed_shape (fold_left pushed rows (init year month)) row)
      as (Py & Pm & Pl & Pk).
    unfold index_last. rewrite rev_app_distr, fold_left_app. simpl.
    split; [congruence|]. split; [congruence|]. split; [exact Pl|].
    intros H. apply Pk. congruence.
Qed.

Lemma blank_before_last year month rows :
  _is_last_empty (fold_left pushed rows (init year month)) = blank_before rows.
Proof.
  destruct (fold_pushed_shape year month rows) as (_ & _ & H & _). exact H.
Qed.

Lemma pushed_key_row self row k :
  _TableRow.key row = Some k ->
  _table_key (pushed self row) = Some k /\
  _is_before_key_empty (pushed self row) = _is_last_empty self /\
  _receipts (pushed self row) = _receipts (flushed self) /\
  (_TableRow.item row <> None -> _table_items (pushed self row) <> []).
Proof.
  intros Hk. destruct (flushed_fields self) as (_ & _ & Hle & _).
  unfold pushed, _TableRow.is_empty. rewrite Hk.
  destruct (_TableRow.item row) as [i|]; simpl; rewrite Hle;
    repeat split; try congruence.
  intros _ H. apply app_eq_nil in H. destruct H as [_ H]. discriminate H.
Qed.

Lemma pushed_continues self row k :
  continues row ->
  _table_key self = Some k ->
  _table_key (pushed self row) = Some k /\
  _is_before_key_empty (pushed self row) = _is_before_key_empty self /\
  _receipts (pushed self row) = _receipts self /\
  _table_items (pushed self row) <> [].
Proof.
  intros [Hk Hi] Hs. unfold pushed, _TableRow.is_empty. rewrite Hk.
  destruct (_TableRow.item row) as [i|]; [|congruence]. simpl.
  repeat split; try assumption.
  intros H. apply app_eq_nil in H. destruct H as [_ H]. discriminate H.
Qed.

Lemma fold_pushed_continues body :
  forall self k,
    Forall continues body ->
    _table_key self = Some k ->
    _table_key (fold_left pushed body self) = Some k /\
    _is_before_key_empty (fold_left pushed body self)
      = _is_before_key_empty self /\
    _receipts (fold_left pushed body self) = _receipts self /\
    (_table_items self <> [] \/ body <> [] ->
     _table_items (fold_left pushed body self) <> []).
Proof.
  induction body as [|row body IH]; intros self k Hb Hk; simpl.
  - repeat split; try assumption. intros [H|H]; [exact H | congruence].
  - inversion Hb as [|? ? Hrow Hrest]; subst.
    destruct (pushed_continues self row k Hrow Hk) as (P1 & P2 & P3 & P4).
    destruct (IH (pushed self row) k Hrest P1) as (Q1 & Q2 & Q3 & Q4).
    split; [exact Q1|]. split; [congruence|]. split; [congruence|].
    intros _. apply Q4. left. exact P4.
Qed.

(* ================================================================== *)
(** * The chronological order and the stable sort *)
(* ================================================================== *)

Ltac dt_props :=
  unfold DateTime.leb, DateTime.gtb, DateTime.ltb, DateTime.eqb in *;
  simpl in *;
  repeat match goal with
  | H : _ = false |- _ => apply not_true_iff_false in H
  | |- _ = false => apply not_true_iff_false
  end;
  rewrite ?negb_true_iff, <- ?not_true_iff_false,
    ?orb_true_iff, ?andb_true_iff, ?Z.ltb_lt, ?Z.eqb_eq in *.

Lemma dt_ltb_asym a b : DateTime.ltb a b = true -> DateTime.ltb b a = false.
Proof. destruct a, b. intros H. dt_props. lia. Qed.

Lemma dt_ltb_leb a b : DateTime.ltb a b = true -> DateTime.leb a b = true.
Proof.
  intros H. unfold DateTime.leb. rewrite (dt_ltb_asym _ _ H). reflexivity.
Qed.

Lemma dt_leb_trans a b c :
  DateTime.leb a b = true -> DateTime.leb b c = true -> DateTime.leb a c = true.
Proof. destruct a, b, c. intros H1 H2. dt_props. lia. Qed.

Lemma dt_eqb_not_ltb a b t :
  DateTime.eqb a t = true -> DateTime.eqb b t = true -> DateTime.ltb a b = false.
Proof. destruct a, b, t. intros H1 H2. dt_props. lia. Qed.

Section Keyed.
Context {A : Type}.
Implicit Types (x y : DateTime.t * A) (l : list (DateTime.t * A)).

Lemma insert_keyed_perm x l : Permutation (x :: l) (insert_keyed x l).
Proof.
  induction l as [|y l IH]; simpl.
  - apply Permutation_refl.
  - destruct (DateTime.ltb (fst y) (fst x)).
    + eapply perm_trans; [apply perm_swap|]. apply perm_skip. exact IH.
    + apply Permutation_refl.
Qed.

Lemma sort_keyed_perm l : Permutation l (sort_keyed l).
Proof.
  induction l as [|x l IH]; simpl.
  - apply perm_nil.
  - eapply perm_trans; [apply perm_skip; exact IH|]. apply insert_keyed_perm.
Qed.

Lemma insert_keyed_sorted x l :
  StronglySorted key_le l -> StronglySorted key_le (insert_keyed x l).
Proof.
  induction l as [|y l IH]; intros Hs; simpl.
  - constructor; constructor.
  - inversion Hs as [|? ? Hl Hy]; subst.
    destruct (DateTime.ltb (fst y) (fst x)) eqn:E.
    + constructor; [apply IH; exact Hl|].
      apply (Permutation_Forall (insert_keyed_perm x l)).
      constructor; [|exact Hy]. apply dt_ltb_leb. exact E.
    + assert (Hxy : key_le x y) by (unfold key_le, DateTime.leb; rewrite E; reflexivity).
      constructor; [exact Hs|].
      constructor; [exact Hxy|].
      eapply Forall_impl; [|exact Hy].
      intros z Hz. unfold key_le in *. eapply dt_leb_trans; eassumption.
Qed.

Lemma sort_keyed_sorted l : StronglySorted key_le (sort_keyed l).
Proof.
  induction l as [|x l IH]; simpl.
  - constructor.
  - apply insert_keyed_sorted. exact IH.
Qed.

Lemma insert_keyed_filter t x l :
  filter (key_is t) (insert_keyed x l) = filter (key_is t) (x :: l).
Proof.
  induction l as [|y l IH]; simpl.
  - reflexivity.
  - destruct (DateTime.ltb (fst y) (fst x)) eqn:E; [|reflexivity].
    simpl. rewrite IH. simpl. unfold key_is.
    destruct (DateTime.eqb (fst y) t) eqn:Ey, (DateTime.eqb (fst x) t) eqn:Ex;
      try reflexivity.
    rewrite (dt_eqb_not_ltb _ _ _ Ey Ex) in E. discriminate E.
Qed.

Lemma sort_keyed_filter t l :
  filter (key_is t) (sort_keyed l) = filter (key_is t) l.
Proof.
  induction l as [|x l IH]; simpl.
  - reflexivity.
  - rewrite insert_keyed_filter. simpl. rewrite IH. reflexivity.
Qed.
End Keyed.

Lemma keyed_spec rs l :
  keyed rs = Some l -> map snd l = rs /\ Forall key_of_receipt l.
Proof.
  revert l. induction rs as [|r rs IH]; intros l H; simpl in H.
  - inversion H. split; constructor.
  - destruct (Receipt.datetime r) as [dt|] eqn:E; [|discriminate].
    destruct (keyed rs) as [l'|]; [|discriminate].
    inversion H; subst. destruct (IH _ eq_refl) as [H1 H2].
    split; simpl; [rewrite H1; reflexivity|].
    constructor; [exact E | exact H2].
Qed.

Lemma keyed_total year month rs :
  Forall (well_dated year month) rs -> exists l, keyed rs = Some l.
Proof.
  induction 1 as [|r rs (_ & _ & Hr) _ [l IH]]; simpl.
  - eexists. reflexivity.
  - destruct (Receipt.datetime r); [|congruence].
    rewrite IH. eexists. reflexivity.
Qed.

Lemma filter_at_time t l :
  Forall key_of_receipt l ->
  filter (at_time t) (map snd l) = map snd (filter (key_is t) l).
Proof.
  induction 1 as [|p l Hp _ IH]; simpl.
  - reflexivity.
  - unfold at_time at 1, key_is at 1. rewrite Hp.
    destruct (DateTime.eqb (fst p) t); simpl; rewrite IH; reflexivity.
Qed.

Lemma chronological_map l :
  Forall key_of_receipt l -> StronglySorted key_le l ->
  StronglySorted chronological (map snd l).
Proof.
  induction 1 as [|p l Hp Hl IH]; intros Hs; simpl.
  - constructor.
  - inversion Hs as [|? ? Hs' Hall]; subst.
    constructor; [apply IH; exact Hs'|].
    rewrite Forall_map. rewrite Forall_forall in *.
    intros q Hq. unfold chronological.
    rewrite Hp, (Hl q Hq). exact (Hall q Hq).
Qed.

Lemma sort_by_datetime_returned rs tr out tr' :
  sort_by_datetime rs tr = (Returned out, tr') ->
  tr' = tr /\ Permutation rs out /\ StronglySorted chronological out /\
  forall t, filter (at_time t) out = filter (at_time t) rs.
Proof.
  unfold sort_by_datetime. intros H. returns. subst.
  match goal with F : keyed _ = Some _ |- _ =>
    destruct (keyed_spec _ _ F) as [Hm Hk] end.
  assert (Hk' : Forall key_of_receipt (sort_keyed x)).
  { apply (Permutation_Forall (sort_keyed_perm x)). exact Hk. }
  split; [reflexivity|]. split; [|split].
  - rewrite <- Hm. apply Permutation_map. apply sort_keyed_perm.
  - apply chronological_map; [exact Hk'|]. apply sort_keyed_sorted.
  - intros t. rewrite <- Hm, !filter_at_time by assumption.
    rewrite sort_keyed_filter. reflexivity.
Qed.

(* ================================================================== *)
(** * The matcher against the declarative semantics *)
(* ================================================================== *)

Lemma str_app_assoc (a b c : string) : (a ++ b) ++ c = a ++ (b ++ c).
Proof. induction a as [|x a IH]; simpl; [reflexivity | rewrite IH; reflexivity]. Qed.

Lemma str_app_nil_r (a : string) : a ++ "" = a.
Proof. induction a as [|x a IH]; simpl; [reflexivity | rewrite IH; reflexivity]. Qed.

Lemma str_length_app (a b : string) :
  String.length (a ++ b) = (String.length a + String.length b)%nat.
Proof. induction a as [|x a IH]; simpl; [reflexivity | rewrite IH; reflexivity]. Qed.

Lemma substring_prefix (w s : string) :
  substring 0 (String.length w) (w ++ s) = w.
Proof.
  induction w as [|x w IH]; simpl.
  - destruct s; reflexivity.
  - rewrite IH. reflexivity.
Qed.

Lemma taken_app (w s : string) : taken (w ++ s) s = w.
Proof.
  unfold taken. rewrite str_length_app.
  replace (String.length w + String.length s - String.length s)%nat
    with (String.length w) by lia.
  apply substring_prefix.
Qed.


Section Soundness.
Context {R : Type}.

Lemma star_sound p s (k : string -> option R) res :
  star p s k = Some res ->
  exists w s', s = w ++ s' /\ all_chars p w = true /\ k s' = Some res.
Proof.
  induction s as [|c s IH]; simpl; intros H.
  - exists "", "". repeat split. exact H.
  - destruct (p c) eqn:Ec.
    + destruct (star p s k) as [r|] eqn:Es.
      * inversion H; subst. destruct (IH eq_refl) as (w & s' & -> & Hw & Hk).
        exists (String c w), s'. simpl. rewrite Ec, Hw. repeat split. exact Hk.
      * exists "", (String c s). repeat split. exact H.
    + exists "", (String c s). repeat split. exact H.
Qed.

Lemma plus_sound p s (k : string -> option R) res :
  plus p s k = Some res ->
  exists w s', s = w ++ s' /\ w <> "" /\ all_chars p w = true /\ k s' = Some res.
Proof.
  destruct s as [|c s]; simpl; [discriminate|].
  destruct (p c) eqn:Ec; [|discriminate].
  intros H. destruct (star_sound _ _ _ _ H) as (w & s' & -> & Hw & Hk).
  exists (String c w), s'. simpl. rewrite Ec, Hw.
  repeat split; [discriminate | exact Hk].
Qed.

Lemma exec_sound r :
  forall s g (k : string -> captures -> option R) res,
    exec r s g k = Some res ->
    exists w s' g', s = w ++ s' /\ matches r w g g' /\ k s' g' = Some res.
Proof.
  induction r as [c|p|a IHa b IHb|a IHa b IHb|p|a IHa|n a IHa|n a IHa];
    intros s g k res H.
  - (* Chr *)
    simpl in H. destruct s as [|c' s]; [discriminate|].
    destruct (Ascii.eqb c c') eqn:E; [|discriminate].
    apply Ascii.eqb_eq in E. subst c'.
    exists (String c ""), s, g. repeat split; [constructor | exact H].
  - (* Cls *)
    simpl in H. destruct s as [|c' s]; [discriminate|].
    destruct (p c') eqn:E; [|discriminate].
    exists (String c' ""), s, g. repeat split; [constructor; exact E | exact H].
  - (* Cat *)
    simpl in H.
    destruct (IHa _ _ _ _ H) as (w1 & s1 & g1 & -> & Ha & H1).
    destruct (IHb _ _ _ _ H1) as (w2 & s2 & g2 & -> & Hb & H2).
    exists (w1 ++ w2), s2, g2. rewrite str_app_assoc.
    repeat split; [econstructor; eassumption | exact H2].
  - (* Alt *)
    simpl in H. destruct (exec a s g k) as [x|] eqn:E.
    + inversion H; subst.
      destruct (IHa _ _ _ _ E) as (w & s' & g' & -> & Ha & Hk).
      exists w, s', g'. repeat split; [apply m_alt_l; exact Ha | exact Hk].
    + destruct (IHb _ _ _ _ H) as (w & s' & g' & -> & Hb & Hk).
      exists w, s', g'. repeat split; [apply m_alt_r; exact Hb | exact Hk].
  - (* Plus *)
    simpl in H.
    destruct (plus_sound _ _ _ _ H) as (w & s' & -> & Hne & Hw & Hk).
    exists w, s', g. repeat split; [constructor; assumption | exact Hk].
  - (* Opt *)
    simpl in H. destruct (exec a s g k) as [x|] eqn:E.
    + inversion H; subst.
      destruct (IHa _ _ _ _ E) as (w & s' & g' & -> & Ha & Hk).
      exists w, s', g'. repeat split; [apply m_opt_some; exact Ha | exact Hk].
    + exists "", s, g. repeat split; [apply m_opt_none | exact H].
  - (* Rep *)
    simpl in H. revert s g H.
    induction n as [|n IHn]; intros s g H.
    + exists "", s, g. repeat split; [apply m_rep_O | exact H].
    + destruct (IHa _ _ _ _ H) as (w1 & s1 & g1 & -> & Ha & H1).
      destruct (IHn _ _ H1) as (w2 & s2 & g2 & -> & Hb & H2).
      exists (w1 ++ w2), s2, g2. rewrite str_app_assoc.
      repeat split; [econstructor; eassumption | exact H2].
  - (* Grp *)
    simpl in H.
    destruct (IHa _ _ _ _ H) as (w & s' & g' & -> & Ha & Hk).
    rewrite taken_app in Hk.
    exists w, s', (set n w g'). repeat split; [constructor; exact Ha | exact Hk].
Qed.
End Soundness.

Lemma re_match_sound r s g :
  re_match r s = Some g ->
  exists w rest, s = w ++ rest /\ matches r w no_captures g.
Proof.
  unfold re_match. intros H.
  destruct (exec_sound r _ _ _ _ H) as (w & s' & g' & -> & Hm & Hk).
  inversion Hk; subst. exists w, s'. split; [reflexivity | exact Hm].
Qed.

(** ** From a match of the row pattern to the row grammar *)

Ltac inv_matches :=
  repeat match goal with
  | H : matches (Cat _ _) _ _ _ |- _ => inversion H; subst; clear H
  | H : matches (Chr _) _ _ _ |- _ => inversion H; subst; clear H
  | H : matches (Cls _) _ _ _ |- _ => inversion H; subst; clear H
  | H : matches (Grp _ _) _ _ _ |- _ => inversion H; subst; clear H
  | H : matches (Plus _) _ _ _ |- _ => inversion H; subst; clear H
  | H : matches (Opt _) _ _ _ |- _ => inversion H; subst; clear H
  | H : matches (Rep _ _) _ _ _ |- _ => inversion H; subst; clear H
  end.

Lemma three_bars_word w g g' :
  matches three_bars w g g' -> w = "|||" /\ g' = g.
Proof.
  unfold three_bars, bar. intros H. inv_matches. split; reflexivity.
Qed.

Lemma key_cells_word w g g' :
  matches key_cells w g g' ->
  exists d h m st,
    key_group w (Some (d, h, m, st)) /\
    g' = set Gstore st (set Gminute m (set Ghour h (set Gday d g))).
Proof.
  unfold key_cells, sequence, bar. intros H. inv_matches.
  match goal with
  | |- exists d h m st, key_group (_ ++ ?d' ++ _ ++ ?h' ++ _ ++ ?m' ++ _ ++ ?st') _ /\ _ =>
      exists d', h', m', st'
  end.
  split; [|reflexivity].
  apply key_real; unfold numeral, two_digits, cell_text; simpl;
    repeat split; try assumption;
    repeat match goal with H : _ = true |- _ => rewrite H end; reflexivity.
Qed.

Lemma item_cells_word w g g' :
  matches item_cells w g g' ->
  exists n p,
    item_group w (Some (n, p)) /\ g' = set Gprice p (set Gitem n g).
Proof.
  unfold item_cells, sequence, bar. intros H. inv_matches.
  - match goal with
    | |- exists n p, item_group (_ ++ ?n' ++ _ ++ ?p' ++ _) _ /\ _ =>
        exists n', p'
    end.
    split; [|reflexivity].
    apply item_real; [split; assumption|].
    right. eexists. split; [reflexivity|]. split; assumption.
  - match goal with
    | |- exists n p, item_group (_ ++ ?n' ++ _ ++ ?p' ++ _) _ /\ _ =>
        exists n', p'
    end.
    split; [|reflexivity].
    apply item_real; [split; assumption|].
    left. split; assumption.
Qed.

Lemma row_pattern_word w g :
  matches row_pattern w no_captures g ->
  exists kc ic, row_shape w kc ic /\ g = captures_of kc ic.
Proof.
  unfold row_pattern. intros H.
  inversion H as [| |a b w1 w2 g0 g1 g2 Hk Hi| | | | | | | |]; subst; clear H.
  assert (Hkey : exists kc, key_group w1 kc /\ g1 = captures_of kc None).
  { inversion Hk; subst.
    - match goal with F : matches key_cells _ _ _ |- _ =>
        destruct (key_cells_word _ _ _ F) as (d & h & m & st & Hg & ->) end.
      exists (Some (d, h, m, st)). split; [exact Hg | reflexivity].
    - match goal with F : matches three_bars _ _ _ |- _ =>
        destruct (three_bars_word _ _ _ F) as [-> ->] end.
      exists None. split; [constructor | reflexivity]. }
  destruct Hkey as (kc & Hkc & ->).
  inversion Hi; subst.
  - match goal with F : matches item_cells _ _ _ |- _ =>
      destruct (item_cells_word _ _ _ F) as (n & p & Hg & ->) end.
    exists kc, (Some (n, p)). split; [exists w1, w2; auto|].
    destruct kc as [[[[d h] m] st]|]; reflexivity.
  - match goal with F : matches three_bars _ _ _ |- _ =>
      destruct (three_bars_word _ _ _ F) as [-> ->] end.
    exists kc, None. split; [exists w1, "|||"; split; [reflexivity|]; split;
      [exact Hkc | constructor]|].
    reflexivity.
Qed.

(** ** From the row grammar to a match of the row pattern *)

Section Completeness.
Context {R : Type}.
Implicit Types (k : string -> captures -> option R).

Lemma exec_cat a b s g k :
  exec (Cat a b) s g k = exec a s g (fun s' g' => exec b s' g' k).
Proof. reflexivity. Qed.

Lemma exec_chr c s g k : exec (Chr c) (String c s) g k = k s g.
Proof. simpl. rewrite Ascii.eqb_refl. reflexivity. Qed.

Lemma exec_alt_l a b s g k x :
  exec a s g k = Some x -> exec (Alt a b) s g k = Some x.
Proof. simpl. intros ->. reflexivity. Qed.

Lemma exec_alt_r a b s g k :
  exec a s g k = None -> exec (Alt a b) s g k = exec b s g k.
Proof. simpl. intros ->. reflexivity. Qed.

Lemma star_greedy p w tail (f : string -> option R) x :
  all_chars p w = true -> stops p tail = true -> f tail = Some x ->
  star p (w ++ tail) f = Some x.
Proof.
  intros Hw Hs Hf. induction w as [|c w IH]; simpl in *.
  - destruct tail as [|c tail]; [exact Hf|].
    simpl in Hs. apply negb_true_iff in Hs. simpl. rewrite Hs. exact Hf.
  - apply andb_true_iff in Hw. destruct Hw as [Hc Hw].
    rewrite Hc, (IH Hw). reflexivity.
Qed.

Lemma plus_greedy p w tail (f : string -> option R) x :
  w <> "" -> all_chars p w = true -> stops p tail = true -> f tail = Some x ->
  plus p (w ++ tail) f = Some x.
Proof.
  intros Hne Hw Hs Hf. destruct w as [|c w]; [congruence|].
  simpl in *. apply andb_true_iff in Hw. destruct Hw as [Hc Hw].
  rewrite Hc. apply star_greedy; assumption.
Qed.

Lemma exec_grp_plus n p w tail g k x :
  w <> "" -> all_chars p w = true -> stops p tail = true ->
  k tail (set n w g) = Some x ->
  exec (Grp n (Plus p)) (w ++ tail) g k = Some x.
Proof.
  intros Hne Hw Hs Hk. simpl.
  apply plus_greedy; try assumption. rewrite taken_app. exact Hk.
Qed.

Lemma exec_grp_two_digits n h tail g k :
  two_digits h ->
  exec (Grp n (Rep 2 (Cls is_digit))) (h ++ tail) g k = k tail (set n h g).
Proof.
  intros [Hl Hd].
  destruct h as [|c1 [|c2 [|c3 h]]]; try discriminate.
  simpl in Hd. apply andb_true_iff in Hd. destruct Hd as [H1 Hd].
  apply andb_true_iff in Hd. destruct Hd as [H2 _].
  change (String c1 (String c2 "") ++ tail) with (String c1 (String c2 tail)).
  simpl. rewrite H1, H2.
  change (String c1 (String c2 tail)) with (String c1 (String c2 "") ++ tail).
  rewrite taken_app. reflexivity.
Qed.

Lemma digit_not_minus c : is_digit c = true -> Ascii.eqb "-" c = false.
Proof.
  intros H. destruct (Ascii.eqb "-" c) eqn:E; [|reflexivity].
  apply Ascii.eqb_eq in E. subst c. discriminate H.
Qed.

Lemma exec_grp n a s g k :
  exec (Grp n a) s g k = exec a s g (fun s' g' => k s' (set n (taken s s') g')).
Proof. reflexivity. Qed.

Lemma exec_opt a s g k :
  exec (Opt a) s g k =
  match exec a s g k with Some x => Some x | None => k s g end.
Proof. reflexivity. Qed.

Lemma exec_plus p s g k : exec (Plus p) s g k = plus p s (fun s' => k s' g).
Proof. reflexivity. Qed.

Lemma exec_chr_cons c c' s g k :
  exec (Chr c) (String c' s) g k = if Ascii.eqb c c' then k s g else None.
Proof. reflexivity. Qed.

Lemma exec_price n p tail g k x :
  signed_numeral p -> stops is_digit tail = true ->
  k tail (set n p g) = Some x ->
  exec (Grp n (Cat (Opt (Chr "-")) (Plus is_digit))) (p ++ tail) g k = Some x.
Proof.
  intros [[Hne Hd] | (d & -> & Hne & Hd)] Hs Hk.
  - rewrite exec_grp, exec_cat, exec_opt.
    destruct p as [|c p]; [congruence|].
    assert (Hc : is_digit c = true).
    { simpl in Hd. apply andb_true_iff in Hd. apply Hd. }
    change (String c p ++ tail) with (String c (p ++ tail)) at 1.
    rewrite exec_chr_cons, (digit_not_minus _ Hc), exec_plus.
    apply plus_greedy; try assumption. rewrite taken_app. exact Hk.
  - rewrite exec_grp, exec_cat, exec_opt.
    change (String "-" d ++ tail) with (String "-" (d ++ tail)) at 1.
    rewrite exec_chr, exec_plus.
    assert (Hplus : plus is_digit (d ++ tail)
                      (fun s' => k s' (set n (taken (String "-" d ++ tail) s') g))
                    = Some x).
    { apply plus_greedy; try assumption. rewrite taken_app. exact Hk. }
    rewrite Hplus. reflexivity.
Qed.
End Completeness.

Section RowPattern.
Context {R : Type}.
Implicit Types (k : string -> captures -> option R).

Lemma key_text_app d h m st tail :
  ("|" ++ d ++ "|" ++ h ++ ":" ++ m ++ "|" ++ st) ++ tail =
  String "|" (d ++ String "|" (h ++ String ":" (m ++ String "|" (st ++ tail)))).
Proof.
  simpl. rewrite str_app_assoc. simpl. rewrite str_app_assoc. simpl.
  rewrite str_app_assoc. reflexivity.
Qed.

Lemma item_text_app n p tail :
  ("|" ++ n ++ "|" ++ p ++ "|") ++ tail =
  String "|" (n ++ String "|" (p ++ String "|" tail)).
Proof.
  simpl. rewrite str_app_assoc. simpl. rewrite str_app_assoc. reflexivity.
Qed.

Lemma exec_key_cells d h m st tail g k x :
  numeral d -> two_digits h -> two_digits m -> cell_text st ->
  stops not_pipe tail = true ->
  k tail (set Gstore st (set Gminute m (set Ghour h (set Gday d g)))) = Some x ->
  exec key_cells (("|" ++ d ++ "|" ++ h ++ ":" ++ m ++ "|" ++ st) ++ tail) g k
  = Some x.
Proof.
  intros [Hd1 Hd2] Hh Hm [Hs1 Hs2] Ht Hk.
  rewrite key_text_app. unfold key_cells, sequence, bar.
  rewrite exec_cat, exec_chr, exec_cat.
  apply exec_grp_plus; try assumption; [reflexivity|].
  rewrite exec_cat, exec_chr, exec_cat, (exec_grp_two_digits _ _ _ _ _ Hh).
  rewrite exec_cat, exec_chr, exec_cat, (exec_grp_two_digits _ _ _ _ _ Hm).
  rewrite exec_cat, exec_chr.
  apply exec_grp_plus; assumption.
Qed.

Lemma exec_item_cells n p tail g k x :
  cell_text n -> signed_numeral p ->
  k tail (set Gprice p (set Gitem n g)) = Some x ->
  exec item_cells (("|" ++ n ++ "|" ++ p ++ "|") ++ tail) g k = Some x.
Proof.
  intros [Hn1 Hn2] Hp Hk.
  rewrite item_text_app. unfold item_cells, sequence, bar.
  rewrite exec_cat, exec_chr, exec_cat.
  apply exec_grp_plus; try assumption; [reflexivity|].
  rewrite exec_cat, exec_chr, exec_cat.
  apply exec_price; [assumption | reflexivity|].
  rewrite exec_chr. exact Hk.
Qed.

Lemma exec_three_bars tail g k : exec three_bars ("|||" ++ tail) g k = k tail g.
Proof. reflexivity. Qed.

Lemma exec_key_cells_bars tail g k : exec key_cells ("|||" ++ tail) g k = None.
Proof. reflexivity. Qed.

Lemma exec_item_cells_bars tail g k : exec item_cells ("|||" ++ tail) g k = None.
Proof. reflexivity. Qed.

Lemma exec_item_alt b ic tail g k x :
  item_group b ic ->
  c_item g = None -> c_price g = None ->
  k tail (mkCaptures (c_day g) (c_hour g) (c_minute g) (c_store g)
                     (option_map fst ic) (option_map snd ic)) = Some x ->
  exec (Alt item_cells three_bars) (b ++ tail) g k = Some x.
Proof.
  intros Hb Hi Hp' Hk. destruct Hb as [n p Hn Hp|].
  - apply exec_alt_l. apply exec_item_cells; assumption.
  - rewrite exec_alt_r by apply exec_item_cells_bars.
    rewrite exec_three_bars. destruct g. simpl in *. subst. exact Hk.
Qed.

Lemma item_group_starts_with_bar b ic tail :
  item_group b ic -> stops not_pipe (b ++ tail) = true.
Proof. intros [n p _ _|]; reflexivity. Qed.
End RowPattern.

Lemma re_match_complete w kc ic rest :
  row_shape w kc ic ->
  re_match row_pattern (w ++ rest) = Some (captures_of kc ic).
Proof.
  intros (a & b & -> & Ha & Hb). unfold re_match, row_pattern.
  rewrite str_app_assoc, exec_cat.
  destruct Ha as [d h m st Hd Hh Hm Hs|].
  - apply exec_alt_l. apply exec_key_cells; try assumption.
    + apply (item_group_starts_with_bar _ _ _ Hb).
    + apply (exec_item_alt _ _ _ _ _ _ Hb); reflexivity.
  - rewrite exec_alt_r by apply exec_key_cells_bars.
    rewrite exec_three_bars.
    apply (exec_item_alt _ _ _ _ _ _ Hb); reflexivity.
Qed.

Lemma re_match_row_shape text g :
  re_match row_pattern text = Some g ->
  exists w rest kc ic,
    text = w ++ rest /\ row_shape w kc ic /\ g = captures_of kc ic.
Proof.
  intros H. destruct (re_match_sound _ _ _ H) as (w & rest & -> & Hm).
  destruct (row_pattern_word _ _ Hm) as (kc & ic & Hs & ->).
  exists w, rest, kc, ic. repeat split. exact Hs.
Qed.

(* ================================================================== *)
(** * The line classifier *)
(* ================================================================== *)

Lemma digit_cases c (P : ascii -> Prop) :
  is_digit c = true ->
  P "0"%char -> P "1"%char -> P "2"%char -> P "3"%char -> P "4"%char ->
  P "5"%char -> P "6"%char -> P "7"%char -> P "8"%char -> P "9"%char ->
  P c.
Proof.
  intros Hc.
  destruct c as [[|] [|] [|] [|] [|] [|] [|] [|]];
    try (vm_compute in Hc; discriminate Hc); intros; assumption.
Qed.

Lemma digits_uint s :
  all_chars is_digit s = true ->
  exists u, NilEmpty.uint_of_string s = Some u.
Proof.
  induction s as [|c s IH]; simpl; intros H.
  - eexists. reflexivity.
  - apply andb_true_iff in H. destruct H as [Hc Hs].
    destruct (IH Hs) as [u Hu]. rewrite Hu.
    apply (digit_cases c (fun c => exists u', uint_of_char c (Some u) = Some u') Hc);
      eexists; reflexivity.
Qed.

(** ** The digit limit of [int] *)

Lemma count_digits_app a b :
  count_digits (a ++ b) = (count_digits a + count_digits b)%nat.
Proof.
  induction a as [|c a IH]; simpl; [reflexivity|].
  rewrite IH. apply Nat.add_assoc.
Qed.

Lemma count_digits_all s :
  all_chars is_digit s = true -> count_digits s = String.length s.
Proof.
  induction s as [|c s IH]; simpl; intros H; [reflexivity|].
  apply andb_true_iff in H. destruct H as [Hc Hs].
  rewrite Hc, (IH Hs). reflexivity.
Qed.

Lemma two_within_limit : (2 <= int_max_str_digits)%nat.
Proof. apply Nat.leb_le. vm_compute. reflexivity. Qed.

Lemma int_within s :
  within_limit s -> int s = option_map Z.of_int (NilZero.int_of_string s).
Proof.
  unfold within_limit, int. intros H.
  destruct (Nat.ltb_spec int_max_str_digits (count_digits s)) as [Hlt|_];
    [|reflexivity].
  destruct (Nat.lt_irrefl _ (Nat.le_lt_trans _ _ _ H Hlt)).
Qed.

Lemma int_beyond s : ~ within_limit s -> int s = None.
Proof.
  unfold within_limit, int. intros H.
  destruct (Nat.ltb_spec int_max_str_digits (count_digits s)) as [_|Hle];
    [reflexivity | contradiction].
Qed.

Lemma int_some_within s z : int s = Some z -> within_limit s.
Proof.
  intros H. destruct (Nat.le_gt_cases (count_digits s) int_max_str_digits)
    as [Hle|Hgt]; [exact Hle|].
  rewrite int_beyond in H; [discriminate H|].
  unfold within_limit. intros Hle.
  destruct (Nat.lt_irrefl _ (Nat.le_lt_trans _ _ _ Hle Hgt)).
Qed.

Lemma within_limit_dec s : within_limit s \/ ~ within_limit s.
Proof.
  unfold within_limit.
  destruct (Nat.le_gt_cases (count_digits s) int_max_str_digits) as [H|H];
    [left; exact H | right].
  intros Hle. destruct (Nat.lt_irrefl _ (Nat.le_lt_trans _ _ _ Hle H)).
Qed.

Lemma numeral_int s :
  numeral s -> within_limit s -> exists z, int s = Some z.
Proof.
  intros [Hne Hd] Hl. destruct s as [|c s]; [congruence|].
  destruct (digits_uint _ Hd) as [u Hu].
  assert (Hc : is_digit c = true)
    by (simpl in Hd; apply andb_true_iff in Hd; apply Hd).
  rewrite (int_within _ Hl).
  unfold NilZero.int_of_string, NilZero.uint_of_string.
  rewrite Ascii.eqb_sym, (digit_not_minus _ Hc), Hu. eexists. reflexivity.
Qed.

Lemma two_digits_numeral s : two_digits s -> numeral s.
Proof.
  intros [Hl Hd]. split; [|exact Hd]. intros ->. discriminate Hl.
Qed.

Lemma two_digits_within s : two_digits s -> within_limit s.
Proof.
  intros [Hl Hd]. unfold within_limit.
  rewrite (count_digits_all _ Hd), Hl. exact two_within_limit.
Qed.

Lemma two_digits_int s : two_digits s -> exists z, int s = Some z.
Proof.
  intros H. apply numeral_int;
    [apply two_digits_numeral | apply two_digits_within]; exact H.
Qed.

Lemma signed_numeral_int s :
  signed_numeral s -> within_limit s -> exists z, int s = Some z.
Proof.
  intros [H | (d & -> & Hne & Hd)] Hl; [apply numeral_int; assumption|].
  destruct (digits_uint _ Hd) as [u Hu].
  rewrite (int_within _ Hl).
  unfold NilZero.int_of_string, NilZero.uint_of_string.
  destruct d as [|c d]; [congruence|].
  rewrite Ascii.eqb_refl, Hu. eexists. reflexivity.
Qed.

(** The row that [parse_line] builds once the pattern has matched. *)
Lemma parse_line_of_shape line tr w rest kc ic :
  MonthlyReportLine.text line = w ++ rest ->
  row_shape w kc ic ->
  shape_within_limit kc ic ->
  exists row,
    _TableRow.parse_line line tr = (Returned (Some row), tr) /\
    row_reads (MonthlyReportLine.line_number line) kc ic row.
Proof.
  intros Ht Hs [Hld Hlp]. unfold _TableRow.parse_line.
  rewrite Ht, (re_match_complete _ _ _ rest Hs).
  destruct Hs as (a & b & _ & Ha & Hb).
  destruct Ha as [d h m st Hd Hh Hm Hst|];
    destruct Hb as [n p Hn Hp|]; simpl;
    try (destruct (numeral_int _ Hd Hld) as [zd Ed];
         destruct (two_digits_int _ Hh) as [zh Eh];
         destruct (two_digits_int _ Hm) as [zm Em]);
    try (destruct (signed_numeral_int _ Hp Hlp) as [zp Ep]);
    unfold _TableRow.int_group, bind, lift, ret; simpl;
    rewrite ?Ed, ?Eh, ?Em, ?Ep; simpl;
    eexists; (split; [reflexivity|]);
    unfold row_reads, key_reads, item_reads; simpl; repeat split; assumption.
Qed.

(** A numeral beyond the digit limit in the front of the line makes
    [int] raise. *)
Lemma parse_line_beyond_limit line tr w rest kc ic :
  MonthlyReportLine.text line = w ++ rest ->
  row_shape w kc ic ->
  ~ shape_within_limit kc ic ->
  _TableRow.parse_line line tr = (Raised ValueError, tr).
Proof.
  intros Ht Hs Hno. unfold _TableRow.parse_line.
  rewrite Ht, (re_match_complete _ _ _ rest Hs).
  destruct Hs as (a & b & _ & Ha & Hb).
  unfold shape_within_limit in Hno.
  destruct Ha as [d h m st Hd Hh Hm Hst|];
    destruct Hb as [n p Hn Hp|]; simpl;
    unfold _TableRow.int_group, bind, lift, ret, raise; simpl.
  - destruct (within_limit_dec d) as [Hld|Hld];
      [|rewrite (int_beyond _ Hld); reflexivity].
    destruct (numeral_int _ Hd Hld) as [zd ->].
    destruct (two_digits_int _ Hh) as [zh ->].
    destruct (two_digits_int _ Hm) as [zm ->]. simpl.
    rewrite int_beyond; [reflexivity|]. intros Hlp. apply Hno. split; assumption.
  - rewrite int_beyond; [reflexivity|]. intros Hld. apply Hno. split; [exact Hld | exact I].
  - rewrite int_beyond; [reflexivity|]. intros Hlp. apply Hno. split; [exact I | exact Hlp].
  - destruct Hno. split; exact I.
Qed.

Lemma shape_within_limit_dec kc ic :
  shape_within_limit kc ic \/ ~ shape_within_limit kc ic.
Proof.
  unfold shape_within_limit.
  destruct kc as [[[[d h] m] st]|], ic as [[n p]|];
    try (destruct (within_limit_dec d) as [Hd|Hd]);
    try (destruct (within_limit_dec p) as [Hp|Hp]);
    try (left; split; (assumption || exact I));
    right; intros [H1 H2]; contradiction.
Qed.

Lemma row_reads_within n kc ic row :
  row_reads n kc ic row -> shape_within_limit kc ic.
Proof.
  intros (_ & Hk & Hi). unfold key_reads, item_reads in *. split.
  - destruct kc as [[[[d h] m] st]|]; [|exact I].
    destruct (_TableRow.key row); [|destruct Hk].
    destruct Hk as (Hd & _). apply (int_some_within _ _ Hd).
  - destruct ic as [[nm p]|]; [|exact I].
    destruct (_TableRow.item row); [|destruct Hi].
    destruct Hi as (_ & Hp & _). apply (int_some_within _ _ Hp).
Qed.

(** The three outcomes of the classifier on a line. *)
Lemma parse_line_cases line tr :
  (exists w rest kc ic row,
      MonthlyReportLine.text line = w ++ rest /\ row_shape w kc ic /\
      shape_within_limit kc ic /\
      _TableRow.parse_line line tr = (Returned (Some row), tr) /\
      row_reads (MonthlyReportLine.line_number line) kc ic row) \/
  (exists w rest kc ic,
      MonthlyReportLine.text line = w ++ rest /\ row_shape w kc ic /\
      ~ shape_within_limit kc ic /\
      _TableRow.parse_line line tr = (Raised ValueError, tr)) \/
  ((forall w rest kc ic,
       MonthlyReportLine.text line = w ++ rest -> ~ row_shape w kc ic) /\
   _TableRow.parse_line line tr =
     (Returned None, (tr ++ [failed_to_parse line])%list)).
Proof.
  destruct (re_match row_pattern (MonthlyReportLine.text line)) as [g|] eqn:E.
  - destruct (re_match_row_shape _ _ E) as (w & rest & kc & ic & Ht & Hs & _).
    destruct (shape_within_limit_dec kc ic) as [Hl|Hl].
    + left. destruct (parse_line_of_shape line tr _ _ _ _ Ht Hs Hl)
        as (row & Hp & Hr).
      exists w, rest, kc, ic, row.
      split; [exact Ht|]. split; [exact Hs|]. split; [exact Hl|].
      split; [exact Hp | exact Hr].
    + right. left. exists w, rest, kc, ic.
      split; [exact Ht|]. split; [exact Hs|]. split; [exact Hl|].
      apply (parse_line_beyond_limit line tr _ _ _ _ Ht Hs Hl).
  - right. right. split.
    + intros w rest kc ic Ht Hs.
      rewrite Ht, (re_match_complete _ _ _ rest Hs) in E. discriminate E.
    + unfold _TableRow.parse_line. rewrite E. reflexivity.
Qed.

Lemma parse_line_no_shape line tr :
  (forall w rest kc ic,
      MonthlyReportLine.text line = w ++ rest -> ~ row_shape w kc ic) ->
  _TableRow.parse_line line tr =
    (Returned None, (tr ++ [failed_to_parse line])%list).
Proof.
  intros Hno. unfold _TableRow.parse_line.
  destruct (re_match row_pattern (MonthlyReportLine.text line)) as [g|] eqn:E.
  - destruct (re_match_row_shape _ _ E) as (w & rest & kc & ic & Ht & Hs & _).
    destruct (Hno _ _ _ _ Ht Hs).
  - reflexivity.
Qed.

Lemma ends_with_bar_app a b :
  b <> "" -> ends_with_bar (a ++ b) = ends_with_bar b.
Proof.
  intros Hb. induction a as [|c a IH]; simpl; [reflexivity|].
  rewrite <- IH. destruct (a ++ b) eqn:E; [|reflexivity].
  destruct a; simpl in E; [congruence | discriminate].
Qed.

Lemma row_shape_ends_with_bar w kc ic :
  row_shape w kc ic -> ends_with_bar w = true.
Proof.
  intros (a & b & -> & _ & Hb).
  destruct Hb as [n p _ _|].
  - rewrite ends_with_bar_app by discriminate.
    replace ("|" ++ n ++ "|" ++ p ++ "|") with (("|" ++ n ++ "|" ++ p) ++ "|").
    + rewrite ends_with_bar_app by discriminate. reflexivity.
    + simpl. rewrite !str_app_assoc. reflexivity.
  - rewrite ends_with_bar_app by discriminate. reflexivity.
Qed.

(** C3, as stated, fails: the text of this line is not a row (it does
    not even end with [|]), yet the classifier accepts it, because the
    pattern is matched at the start of the line only: the line is read
    as the row in front of the trailing text. *)
Lemma row_with_trailing_text_is_accepted :
  (forall kc ic,
      ~ row_shape (MonthlyReportLine.text line_with_trailing_text) kc ic) /\
  _TableRow.parse_line line_with_trailing_text [] =
    (Returned
       (Some (_TableRow.mk (Some (_TableKey.mk 15 9 30 "Store" 5))
                           (Some (ReceiptItem.mk "Widget" 500 5)) 5)),
     []).
Proof.
  split; [|vm_compute; reflexivity].
  intros kc ic H. apply row_shape_ends_with_bar in H. discriminate H.
Qed.

(** The price of this item row has 4301 digits: [int] raises. *)
Lemma long_price_raises :
  _TableRow.parse_line line_with_long_price [] = (Raised ValueError, []).
Proof. vm_compute. reflexivity. Qed.

(** C3, amended.  The classifier matches the grammar against the start
    of the line.  Take a front part of the text of a line that is one
    key group (real, or the placeholder of empty cells) followed by one
    item group (real, or the placeholder).  If its day and its price
    have at most 4300 digits each, the line is classified as a row that
    carries the key and the item read from that front part, whatever
    text follows it, and nothing is logged; if one of them has more,
    [int] raises [ValueError] and so does the classifier.  A line no
    front part of which has this shape is unparseable: the classifier
    emits an error and returns no row.  Conversely, a row is only ever
    read from such a front part within the limit, and these three are
    the only outcomes. *)
Theorem parse_line_classifies_front :
  forall line tr,
    (forall w rest kc ic,
        MonthlyReportLine.text line = w ++ rest ->
        row_shape w kc ic ->
        (shape_within_limit kc ic ->
         exists row,
           _TableRow.parse_line line tr = (Returned (Some row), tr) /\
           row_reads (MonthlyReportLine.line_number line) kc ic row) /\
        (~ shape_within_limit kc ic ->
         _TableRow.parse_line line tr = (Raised ValueError, tr))) /\
    ((forall w rest kc ic,
         MonthlyReportLine.text line = w ++ rest -> ~ row_shape w kc ic) ->
     _TableRow.parse_line line tr =
       (Returned None, (tr ++ [failed_to_parse line])%list)) /\
    (forall row tr',
        _TableRow.parse_line line tr = (Returned (Some row), tr') ->
        exists w rest kc ic,
          MonthlyReportLine.text line = w ++ rest /\ row_shape w kc ic /\
          shape_within_limit kc ic /\
          row_reads (MonthlyReportLine.line_number line) kc ic row) /\
    ((exists row, _TableRow.parse_line line tr = (Returned (Some row), tr)) \/
     _TableRow.parse_line line tr =
       (Returned None, (tr ++ [failed_to_parse line])%list) \/
     _TableRow.parse_line line tr = (Raised ValueError, tr)).
Proof.
  intros line tr. split; [|split; [|split]].
  - intros w rest kc ic Ht Hs. split.
    + apply (parse_line_of_shape _ _ _ _ _ _ Ht Hs).
    + apply (parse_line_beyond_limit _ _ _ _ _ _ Ht Hs).
  - apply parse_line_no_shape.
  - intros row tr' H.
    destruct (parse_line_cases line tr)
      as [(w & rest & kc & ic & row' & Ht & Hs & Hl & Hp & Hr)
         | [(w & rest & kc & ic & _ & _ & _ & Hp) | (_ & Hp)]];
      rewrite Hp in H; inversion H; subst.
    exists w, rest, kc, ic.
    split; [exact Ht|]. split; [exact Hs|]. split; [exact Hl | exact Hr].
  - destruct (parse_line_cases line tr)
      as [(w & rest & kc & ic & row' & _ & _ & _ & Hp & _)
         | [(w & rest & kc & ic & _ & _ & _ & Hp) | (_ & Hp)]].
    + left. exists row'. exact Hp.
    + right. right. exact Hp.
    + right. left. exact Hp.
Qed.

(** The line of the counterexample, read through its front part. *)
Lemma parse_line_classifies_front_witness :
  exists row,
    _TableRow.parse_line line_with_trailing_text [] = (Returned (Some row), []) /\
    row_reads 5 (Some ("15", "09", "30", "Store")) (Some ("Widget", "500")) row.
Proof.
  assert (Hs : row_shape "|15|09:30|Store|Widget|500|"
                         (Some ("15", "09", "30", "Store"))
                         (Some ("Widget", "500"))).
  { exists "|15|09:30|Store", "|Widget|500|".
    split; [reflexivity|]. split.
    - apply (key_real "15" "09" "30" "Store");
        split; try reflexivity; discriminate.
    - apply (item_real "Widget" "500").
      + split; [discriminate | reflexivity].
      + left. split; [discriminate | reflexivity]. }
  apply (proj1 (proj1 (parse_line_classifies_front line_with_trailing_text [])
                      "|15|09:30|Store|Widget|500|" " and more" _ _
                      eq_refl Hs)).
  split; apply Nat.leb_le; vm_compute; reflexivity.
Defined.

(** ** Rendering integers *)

Lemma uint_digits u : all_chars is_digit (NilEmpty.string_of_uint u) = true.
Proof. induction u; simpl; try reflexivity; exact IHu. Qed.

Lemma string_of_uint_numeral u : numeral (NilZero.string_of_uint u).
Proof.
  destruct u; (split; [discriminate|]);
    try reflexivity;
    match goal with
    | |- all_chars _ (NilZero.string_of_uint ?d) = true => apply (uint_digits d)
    end.
Qed.

Lemma str_int n : printable n -> int (str n) = Some n.
Proof.
  intros Hp. rewrite (int_within _ Hp).
  unfold str. rewrite NilZero.isi.
  - simpl. rewrite DecimalZ.of_to. reflexivity.
  - destruct n; simpl; intros H; inversion H.
    + eapply DecimalPos.Unsigned.to_uint_nonnil; eassumption.
  - destruct n; simpl; intros H; inversion H.
    eapply DecimalPos.Unsigned.to_uint_nonnil; eassumption.
Qed.

(** What [int] returns can be formatted: its numeral has no more digits
    than the text [int] has read. *)
Lemma count_digits_uint u :
  count_digits (NilEmpty.string_of_uint u) = nb_digits u.
Proof.
  induction u; simpl; try reflexivity; rewrite <- IHu; reflexivity.
Qed.

Lemma count_digits_nonnil u :
  u <> Nil -> count_digits (NilZero.string_of_uint u) = nb_digits u.
Proof.
  intros H. destruct u; try congruence; apply (count_digits_uint _).
Qed.

Lemma count_digits_unorm u :
  (count_digits (NilZero.string_of_uint (unorm u))
   <= count_digits (NilZero.string_of_uint u))%nat.
Proof.
  destruct u as [|u|u|u|u|u|u|u|u|u|u];
    try (unfold unorm; simpl nzhead; apply Nat.le_refl).
  rewrite (count_digits_nonnil (D0 u)) by discriminate.
  unfold unorm. simpl nzhead.
  pose proof (DecimalFacts.nb_digits_nzhead u) as Hn.
  destruct (nzhead u) eqn:E;
    rewrite count_digits_nonnil by discriminate; simpl in *; lia.
Qed.

Lemma int_printable s z : int s = Some z -> printable z.
Proof.
  intros H. pose proof (int_some_within _ _ H) as Hw.
  rewrite (int_within _ Hw) in H.
  destruct (NilZero.int_of_string s) as [d|] eqn:E; [|discriminate H].
  simpl in H. inversion H; subst z. clear H.
  apply NilZero.sis in E. subst s.
  unfold printable, str. rewrite DecimalZ.to_of.
  eapply Nat.le_trans; [|exact Hw].
  destruct d as [u|u]; simpl.
  - apply count_digits_unorm.
  - pose proof (count_digits_unorm u) as Hn. unfold unorm in Hn.
    destruct (nzhead u) eqn:En; simpl in *; exact Hn.
Qed.

(** The numbers of a row that the classifier returns are within the
    digit limit. *)
Lemma parsed_numbers_printable line tr row tr' :
  _TableRow.parse_line line tr = (Returned (Some row), tr') ->
  (forall k, _TableRow.key row = Some k ->
             printable (_TableKey.day k) /\ printable (_TableKey.hour k) /\
             printable (_TableKey.minute k)) /\
  (forall i, _TableRow.item row = Some i -> printable (ReceiptItem.price i)).
Proof.
  intros H.
  destruct (parse_line_cases line tr)
    as [(w & rest & kc & ic & row' & _ & _ & _ & Hp & (_ & Hk & Hi))
       | [(w & rest & kc & ic & _ & _ & _ & Hp) | (_ & Hp)]];
    rewrite Hp in H; inversion H; subst.
  unfold key_reads, item_reads in *. split.
  - intros k Ek. rewrite Ek in Hk.
    destruct kc as [[[[d h] m] st]|]; [|destruct Hk].
    destruct Hk as (Hd & Hh & Hm & _).
    split; [|split]; eapply int_printable; eassumption.
  - intros i Ei. rewrite Ei in Hi.
    destruct ic as [[nm p]|]; [|destruct Hi].
    destruct Hi as (_ & Hprice & _). eapply int_printable; eassumption.
Qed.

Lemma str_numeral n : 0 <= n -> numeral (str n).
Proof.
  intros Hn. unfold str. destruct n as [|p|p]; simpl.
  - split; [discriminate | reflexivity].
  - apply string_of_uint_numeral.
  - lia.
Qed.

Lemma str_signed_numeral n : signed_numeral (str n).
Proof.
  destruct n as [|p|p].
  - left. apply str_numeral. lia.
  - left. apply str_numeral. lia.
  - right. unfold str. simpl. eexists. split; [reflexivity|].
    apply string_of_uint_numeral.
Qed.

Lemma two_digit_formats :
  forallb (fun n => two_digit_format_ok (Z.of_nat n)) (List.seq 0 100) = true.
Proof. vm_compute. reflexivity. Qed.

Lemma format_two_digits h :
  0 <= h <= 99 ->
  two_digits (format_0 2 h) /\ int (format_0 2 h) = Some h.
Proof.
  intros Hh. pose proof two_digit_formats as H.
  rewrite forallb_forall in H. specialize (H (Z.to_nat h)).
  rewrite Z2Nat.id in H by lia.
  assert (Hin : In (Z.to_nat h) (List.seq 0 100)) by (apply in_seq; lia).
  specialize (H Hin). unfold two_digit_format_ok in H.
  apply andb_true_iff in H. destruct H as [H H3].
  apply andb_true_iff in H. destruct H as [H1 H2].
  apply Nat.eqb_eq in H1.
  destruct (int (format_0 2 h)) as [z|]; [|discriminate].
  apply Z.eqb_eq in H3. subst z.
  split; [split; assumption | reflexivity].
Qed.

(* ================================================================== *)
(** * Rendering a receipt and reading it back *)
(* ================================================================== *)

Lemma row_reads_item n name p row z :
  item_reads n (Some (name, p)) (_TableRow.item row) ->
  int p = Some z ->
  _TableRow.item row = Some (ReceiptItem.mk name z n).
Proof.
  unfold item_reads. destruct (_TableRow.item row) as [[nm pr ln]|]; [|tauto].
  simpl. intros (-> & Hp & ->) Hz. rewrite Hz in Hp. inversion Hp. reflexivity.
Qed.

Lemma parse_continuation_row item n tr :
  cell_text (ReceiptItem.name item) ->
  printable (ReceiptItem.price item) ->
  _TableRow.parse_line
    (MonthlyReportLine.mk (Receipt.continuation_row item) n) tr =
  (Returned
     (Some (_TableRow.mk None
              (Some (ReceiptItem.mk (ReceiptItem.name item)
                                    (ReceiptItem.price item) n)) n)),
   tr).
Proof.
  intros Hname Hprice.
  destruct (parse_line_of_shape
              (MonthlyReportLine.mk (Receipt.continuation_row item) n) tr
              (Receipt.continuation_row item) "" None
              (Some (ReceiptItem.name item, str (ReceiptItem.price item))))
    as (row & Hp & Hl & Hk & Hi).
  - simpl. rewrite str_app_nil_r. reflexivity.
  - exists "|||", ("|" ++ ReceiptItem.name item ++ "|"
                    ++ str (ReceiptItem.price item) ++ "|").
    split; [reflexivity|]. split; [constructor|].
    apply item_real; [exact Hname | apply str_signed_numeral].
  - split; [exact I | exact Hprice].
  - rewrite Hp. simpl in *.
    pose proof (row_reads_item _ _ _ _ _ Hi (str_int _ Hprice)) as Hitem.
    destruct row as [k i l]. simpl in *.
    destruct k; [destruct Hk|]. subst. reflexivity.
Qed.

Lemma key_row_text r item :
  Receipt.key_row r item =
  ("|" ++ str (Receipt.day r) ++ "|" ++ format_0 2 (Receipt.hour r) ++ ":"
       ++ format_0 2 (Receipt.minute r) ++ "|" ++ Receipt.store r)
  ++ ("|" ++ ReceiptItem.name item ++ "|" ++ str (ReceiptItem.price item) ++ "|").
Proof. unfold Receipt.key_row. rewrite key_text_app. reflexivity. Qed.

Lemma parse_key_row r item n tr :
  0 <= Receipt.day r ->
  printable (Receipt.day r) ->
  0 <= Receipt.hour r <= 99 ->
  0 <= Receipt.minute r <= 99 ->
  cell_text (Receipt.store r) ->
  cell_text (ReceiptItem.name item) ->
  printable (ReceiptItem.price item) ->
  _TableRow.parse_line (MonthlyReportLine.mk (Receipt.key_row r item) n) tr =
  (Returned
     (Some (_TableRow.mk
              (Some (_TableKey.mk (Receipt.day r) (Receipt.hour r)
                                  (Receipt.minute r) (Receipt.store r) n))
              (Some (ReceiptItem.mk (ReceiptItem.name item)
                                    (ReceiptItem.price item) n)) n)),
   tr).
Proof.
  intros Hd Hpd Hh Hm Hst Hname Hprice.
  destruct (format_two_digits _ Hh) as [Hh2 Hhi].
  destruct (format_two_digits _ Hm) as [Hm2 Hmi].
  destruct (parse_line_of_shape
              (MonthlyReportLine.mk (Receipt.key_row r item) n) tr
              (Receipt.key_row r item) ""
              (Some (str (Receipt.day r), format_0 2 (Receipt.hour r),
                     format_0 2 (Receipt.minute r), Receipt.store r))
              (Some (ReceiptItem.name item, str (ReceiptItem.price item))))
    as (row & Hp & Hl & Hk & Hi).
  - simpl. rewrite str_app_nil_r. reflexivity.
  - eexists. eexists. split; [apply key_row_text|]. split.
    + apply key_real; try assumption. apply str_numeral. exact Hd.
    + apply item_real; [exact Hname | apply str_signed_numeral].
  - split; [exact Hpd | exact Hprice].
  - rewrite Hp. simpl in *.
    pose proof (row_reads_item _ _ _ _ _ Hi (str_int _ Hprice)) as Hitem.
    destruct row as [k i l]. simpl in *.
    destruct k as [[kd kh km ks kl]|]; [|destruct Hk]. simpl in Hk.
    destruct Hk as (H1 & H2 & H3 & H4 & H5).
    rewrite (str_int _ Hpd) in H1. rewrite Hhi in H2. rewrite Hmi in H3.
    inversion H1. inversion H2. inversion H3. subst. reflexivity.
Qed.

Lemma classify_continuation_rows its n tr :
  Forall (fun i => cell_text (ReceiptItem.name i)) its ->
  Forall (fun i => printable (ReceiptItem.price i)) its ->
  classify (enumerate n (map Receipt.continuation_row its)) tr =
  (Returned (map Some (continuation_rows n its)), tr).
Proof.
  revert n. induction its as [|i its IH]; intros n H Hp; simpl.
  - reflexivity.
  - inversion H as [|? ? Hi Hits]; subst.
    inversion Hp as [|? ? Hpi Hpits]; subst.
    rewrite (bind_eq _ _ _ _ _ (parse_continuation_row i n tr Hi Hpi)).
    rewrite (bind_eq _ _ _ _ _ (IH (n + 1) Hits Hpits)). reflexivity.
Qed.

(** C8, as stated, fails: the receipt has one item, its store and item
    name are not empty and hold no [|], but its hour is 100; the row
    rendered for it is [|15|100:30|Store|Widget|500|], which the
    classifier rejects. *)
Lemma hour_100_does_not_round_trip :
  Receipt.items receipt_hour_100 <> [] /\
  cell_text (Receipt.store receipt_hour_100) /\
  Forall (fun i => cell_text (ReceiptItem.name i))
         (Receipt.items receipt_hour_100) /\
  Receipt.to_table_rows receipt_hour_100 = ["|15|100:30|Store|Widget|500|"] /\
  exists tr',
    classify (enumerate 5 (Receipt.to_table_rows receipt_hour_100)) [] =
    (Returned [None], tr').
Proof.
  split; [discriminate|].
  split; [split; [discriminate | reflexivity]|].
  split; [constructor; [split; [discriminate | reflexivity] | constructor]|].
  split; [vm_compute; reflexivity|].
  eexists. vm_compute. reflexivity.
Qed.

(** C8, amended.  Round trip: for every receipt with a non-empty item
    list, whose store and item names are non-empty and hold no [|],
    whose day is not negative and whose hour and minute lie between 0
    and 99, and whose day and prices have at most 4300 digits (beyond
    which neither [f'{n}'] nor [int] returns), every line of
    [to_table_rows()] is accepted by the classifier without a
    diagnostic; the first row reads back the key fields (day, hour,
    minute, store) and the first item, and each further row reads back
    no key and the next item (name and price), in order. *)
Theorem to_table_rows_round_trip :
  forall r n tr,
    Receipt.items r <> [] ->
    cell_text (Receipt.store r) ->
    Forall (fun i => cell_text (ReceiptItem.name i)) (Receipt.items r) ->
    0 <= Receipt.day r ->
    0 <= Receipt.hour r <= 99 ->
    0 <= Receipt.minute r <= 99 ->
    printable (Receipt.day r) ->
    Forall (fun i => printable (ReceiptItem.price i)) (Receipt.items r) ->
    classify (enumerate n (Receipt.to_table_rows r)) tr =
    (Returned (map Some (reread r n)), tr).
Proof.
  intros r n tr Hne Hst Hnames Hd Hh Hm Hpd Hprices.
  unfold reread. destruct (Receipt.items r) as [|i its] eqn:E; [congruence|].
  rewrite (to_table_rows_cons _ _ _ E).
  inversion Hnames as [|? ? Hi Hits]; subst.
  inversion Hprices as [|? ? Hpi Hpits]; subst. simpl.
  rewrite (bind_eq _ _ _ _ _ (parse_key_row r i n tr Hd Hpd Hh Hm Hst Hi Hpi)).
  rewrite (bind_eq _ _ _ _ _
             (classify_continuation_rows its (n + 1) tr Hits Hpits)).
  reflexivity.
Qed.

(** A receipt of two items, the second with a negative price. *)
Lemma to_table_rows_round_trip_witness :
  classify (enumerate 7 (Receipt.to_table_rows receipt_sample)) [] =
  (Returned
     [Some (_TableRow.mk (Some (_TableKey.mk 5 9 3 "Example Store" 7))
                         (Some (ReceiptItem.mk "Widget" 500 7)) 7);
      Some (_TableRow.mk None (Some (ReceiptItem.mk "Refund" (-120) 8)) 8)],
   []).
Proof.
  apply (to_table_rows_round_trip receipt_sample 7 []).
  - discriminate.
  - split; [discriminate | reflexivity].
  - repeat constructor; discriminate.
  - simpl. lia.
  - simpl. lia.
  - simpl. lia.
  - apply Nat.leb_le. vm_compute. reflexivity.
  - repeat constructor; apply Nat.leb_le; vm_compute; reflexivity.
Defined.

(* ================================================================== *)
(** * Properties of [parse_payment] *)
(* ================================================================== *)

(** C7.  Whenever [parse_payment] returns, the list it returns is
    non-decreasing by timestamp (every receipt is chronologically before
    or at the same time as all the receipts after it), it is a
    rearrangement of the receipts assembled over all tables, and the
    receipts that share a timestamp appear in the order in which they
    were assembled. *)
Theorem parse_payment_sorted_stable :
  forall year month lines tr rs tr',
    parse_payment year month lines tr = (Returned rs, tr') ->
    StronglySorted chronological rs /\
    exists assembled,
      assemble year month lines tr = (Returned assembled, tr') /\
      Permutation assembled rs /\
      forall t, filter (at_time t) rs = filter (at_time t) assembled.
Proof.
  intros year month lines tr rs tr' H.
  unfold parse_payment in H. returns.
  destruct (sort_by_datetime_returned _ _ _ _ H) as (-> & Hp & Hs & Hf).
  split; [exact Hs|].
  eexists. split; [eassumption|]. split; assumption.
Qed.

(** C9.  Every receipt in the list returned by
    [parse_payment year month lines] carries the [year] and the [month]
    that were passed in, and its [datetime] property evaluates to a
    timestamp without raising. *)
Theorem parse_payment_well_dated :
  forall year month lines tr rs tr',
    parse_payment year month lines tr = (Returned rs, tr') ->
    Forall (fun r => Receipt.year r = year /\ Receipt.month r = month /\
                     exists dt, Receipt.datetime r = Some dt) rs.
Proof.
  intros year month lines tr rs tr' H.
  unfold parse_payment in H. returns.
  match goal with F : assemble _ _ _ _ = _ |- _ =>
    apply assemble_well_dated in F; rename F into Hw end.
  destruct (sort_by_datetime_returned _ _ _ _ H) as (_ & Hp & _ & _).
  apply (Permutation_Forall Hp).
  eapply Forall_impl; [|exact Hw].
  intros r (Hy & Hm & Hd). repeat split; try assumption.
  destruct (Receipt.datetime r) as [dt|]; [eexists; reflexivity | congruence].
Qed.

(** The final sort never fails: once the tables are assembled,
    [parse_payment] returns. *)
Lemma parse_payment_returns_when_assembled year month lines tr assembled tr' :
  assemble year month lines tr = (Returned assembled, tr') ->
  exists rs, parse_payment year month lines tr = (Returned rs, tr').
Proof.
  intros H. unfold parse_payment. rewrite (bind_eq _ _ _ _ _ H).
  destruct (keyed_total _ _ _ (assemble_well_dated _ _ _ _ _ _ H)) as [l Hl].
  unfold sort_by_datetime, bind, lift. rewrite Hl. simpl.
  eexists. reflexivity.
Qed.

(** Two tables, three receipts, two of them at the same time. *)
Lemma parse_payment_sorted_stable_witness :
  exists rs tr',
    parse_payment 2024 4 report_two_tables [] = (Returned rs, tr') /\
    StronglySorted chronological rs /\
    exists assembled,
      assemble 2024 4 report_two_tables [] = (Returned assembled, tr') /\
      Permutation assembled rs /\
      forall t, filter (at_time t) rs = filter (at_time t) assembled.
Proof.
  eexists. eexists. split.
  - vm_compute. reflexivity.
  - eapply (parse_payment_sorted_stable 2024 4 report_two_tables []).
    vm_compute. reflexivity.
Defined.

(** The receipts of the two tables belong to April 2024. *)
Lemma parse_payment_well_dated_witness :
  exists rs tr',
    parse_payment 2024 4 report_two_tables [] = (Returned rs, tr') /\
    Forall (fun r => Receipt.year r = 2024 /\ Receipt.month r = 4 /\
                     exists dt, Receipt.datetime r = Some dt) rs.
Proof.
  eexists. eexists. split.
  - vm_compute. reflexivity.
  - eapply (parse_payment_well_dated 2024 4 report_two_tables []).
    vm_compute. reflexivity.
Defined.

(** C1.  [parse_payment] raises [IndexError] on a report whose table
    holds only an item row, and on a report whose table body is closed
    before any row: [result] reads the last closed receipt of a table
    that closed none. *)
Theorem parse_payment_raises_without_receipts :
  parse_payment 2024 4 report_items_only [] = (Raised IndexError, []) /\
  parse_payment 2024 4 report_no_rows [] = (Raised IndexError, []).
Proof. split; vm_compute; reflexivity. Qed.

(** C6.  In April, a key row for the 31st that carries no item makes
    [parse_payment] raise [IndexError] while it formats the message of
    the date error; no diagnostic is emitted and nothing is returned. *)
Theorem parse_payment_raises_on_bare_invalid_date :
  parse_payment 2024 4 report_april_31_bare [] = (Raised IndexError, []).
Proof. vm_compute. reflexivity. Qed.

(** The same key row with an item: the date error is emitted and the
    candidate is discarded. *)
Lemma parse_payment_discards_april_31 :
  parse_payment 2024 4 report_april_31 [] =
  (Returned [],
   [(ERROR, "invalid datetime: |31|09:30|Store|Widget|500| at 2024/04.md:5")]).
Proof. vm_compute. reflexivity. Qed.

(** C10.  There is a report whose table holds a key row with the
    placeholder item group, immediately followed by an empty row, for
    which [parse_payment] returns a receipt without items; and for every
    receipt without items [last_line_number] is [line_number - 1], the
    line in front of its own key row. *)
Theorem bare_key_receipt_has_no_items :
  _parse_payment_table report_bare_key [] =
    (Returned [[_TableRow.mk None None 4;
                _TableRow.mk (Some (_TableKey.mk 15 9 30 "Store" 5)) None 5;
                _TableRow.mk None None 6]], []) /\
  (exists rs tr' r,
     parse_payment 2024 4 report_bare_key [] = (Returned rs, tr') /\
     In r rs /\ Receipt.items r = [] /\
     Receipt.last_line_number r = Receipt.line_number r - 1) /\
  (forall r, Receipt.items r = [] ->
             Receipt.last_line_number r = Receipt.line_number r - 1).
Proof.
  split; [vm_compute; reflexivity|]. split.
  - eexists. eexists. eexists. split; [vm_compute; reflexivity|].
    split; [left; reflexivity|]. split; reflexivity.
  - intros r H. unfold Receipt.last_line_number. rewrite H. simpl. lia.
Qed.

(** The receipt of the key row at line 5 ends at line 4. *)
Lemma bare_key_receipt_has_no_items_witness :
  Receipt.last_line_number (Receipt.mk 2024 4 15 9 30 "Store" [] 5) = 4.
Proof.
  exact (proj2 (proj2 bare_key_receipt_has_no_items)
               (Receipt.mk 2024 4 15 9 30 "Store" [] 5) eq_refl).
Defined.

(* ================================================================== *)
(** * Properties of the table scanner *)
(* ================================================================== *)

(** C5, as stated, fails: after a header line and a line that is not
    the alignment row the scanner is still in the [header] state (not in
    [outer]), and the alignment row that comes later opens a table that
    captures the rows below it. *)
Lemma late_alignment_still_opens_table :
  scan (report [section_heading; header; "stray text"]) [] =
    (Returned (mkScanner St_header [] []),
     [unexpected_row_record "stray text"]) /\
  exists r1 r2 r3,
    _parse_payment_table report_late_alignment [] =
      (Returned [[r1; r2; r3]], [unexpected_row_record "stray text"]) /\
    _TableRow.line_number r2 = 6 /\
    _TableRow.item r2 = Some (ReceiptItem.mk "Widget" 500 6).
Proof.
  split; [vm_compute; reflexivity|].
  eexists. eexists. eexists. split; [vm_compute; reflexivity|].
  split; reflexivity.
Qed.

(** C5, amended.  A line that reaches the scanner in the [header] state
    and is not the exact alignment row makes it emit the error
    [unexpected row] and leaves the scanner as it was: it stays in the
    [header] state, no table is opened and nothing is captured.  A line
    with the exact alignment text, reaching the scanner in that state,
    opens the table body. *)
Theorem misaligned_header_keeps_waiting :
  forall sc line tr,
    state sc = St_header ->
    MonthlyReportLine.text line <> alignment ->
    scan_step sc line tr =
      (Returned sc,
       (tr ++ [unexpected_row_record (MonthlyReportLine.text line)])%list) /\
    forall n tr2,
      scan_step sc (MonthlyReportLine.mk alignment n) tr2 =
        (Returned (mkScanner St_body (tables sc) (table sc)), tr2).
Proof.
  intros sc line tr Hst Hne. unfold scan_step. rewrite Hst. split.
  - apply String.eqb_neq in Hne. rewrite Hne. reflexivity.
  - intros n tr2. reflexivity.
Qed.

(** The scanner after a header line, at a stray line. *)
Lemma misaligned_header_keeps_waiting_witness :
  scan_step (mkScanner St_header [] []) (MonthlyReportLine.mk "stray text" 3) [] =
    (Returned (mkScanner St_header [] []),
     [unexpected_row_record "stray text"]) /\
  forall n tr2,
    scan_step (mkScanner St_header [] []) (MonthlyReportLine.mk alignment n) tr2 =
      (Returned (mkScanner St_body [] []), tr2).
Proof.
  apply (misaligned_header_keeps_waiting
           (mkScanner St_header [] []) (MonthlyReportLine.mk "stray text" 3) []).
  - reflexivity.
  - simpl. discriminate.
Defined.

(* ================================================================== *)
(** * Properties of the receipt assembler *)
(* ================================================================== *)

(** C4, as stated, fails: the previous receipt is on the 30th, the
    candidate on the 10th, an empty row precedes the candidate's key
    row, and the flush emits [need not an empty row before] although the
    two days differ. *)
Lemma need_not_warning_on_different_days :
  exists self prev k self' new,
    for_each push rows_day_goes_back (init 2024 4) [] = (Returned self, []) /\
    _table_key self = Some k /\
    index_last (_receipts self) = Some prev /\
    Receipt.day prev = 30 /\ _TableKey.day k = 10 /\
    _is_before_key_empty self = true /\
    _push_receipt self [] = (Returned self', new) /\
    emitted WARNING "need not an empty row before: " new.
Proof.
  do 5 eexists.
  split; [vm_compute; reflexivity|].
  split; [reflexivity|]. split; [reflexivity|].
  split; [reflexivity|]. split; [reflexivity|]. split; [reflexivity|].
  split; [vm_compute; reflexivity|].
  eexists. right. left. reflexivity.
Qed.

(** The warnings of one flush, in terms of the parser state. *)
Lemma flush_separator_warnings self k tr :
  _table_key self = Some k ->
  _table_items self <> [] ->
  (exists dt, Receipt.datetime (candidate self k) = Some dt) ->
  Forall (fun r => Receipt.datetime r <> None) (_receipts self) ->
  exists new,
    _push_receipt self tr = (Returned (flushed self), (tr ++ new)%list) /\
    (emitted WARNING "need an empty row before: " new <->
       _is_before_key_empty self = false /\
       match index_last (_receipts self) with
       | Some prev => Receipt.day prev < _TableKey.day k
       | None => True
       end) /\
    (emitted WARNING "need not an empty row before: " new <->
       _is_before_key_empty self = true /\
       exists prev, index_last (_receipts self) = Some prev /\
                    _TableKey.day k <= Receipt.day prev).
Proof.
  intros Hk Hi (dt & Hdt) Hall.
  destruct (_table_items self) as [|i its] eqn:Ei; [congruence|]. clear Hi.
  set (self0 := set_table_items (set_table_key self None) []).
  assert (Hc : Receipt.items (candidate self k) = i :: its)
    by (unfold candidate; simpl; exact Ei).
  destruct (validate_order_trail self0 _ i its dt tr Hc Hdt Hall)
    as (n1 & Ho & Hn1).
  destruct (validate_empty_row_trail self0 _ i its dt (tr ++ n1)%list Hc Hdt Hall)
    as (n2 & He & Hb & Hnb & _).
  exists (n1 ++ n2)%list. split; [|split].
  - unfold _push_receipt, flushed. rewrite Hk, Hdt. fold self0.
    rewrite (bind_eq _ _ _ _ _ Ho), (bind_eq _ _ _ _ _ He).
    rewrite app_assoc. reflexivity.
  - rewrite emitted_app, Hb. simpl. split; [|intros H; right; exact H].
    intros [(msg & H) | H]; [|exact H].
    destruct Hn1 as [-> | (m & ->)]; [destruct H|].
    destruct H as [H|[]]. destruct (wrong_order_not_need _ _ H).
  - rewrite emitted_app, Hnb. simpl. split; [|intros H; right; exact H].
    intros [(msg & H) | H]; [|exact H].
    destruct Hn1 as [-> | (m & ->)]; [destruct H|].
    destruct H as [H|[]]. destruct (wrong_order_not_need_not _ _ H).
Qed.

(** C4, amended.  Push the rows of a table up to and including a key
    row that names a valid date, and the rows that continue its receipt,
    so that the receipt has at least one item.  When this receipt is
    then flushed, the warning [need an empty row before] is emitted
    exactly when the row immediately in front of the key row is not an
    empty row (or the key row is the first row) and either no receipt
    was closed before in this table or the previous receipt's day is
    strictly smaller than the candidate's; the warning [need not an
    empty row before] is emitted exactly when an empty row does
    immediately precede the key row, a previous receipt exists and its
    day is greater than or equal to the candidate's. *)
Theorem separator_warnings :
  forall year month pre krow k body tr0 self tr1 tr,
    for_each push (pre ++ krow :: body)%list (init year month) tr0
      = (Returned self, tr1) ->
    _TableRow.key krow = Some k ->
    Forall continues body ->
    (_TableRow.item krow <> None \/ body <> []) ->
    valid_key year month k = true ->
    exists new,
      _table_key self = Some k /\
      _push_receipt self tr = (Returned (flushed self), (tr ++ new)%list) /\
      (emitted WARNING "need an empty row before: " new <->
         blank_before pre = false /\
         match index_last (_receipts self) with
         | Some prev => Receipt.day prev < _TableKey.day k
         | None => True
         end) /\
      (emitted WARNING "need not an empty row before: " new <->
         blank_before pre = true /\
         exists prev, index_last (_receipts self) = Some prev /\
                      _TableKey.day k <= Receipt.day prev).
Proof.
  intros year month pre krow k body tr0 self tr1 tr Hrun Hk Hbody Hitem Hv.
  apply for_each_push_pushed in Hrun.
  rewrite fold_left_app in Hrun. simpl in Hrun.
  set (s0 := fold_left pushed pre (init year month)) in *.
  assert (Hinit : dated year month (init year month))
    by (repeat split; simpl; constructor).
  pose proof (fold_pushed_dated year month (pre ++ krow :: body) _ Hinit) as Hd.
  rewrite fold_left_app in Hd. simpl in Hd. fold s0 in Hd. rewrite <- Hrun in Hd.
  destruct (pushed_key_row s0 krow k Hk) as (K1 & K2 & _ & K4).
  destruct (fold_pushed_continues body (pushed s0 krow) k Hbody K1)
    as (B1 & B2 & _ & B4).
  rewrite <- Hrun in B1, B2, B4.
  assert (Hflag : _is_before_key_empty self = blank_before pre).
  { rewrite B2, K2. apply blank_before_last. }
  assert (Hitems : _table_items self <> []).
  { apply B4. destruct Hitem as [H|H]; [left; apply K4; exact H | right; exact H]. }
  assert (Hdt : exists dt, Receipt.datetime (candidate self k) = Some dt).
  { destruct Hd as (Hy & Hm & _).
    pose proof (valid_key_datetime _ _ k (_table_items self) Hv) as Hne.
    unfold candidate. rewrite Hy, Hm.
    destruct (Receipt.datetime _) as [dt|]; [eexists; reflexivity | congruence]. }
  destruct (flush_separator_warnings self k tr B1 Hitems Hdt
                                     (dated_receipts _ _ _ Hd))
    as (new & Hp & Hb & Hnb).
  exists new. split; [exact B1|]. split; [exact Hp|].
  rewrite <- Hflag. split; assumption.
Qed.

(** The table of the counterexample: the key row of the 10th at line 7
    follows an empty row, and the receipt of the 30th was closed
    before. *)
Lemma separator_warnings_witness :
  exists self new,
    for_each push rows_day_goes_back (init 2024 4) [] = (Returned self, []) /\
    _push_receipt self [] = (Returned (flushed self), ([] ++ new)%list) /\
    (emitted WARNING "need not an empty row before: " new <->
       true = true /\
       exists prev, index_last (_receipts self) = Some prev /\
                    10 <= Receipt.day prev).
Proof.
  eexists.
  assert (Hrun : for_each push
                   ([_TableRow.mk None None 4;
                     _TableRow.mk (Some (_TableKey.mk 30 9 30 "Store" 5))
                                  (Some (ReceiptItem.mk "Widget" 500 5)) 5;
                     _TableRow.mk None None 6]
                    ++ _TableRow.mk (Some (_TableKey.mk 10 9 30 "Store" 7))
                                    (Some (ReceiptItem.mk "Gadget" 300 7)) 7
                       :: [])%list (init 2024 4) []
                 = (Returned _, [])) by (vm_compute; reflexivity).
  assert (Hitem : _TableRow.item
                    (_TableRow.mk (Some (_TableKey.mk 10 9 30 "Store" 7))
                                  (Some (ReceiptItem.mk "Gadget" 300 7)) 7)
                  <> None \/ @nil _TableRow.t <> [])
    by (left; discriminate).
  destruct (separator_warnings 2024 4 _ _ (_TableKey.mk 10 9 30 "Store" 7) []
                               [] _ [] [] Hrun eq_refl (Forall_nil _)
                               Hitem eq_refl)
    as (new & _ & Hp & _ & Hnb).
  exists new. split; [exact Hrun|]. split; [exact Hp | exact Hnb].
Defined.

(** C2, as stated, fails: every row of this table parses and every
    candidate has a valid date, yet the item row that follows the empty
    row is put into the receipt of the key row that comes after it.
    The second receipt holds two items, where its key row up to the
    next empty row holds one. *)
Lemma orphan_item_joins_next_receipt :
  all_dates_valid 2024 1 rows_with_orphan = true /\
  exists r1 r2 tr',
    run 2024 1 rows_with_orphan [] = (Returned [r1; r2], tr') /\
    Receipt.line_number r2 = 8 /\
    Receipt.items r2 =
      [ReceiptItem.mk "Orphan" 100 7; ReceiptItem.mk "Gadget" 300 8] /\
    [r1; r2] <> spec_receipts 2024 1 rows_with_orphan.
Proof.
  split; [reflexivity|].
  do 3 eexists. split; [vm_compute; reflexivity|].
  split; [reflexivity|]. split; [reflexivity|].
  vm_compute. discriminate.
Qed.

(** C2, amended.  Take a table whose key rows all name a valid date.
    Whenever the assembler returns, its result holds exactly one receipt
    per key-carrying row, in order, each with the day, hour, minute,
    store and line number of its key row, and the item list of each
    receipt ends with the item cells from its key row up to, and
    excluding, the next key row or empty row.  If every row that
    carries an item and no key continues a receipt (it is not the first
    row and does not directly follow an empty row), the item list is
    exactly that sequence; if moreover the table is not empty and every
    receipt has at least one item, the assembler does return that
    result. *)
Theorem assembler_groups_rows :
  forall year month rows,
    all_dates_valid year month rows = true ->
    (forall tr rs tr',
        run year month rows tr = (Returned rs, tr') ->
        List.length rs = count_key_rows rows /\
        Forall2 extends rs (spec_receipts year month rows) /\
        (attached false rows = true -> rs = spec_receipts year month rows)) /\
    (attached false rows = true ->
     rows <> [] -> itemful false rows = true ->
     forall tr, exists new,
       run year month rows tr =
         (Returned (spec_receipts year month rows), (tr ++ new)%list)).
Proof.
  intros year month rows Hv. split.
  - intros tr rs tr' H.
    pose proof (run_extends _ _ _ _ _ _ Hv H) as He.
    split; [|split].
    + rewrite (Forall2_length He). apply spec_receipts_length.
    + exact He.
    + intros Ha. apply (run_spec_receipts _ _ _ _ _ _ Hv Ha H).
  - intros Ha Hne Hi tr. apply run_returns; assumption.
Qed.

(** A table of two receipts, the second with its item on the row after
    the key row. *)
Lemma assembler_groups_rows_witness :
  exists new,
    run 2024 4 rows_well_formed [] =
      (Returned
         [Receipt.mk 2024 4 15 9 30 "Example Store"
                     [ReceiptItem.mk "Widget" 500 5; ReceiptItem.mk "Gadget" 300 6] 5;
          Receipt.mk 2024 4 16 18 5 "Cafe" [ReceiptItem.mk "Tea" 300 9] 8],
       ([] ++ new)%list).
Proof.
  apply (proj2 (assembler_groups_rows 2024 4 rows_well_formed eq_refl) eq_refl).
  - discriminate.
  - reflexivity.
Defined.

(* ================================================================== *)
(** * Further properties: the section filter and the table scanner *)
(* ================================================================== *)

Lemma filter_in_section lines :
  exists rest,
    lines = (_filter_payment_section_from true lines ++ rest)%list /\
    Forall (fun l => is_heading l = false)
           (_filter_payment_section_from true lines) /\
    match rest with
    | [] => True
    | l :: _ => is_heading l = true
    end.
Proof.
  induction lines as [|line lines (rest & IH1 & IH2 & IH3)]; simpl.
  - exists []. repeat split. constructor.
  - unfold is_heading at 1 2.
    destruct (startswith "#" (MonthlyReportLine.text line)) eqn:E.
    + exists (line :: lines). repeat split; [constructor | exact E].
    + exists rest. split; [simpl; rewrite <- IH1; reflexivity|].
      split; [constructor; [exact E | exact IH2] | exact IH3].
Qed.

(** X1.  The section filter yields exactly the lines between the first
    line that starts with the expenses heading and the next line that
    starts with [#]: either no line opens the section and nothing is
    yielded, or the input is [pre], the opening line, the yielded
    lines, and a rest that is empty or begins with a heading line.
    Whatever follows that heading, another expenses section included,
    is never yielded. *)
Theorem filter_payment_section_is_first_section :
  forall lines,
    (Forall (fun l => opens_section l = false) lines /\
     _filter_payment_section lines = []) \/
    (exists pre h rest,
        lines = (pre ++ h :: _filter_payment_section lines ++ rest)%list /\
        Forall (fun l => opens_section l = false) pre /\
        opens_section h = true /\
        Forall (fun l => is_heading l = false) (_filter_payment_section lines) /\
        match rest with
        | [] => True
        | l :: _ => is_heading l = true
        end).
Proof.
  unfold _filter_payment_section.
  induction lines as [|line lines IH]; simpl.
  - left. split; constructor.
  - destruct (startswith section_heading (MonthlyReportLine.text line)) eqn:E.
    + right. destruct (filter_in_section lines) as (rest & H1 & H2 & H3).
      exists [], line, rest. simpl. rewrite <- H1.
      repeat split; try assumption. constructor.
    + destruct IH as [[H1 H2] | (pre & h & rest & H1 & H2 & H3 & H4 & H5)].
      * left. split; [constructor; assumption | exact H2].
      * right. exists (line :: pre), h, rest. simpl. rewrite <- H1.
        repeat split; try assumption. constructor; assumption.
Qed.

(** ** The classifier seen from the scanner *)

Lemma row_shape_starts_with_bar w kc ic :
  row_shape w kc ic -> exists w', w = String "|" w'.
Proof.
  intros (a & b & -> & Ha & _). destruct Ha; eexists; reflexivity.
Qed.

Lemma row_reads_numbered n kc ic row :
  row_reads n kc ic row -> numbered n row.
Proof.
  intros (Hl & Hk & Hi). split; [exact Hl|]. split.
  - intros k Ek. unfold key_reads in Hk. rewrite Ek in Hk.
    destruct kc as [[[[d h] m] st]|]; [|destruct Hk]. apply Hk.
  - intros i Ei. unfold item_reads in Hi. rewrite Ei in Hi.
    destruct ic as [[nm p]|]; [|destruct Hi]. apply Hi.
Qed.

Lemma row_reads_unique n kc ic r1 r2 :
  row_reads n kc ic r1 -> row_reads n kc ic r2 -> r1 = r2.
Proof.
  destruct r1 as [k1 i1 l1], r2 as [k2 i2 l2].
  unfold row_reads, key_reads, item_reads. simpl.
  intros (<- & Hk1 & Hi1) (<- & Hk2 & Hi2).
  assert (Hk : k1 = k2).
  { destruct kc as [[[[d h] m] st]|], k1 as [[d1 h1 m1 s1 n1]|],
      k2 as [[d2 h2 m2 s2 n2]|]; try tauto. simpl in *.
    destruct Hk1 as (A1 & B1 & C1 & D1 & E1).
    destruct Hk2 as (A2 & B2 & C2 & D2 & E2).
    congruence. }
  assert (Hi : i1 = i2).
  { destruct ic as [[nm p]|], i1 as [[a1 p1 n1]|], i2 as [[a2 p2 n2]|];
      try tauto. simpl in *.
    destruct Hi1 as (A1 & B1 & C1). destruct Hi2 as (A2 & B2 & C2).
    congruence. }
  subst. reflexivity.
Qed.

(** The row of a line does not depend on the trail. *)
Lemma parse_line_any_trail line tr row tr1 :
  _TableRow.parse_line line tr = (Returned (Some row), tr1) ->
  forall tr', _TableRow.parse_line line tr' = (Returned (Some row), tr').
Proof.
  intros H tr'.
  destruct (parse_line_cases line tr)
    as [(w & rest & kc & ic & r1 & Ht & Hs & Hl & H1 & R1)
       | [(w & rest & kc & ic & _ & _ & _ & H1) | (_ & H1)]];
    rewrite H1 in H; inversion H; subst.
  destruct (parse_line_of_shape line tr' _ _ _ _ Ht Hs Hl) as (r2 & H2 & R2).
  rewrite (row_reads_unique _ _ _ _ _ R1 R2). exact H2.
Qed.

Lemma count_digits_le_app_l a b :
  (count_digits a <= count_digits (a ++ b))%nat.
Proof. rewrite count_digits_app. apply Nat.le_add_r. Qed.

Lemma count_digits_le_app_r a b :
  (count_digits b <= count_digits (a ++ b))%nat.
Proof. rewrite count_digits_app. apply Nat.le_add_l. Qed.

Lemma count_digits_le_cons c s :
  (count_digits s <= count_digits (String c s))%nat.
Proof. simpl. apply Nat.le_add_l. Qed.

(** A front part with a numeral beyond the limit holds more digits
    than the limit. *)
Lemma shape_beyond_limit w kc ic :
  row_shape w kc ic -> ~ shape_within_limit kc ic ->
  (int_max_str_digits < count_digits w)%nat.
Proof.
  intros (a & b & -> & Ha & Hb) Hno.
  assert (Hk : match kc with
               | Some (d, _, _, _) => (count_digits d <= count_digits a)%nat
               | None => True
               end).
  { destruct Ha as [d h m st _ _ _ _|]; [|exact I].
    eapply Nat.le_trans; [apply (count_digits_le_app_l d
                                   ("|" ++ h ++ ":" ++ m ++ "|" ++ st))|].
    apply (count_digits_le_cons "|"). }
  assert (Hi : match ic with
               | Some (_, p) => (count_digits p <= count_digits b)%nat
               | None => True
               end).
  { destruct Hb as [n p _ _|]; [|exact I].
    eapply Nat.le_trans; [apply (count_digits_le_app_l p "|")|].
    eapply Nat.le_trans; [apply (count_digits_le_cons "|")|].
    eapply Nat.le_trans; [apply (count_digits_le_app_r n ("|" ++ p ++ "|"))|].
    apply (count_digits_le_cons "|"). }
  unfold shape_within_limit, within_limit in Hno.
  destruct (Nat.le_gt_cases (count_digits (a ++ b)) int_max_str_digits)
    as [Hle|Hgt]; [|exact Hgt].
  destruct Hno.
  pose proof (count_digits_le_app_l a b) as La.
  pose proof (count_digits_le_app_r a b) as Lb.
  split.
  - destruct kc as [[[[d h] m] st]|]; [|exact I].
    eapply Nat.le_trans; [exact Hk|]. eapply Nat.le_trans; eassumption.
  - destruct ic as [[n p]|]; [|exact I].
    eapply Nat.le_trans; [exact Hi|]. eapply Nat.le_trans; eassumption.
Qed.

Lemma too_many_digits_app line w rest :
  MonthlyReportLine.text line = w ++ rest ->
  (int_max_str_digits < count_digits w)%nat ->
  too_many_digits line.
Proof.
  intros Ht Hw. unfold too_many_digits. rewrite Ht.
  eapply Nat.lt_le_trans; [exact Hw | apply count_digits_le_app_l].
Qed.

Lemma parse_line_outcome line tr :
  (exists row,
      _TableRow.parse_line line tr = (Returned (Some row), tr) /\
      numbered (MonthlyReportLine.line_number line) row /\
      is_heading line = false /\
      MonthlyReportLine.text line <> "") \/
  _TableRow.parse_line line tr =
    (Returned None, (tr ++ [failed_to_parse line])%list) \/
  (_TableRow.parse_line line tr = (Raised ValueError, tr) /\
   too_many_digits line).
Proof.
  destruct (parse_line_cases line tr)
    as [(w & rest & kc & ic & row & Ht & Hs & Hl & Hp & Hr)
       | [(w & rest & kc & ic & Ht & Hs & Hl & Hp) | (_ & Hp)]].
  - left.
    exists row. split; [exact Hp|]. split; [exact (row_reads_numbered _ _ _ _ Hr)|].
    destruct (row_shape_starts_with_bar _ _ _ Hs) as (w' & ->).
    unfold is_heading. rewrite Ht. split; [reflexivity | discriminate].
  - right. right. split; [exact Hp|].
    apply (too_many_digits_app _ _ _ Ht (shape_beyond_limit _ _ _ Hs Hl)).
  - right. left. exact Hp.
Qed.

(** ** One step of the scanner *)

Lemma scan_step_outcome sc line tr P :
  Forall P (all_rows sc) ->
  (forall row,
      (forall tr', _TableRow.parse_line line tr' = (Returned (Some row), tr')) ->
      MonthlyReportLine.text line <> "" ->
      numbered (MonthlyReportLine.line_number line) row ->
      P row) ->
  exists new,
    Forall is_error new /\
    ((exists sc',
         scan_step sc line tr = (Returned sc', (tr ++ new)%list) /\
         Forall P (all_rows sc')) \/
     (scan_step sc line tr = (Raised ValueError, (tr ++ new)%list) /\
      too_many_digits line)).
Proof.
  intros Hall Hrow. unfold scan_step.
  assert (Hclose : Forall P (all_rows (close_table sc))).
  { unfold all_rows, close_table in *. simpl.
    rewrite concat_app. simpl. rewrite !app_nil_r. exact Hall. }
  destruct (state sc).
  - (* header *)
    destruct (MonthlyReportLine.text line =? alignment)%string.
    + exists []. rewrite app_nil_r. split; [constructor|]. left.
      exists (mkScanner St_body (tables sc) (table sc)).
      split; [reflexivity | exact Hall].
    + eexists. split; [|left; exists sc; split; [reflexivity | exact Hall]].
      constructor; [reflexivity | constructor].
  - (* body *)
    destruct (negb (MonthlyReportLine.text line =? "")%string).
    + destruct (parse_line_outcome line tr)
        as [(row & Hp & Hn & _ & Hne) | [Hp | (Hp & Hlong)]].
      * exists []. rewrite app_nil_r. split; [constructor|]. left.
        exists (mkScanner St_body (tables sc) (table sc ++ [row])).
        rewrite (bind_eq _ _ _ _ _ Hp). split; [reflexivity|].
        unfold all_rows in *. simpl. rewrite app_assoc.
        apply Forall_app. split; [exact Hall|].
        constructor; [|constructor].
        apply Hrow; try assumption.
        intros tr'. apply (parse_line_any_trail _ _ _ _ Hp).
      * exists [failed_to_parse line]. split; [|left; exists (close_table sc)].
        -- constructor; [reflexivity | constructor].
        -- rewrite (bind_eq _ _ _ _ _ Hp). split; [reflexivity | exact Hclose].
      * exists []. rewrite app_nil_r. split; [constructor|]. right.
        split; [|exact Hlong]. unfold bind. rewrite Hp. reflexivity.
    + exists []. rewrite app_nil_r. split; [constructor|]. left.
      exists (close_table sc). split; [reflexivity | exact Hclose].
  - (* outer *)
    destruct (MonthlyReportLine.text line =? header)%string.
    + exists []. rewrite app_nil_r. split; [constructor|]. left.
      exists (mkScanner St_header (tables sc) (table sc)).
      split; [reflexivity | exact Hall].
    + exists []. rewrite app_nil_r. split; [constructor|]. left.
      exists sc. split; [reflexivity | exact Hall].
Qed.

Lemma scan_loop_outcome section ls :
  forall sc tr,
    (forall l, In l ls -> In l (_filter_payment_section section)) ->
    Forall (read_from section) (all_rows sc) ->
    exists new,
      Forall is_error new /\
      ((exists sc',
           for_each scan_step ls sc tr = (Returned sc', (tr ++ new)%list) /\
           Forall (read_from section) (all_rows sc')) \/
       (for_each scan_step ls sc tr = (Raised ValueError, (tr ++ new)%list) /\
        Exists too_many_digits ls)).
Proof.
  induction ls as [|line ls IH]; intros sc tr Hin Hall.
  - exists []. rewrite app_nil_r. split; [constructor|]. left.
    exists sc. split; [reflexivity | exact Hall].
  - destruct (scan_step_outcome sc line tr (read_from section) Hall)
      as (n1 & E1 & [(sc1 & H1 & A1) | (H1 & L1)]).
    { intros row Hp Hne Hn. exists line.
      split; [apply Hin; left; reflexivity|].
      split; [exact Hne|]. split; [exact Hp | exact Hn]. }
    + destruct (IH sc1 (tr ++ n1)%list)
        as (n2 & E2 & [(sc2 & H2 & A2) | (H2 & L2)]);
        [intros l Hl; apply Hin; right; exact Hl | exact A1 | |].
      * exists (n1 ++ n2)%list. split; [apply Forall_app; split; assumption|].
        left. exists sc2. simpl.
        rewrite (bind_eq _ _ _ _ _ H1), H2, app_assoc.
        split; [reflexivity | exact A2].
      * exists (n1 ++ n2)%list. split; [apply Forall_app; split; assumption|].
        right. simpl. rewrite (bind_eq _ _ _ _ _ H1), H2, app_assoc.
        split; [reflexivity | apply Exists_cons_tl; exact L2].
    + exists n1. split; [exact E1|]. right. simpl.
      unfold bind. rewrite H1. split; [reflexivity|].
      apply Exists_cons_hd. exact L1.
Qed.

Lemma parse_payment_table_outcome lines tr :
  exists new,
    Forall is_error new /\
    ((exists tbls,
         _parse_payment_table lines tr = (Returned tbls, (tr ++ new)%list) /\
         Forall (Forall (read_from lines)) tbls) \/
     (_parse_payment_table lines tr = (Raised ValueError, (tr ++ new)%list) /\
      Exists too_many_digits (_filter_payment_section lines))).
Proof.
  destruct (scan_loop_outcome lines (_filter_payment_section lines)
                              scanner_init tr)
    as (new & E & [(sc & H & A) | (H & L)]); [auto | constructor | |].
  - exists new. split; [exact E|]. left.
    unfold _parse_payment_table, scan. rewrite (bind_eq _ _ _ _ _ H).
    unfold all_rows in A. apply Forall_app in A. destruct A as [A1 A2].
    assert (Ht : Forall (Forall (read_from lines)) (tables sc)).
    { clear -A1. induction (tables sc) as [|t ts IHt]; [constructor|].
      simpl in A1. apply Forall_app in A1. destruct A1 as [B1 B2].
      constructor; [exact B1 | apply IHt; exact B2]. }
    destruct (table sc) as [|r rs] eqn:Et.
    + exists (tables sc). split; [reflexivity | exact Ht].
    + exists (tables sc ++ [r :: rs])%list. split; [reflexivity|].
      apply Forall_app. split; [exact Ht|]. constructor; [exact A2 | constructor].
  - exists new. split; [exact E|]. right. split; [|exact L].
    unfold _parse_payment_table, scan, bind. rewrite H. reflexivity.
Qed.

Lemma parse_payment_table_returned lines tr tbls tr' :
  _parse_payment_table lines tr = (Returned tbls, tr') ->
  Forall (Forall (read_from lines)) tbls.
Proof.
  intros H.
  destruct (parse_payment_table_outcome lines tr)
    as (new & _ & [(tbls' & H' & A) | (H' & _)]);
    rewrite H' in H; inversion H; subst. exact A.
Qed.

(** The scanner on the report with the price of 4301 digits. *)
Lemma scanner_raises_on_long_price :
  _parse_payment_table report_long_price [] = (Raised ValueError, []).
Proof. vm_compute. reflexivity. Qed.

(** X2.  The table scanner raises nothing but [ValueError], and that
    only when a line of the expenses section holds more than 4300
    digits, the limit of [int]: for every input it either returns a
    list of tables, or it raises [ValueError] and such a line is in the
    section.  In both cases every diagnostic it has emitted has
    severity error. *)
Theorem parse_payment_table_raises_only_beyond_digit_limit :
  forall lines tr,
    exists new,
      Forall is_error new /\
      ((exists tbls,
           _parse_payment_table lines tr = (Returned tbls, (tr ++ new)%list)) \/
       (_parse_payment_table lines tr = (Raised ValueError, (tr ++ new)%list) /\
        Exists too_many_digits (_filter_payment_section lines))).
Proof.
  intros lines tr.
  destruct (parse_payment_table_outcome lines tr)
    as (new & E & [(tbls & H & _) | H]).
  - exists new. split; [exact E|]. left. exists tbls. exact H.
  - exists new. split; [exact E|]. right. exact H.
Qed.

(** X3.  Every row of every table the scanner returns is what the
    classifier reads from a line of the input that lies inside the
    expenses section and has a non-empty text; the line number of the
    row, of its key and of its item is the number of that line. *)
Theorem parse_payment_table_rows_come_from_lines :
  forall lines tr tbls tr',
    _parse_payment_table lines tr = (Returned tbls, tr') ->
    Forall (Forall (read_from lines)) tbls.
Proof.
  intros lines tr tbls tr' H.
  destruct (parse_payment_table_outcome lines tr)
    as (new & _ & [(tbls' & H' & A) | (H' & _)]);
    rewrite H' in H; inversion H; subst. exact A.
Qed.

(** The tables of the report with the rejected line. *)
Lemma parse_payment_table_rows_come_from_lines_witness :
  exists tbls tr',
    _parse_payment_table report_broken_row [] = (Returned tbls, tr') /\
    Forall (Forall (read_from report_broken_row)) tbls.
Proof.
  eexists. eexists. split.
  - vm_compute. reflexivity.
  - eapply (parse_payment_table_rows_come_from_lines report_broken_row []).
    vm_compute. reflexivity.
Defined.

(** ** Where a table ends *)

Lemma scan_outer_ignores ls :
  forall sc tr,
    state sc = St_outer ->
    Forall (fun l => MonthlyReportLine.text l <> header) ls ->
    for_each scan_step ls sc tr = (Returned sc, tr).
Proof.
  induction ls as [|l ls IH]; intros sc tr Hs Hl; simpl.
  - reflexivity.
  - inversion Hl as [|? ? Hne Hrest]; subst.
    assert (H1 : scan_step sc l tr = (Returned sc, tr)).
    { unfold scan_step. rewrite Hs.
      apply String.eqb_neq in Hne. rewrite Hne. reflexivity. }
    rewrite (bind_eq _ _ _ _ _ H1). apply IH; assumption.
Qed.

(** X4.  A non-empty line that the classifier rejects, met in a table
    body, ends the table: the rows captured so far are closed as a
    table, the line itself is dropped, and the scanner is back outside
    any table.  From there it ignores every line, well-formed rows
    included, until the next table-header line, without a diagnostic. *)
Theorem rejected_line_ends_table :
  forall sc line tr,
    state sc = St_body ->
    MonthlyReportLine.text line <> "" ->
    _TableRow.parse_line line tr =
      (Returned None, (tr ++ [failed_to_parse line])%list) ->
    scan_step sc line tr =
      (Returned (close_table sc), (tr ++ [failed_to_parse line])%list) /\
    forall ls tr2,
      Forall (fun l => MonthlyReportLine.text l <> header) ls ->
      for_each scan_step ls (close_table sc) tr2 =
        (Returned (close_table sc), tr2).
Proof.
  intros sc line tr Hs Hne Hp. split.
  - unfold scan_step. rewrite Hs.
    apply String.eqb_neq in Hne. rewrite Hne. simpl.
    rewrite (bind_eq _ _ _ _ _ Hp). reflexivity.
  - intros ls tr2 Hl. apply scan_outer_ignores; [reflexivity | exact Hl].
Qed.

(** A body holding one row meets the line [| 16 |10:00|Cafe|Tea|300|];
    the row after it is ignored. *)
Lemma rejected_line_ends_table_witness :
  scan_step (mkScanner St_body [] [_TableRow.mk None None 4])
            (MonthlyReportLine.mk "| 16 |10:00|Cafe|Tea|300|" 6) [] =
    (Returned (mkScanner St_outer [[_TableRow.mk None None 4]] []),
     [failed_to_parse (MonthlyReportLine.mk "| 16 |10:00|Cafe|Tea|300|" 6)]) /\
  forall ls tr2,
    Forall (fun l => MonthlyReportLine.text l <> header) ls ->
    for_each scan_step ls
             (close_table (mkScanner St_body [] [_TableRow.mk None None 4])) tr2 =
      (Returned (close_table (mkScanner St_body [] [_TableRow.mk None None 4])),
       tr2).
Proof.
  apply (rejected_line_ends_table
           (mkScanner St_body [] [_TableRow.mk None None 4])
           (MonthlyReportLine.mk "| 16 |10:00|Cafe|Tea|300|" 6) []).
  - reflexivity.
  - simpl. discriminate.
  - vm_compute. reflexivity.
Defined.

Lemma filter_in_section_all ls :
  Forall (fun l => is_heading l = false) ls ->
  _filter_payment_section_from true ls = ls.
Proof.
  induction 1 as [|l ls Hl _ IH]; simpl; [reflexivity|].
  unfold is_heading in Hl. rewrite Hl, IH. reflexivity.
Qed.

Lemma classify_cons l ls r rs tr :
  classify (l :: ls) tr = (Returned (map Some (r :: rs)), tr) ->
  _TableRow.parse_line l tr = (Returned (Some r), tr) /\
  classify ls tr = (Returned (map Some rs), tr).
Proof.
  simpl. intros H.
  destruct (parse_line_outcome l tr) as [(row & Hp & _) | [Hp | (Hp & _)]].
  - rewrite (bind_eq _ _ _ _ _ Hp) in H. returns.
    match goal with F : _ :: _ = _ :: _ |- _ => inversion F; subst end.
    split; [exact Hp | assumption].
  - rewrite (bind_eq _ _ _ _ _ Hp) in H. returns.
    match goal with F : _ :: _ = _ :: _ |- _ => inversion F end.
  - unfold bind in H. rewrite Hp in H. discriminate H.
Qed.

Lemma classify_length ls :
  forall rows tr,
    classify ls tr = (Returned (map Some rows), tr) ->
    List.length ls = List.length rows.
Proof.
  induction ls as [|l ls IH]; intros rows tr H.
  - simpl in H. returns. destruct rows; [reflexivity | discriminate].
  - destruct rows as [|r rs].
    + simpl in H. returns. discriminate.
    + apply classify_cons in H. destruct H as [_ H].
      simpl. rewrite (IH _ _ H). reflexivity.
Qed.

Lemma classified_not_heading ls :
  forall rows tr,
    classify ls tr = (Returned (map Some rows), tr) ->
    Forall (fun l => is_heading l = false) ls.
Proof.
  induction ls as [|l ls IH]; intros rows tr H; [constructor|].
  destruct rows as [|r rs].
  - simpl in H. returns. discriminate.
  - apply classify_cons in H. destruct H as [Hp H].
    constructor; [|apply (IH _ _ H)].
    destruct (parse_line_outcome l tr)
      as [(row & _ & _ & Hh & _) | [Hn | (Hn & _)]];
      [exact Hh | |]; rewrite Hn in Hp; discriminate Hp.
Qed.

Lemma scan_body_rows ls :
  forall rows sc tr,
    state sc = St_body ->
    classify ls tr = (Returned (map Some rows), tr) ->
    for_each scan_step ls sc tr =
      (Returned (mkScanner St_body (tables sc) (table sc ++ rows)), tr).
Proof.
  induction ls as [|l ls IH]; intros rows sc tr Hs H.
  - simpl in H. returns. destruct rows; [|discriminate].
    simpl. rewrite app_nil_r. destruct sc; simpl in *. subst. reflexivity.
  - destruct rows as [|r rs]; [simpl in H; returns; discriminate|].
    apply classify_cons in H. destruct H as [Hp H].
    assert (Hne : MonthlyReportLine.text l <> "").
    { destruct (parse_line_outcome l tr)
        as [(row & _ & _ & _ & Hne) | [Hn | (Hn & _)]];
        [exact Hne | |]; rewrite Hn in Hp; discriminate Hp. }
    assert (H1 : scan_step sc l tr =
                 (Returned (mkScanner St_body (tables sc) (table sc ++ [r])), tr)).
    { unfold scan_step. rewrite Hs.
      apply String.eqb_neq in Hne. rewrite Hne. simpl.
      rewrite (bind_eq _ _ _ _ _ Hp). reflexivity. }
    simpl. rewrite (bind_eq _ _ _ _ _ H1).
    rewrite (IH rs (mkScanner St_body (tables sc) (table sc ++ [r])%list) tr
                eq_refl H). simpl.
    rewrite <- app_assoc. reflexivity.
Qed.

Lemma filter_after_heading line body :
  opens_section line = true ->
  Forall (fun l => is_heading l = false) body ->
  _filter_payment_section (line :: body) = body.
Proof.
  unfold _filter_payment_section, opens_section. intros H Hb.
  simpl. rewrite H. apply filter_in_section_all. exact Hb.
Qed.

Lemma for_each_scan_app l1 :
  forall l2 sc t,
    for_each scan_step (l1 ++ l2)%list sc t =
    bind (for_each scan_step l1 sc) (fun s => for_each scan_step l2 s) t.
Proof.
  induction l1 as [|x l1 IHl]; intros l2 sc t; simpl; [reflexivity|].
  unfold bind. destruct (scan_step sc x t) as [[s|e] t1];
    [rewrite IHl; reflexivity | reflexivity].
Qed.

(** Scanning the opening of a table block and its rows leaves the
    scanner in the body, holding the rows. *)
Lemma scan_block rowlines rows n0 nh na tail tr :
  classify rowlines tr = (Returned (map Some rows), tr) ->
  Forall (fun l => is_heading l = false) tail ->
  scan ([MonthlyReportLine.mk section_heading n0;
         MonthlyReportLine.mk header nh;
         MonthlyReportLine.mk alignment na] ++ rowlines ++ tail)%list tr =
  for_each scan_step tail (mkScanner St_body [] rows) tr.
Proof.
  intros H Ht.
  pose proof (classified_not_heading _ _ _ H) as Hh.
  unfold scan.
  change ([MonthlyReportLine.mk section_heading n0;
           MonthlyReportLine.mk header nh;
           MonthlyReportLine.mk alignment na] ++ rowlines ++ tail)%list
    with (MonthlyReportLine.mk section_heading n0
          :: (MonthlyReportLine.mk header nh
              :: MonthlyReportLine.mk alignment na :: (rowlines ++ tail)%list)).
  rewrite filter_after_heading;
    [| reflexivity
     | constructor; [reflexivity|]; constructor; [reflexivity|];
       apply Forall_app; split; assumption].
  assert (H1 : scan_step scanner_init (MonthlyReportLine.mk header nh) tr =
               (Returned (mkScanner St_header [] []), tr)) by reflexivity.
  assert (H2 : scan_step (mkScanner St_header [] [])
                         (MonthlyReportLine.mk alignment na) tr =
               (Returned (mkScanner St_body [] []), tr)) by reflexivity.
  cbn [for_each].
  rewrite (bind_eq _ _ _ _ _ H1), (bind_eq _ _ _ _ _ H2).
  rewrite for_each_scan_app.
  rewrite (bind_eq _ _ _ _ _
             (scan_body_rows rowlines rows (mkScanner St_body [] []) tr
                             eq_refl H)).
  reflexivity.
Qed.

(** X5.  A well-formed table block is captured as one table.  When the
    expenses heading is followed by the header line, the alignment line
    and lines that the classifier reads as the rows [rows], a blank
    line closes the table and the scanner returns exactly [[rows]]
    without a diagnostic (the empty table when there is no row); at
    the end of the input the rows are returned as a table only when
    there is at least one. *)
Theorem table_block_is_one_table :
  forall rowlines rows n0 nh na nb tr,
    classify rowlines tr = (Returned (map Some rows), tr) ->
    let opening := [MonthlyReportLine.mk section_heading n0;
                    MonthlyReportLine.mk header nh;
                    MonthlyReportLine.mk alignment na] in
    _parse_payment_table
      (opening ++ rowlines ++ [MonthlyReportLine.mk "" nb])%list tr =
      (Returned [rows], tr) /\
    _parse_payment_table (opening ++ rowlines)%list tr =
      (Returned (match rows with [] => [] | _ :: _ => [rows] end), tr).
Proof.
  intros rowlines rows n0 nh na nb tr H opening. split.
  - unfold _parse_payment_table, bind, opening.
    rewrite (scan_block _ _ _ _ _ [MonthlyReportLine.mk "" nb] _ H)
      by (constructor; [reflexivity | constructor]).
    reflexivity.
  - unfold _parse_payment_table, bind, opening.
    pose proof (scan_block _ _ n0 nh na [] _ H (Forall_nil _)) as Hs.
    rewrite app_nil_r in Hs. rewrite Hs. simpl. destruct rows; reflexivity.
Qed.

(** A block of an empty row and a row with key and item. *)
Lemma table_block_is_one_table_witness :
  _parse_payment_table
    ([MonthlyReportLine.mk section_heading 1; MonthlyReportLine.mk header 2;
      MonthlyReportLine.mk alignment 3]
     ++ body_lines_sample ++ [MonthlyReportLine.mk "" 6])%list [] =
    (Returned
       [[_TableRow.mk None None 4;
         _TableRow.mk (Some (_TableKey.mk 15 9 30 "Store" 5))
                      (Some (ReceiptItem.mk "Widget" 500 5)) 5]], []).
Proof.
  apply (proj1 (table_block_is_one_table
                  body_lines_sample
                  [_TableRow.mk None None 4;
                   _TableRow.mk (Some (_TableKey.mk 15 9 30 "Store" 5))
                                (Some (ReceiptItem.mk "Widget" 500 5)) 5]
                  1 2 3 6 [] eq_refl)).
Defined.

(* ================================================================== *)
(** * Further properties: the receipt assembler *)
(* ================================================================== *)

Lemma validate_order_iff self c i its dt tr :
  Receipt.items c = i :: its ->
  Receipt.datetime c = Some dt ->
  Forall (fun r => Receipt.datetime r <> None) (_receipts self) ->
  exists new,
    validate_order self c tr = (Returned tt, (tr ++ new)%list) /\
    (emitted WARNING "wrong order: " new <->
       exists prev pd,
         index_last (_receipts self) = Some prev /\
         Receipt.datetime prev = Some pd /\
         DateTime.gtb pd dt = true).
Proof.
  intros Hi Hdt Hall. unfold validate_order.
  destruct (_receipts self) as [|r0 rs0] eqn:E.
  - exists []. rewrite app_nil_r. split; [reflexivity|].
    split; [intros H; destruct (emitted_nil _ _ H)|].
    intros (prev & pd & H & _). discriminate H.
  - destruct (index_last_some (r0 :: rs0)) as (prev & Hprev & Hin);
      [discriminate|].
    rewrite Forall_forall in Hall. specialize (Hall _ Hin).
    destruct (Receipt.datetime prev) as [pd|] eqn:Epd; [|congruence].
    unfold bind, datetime_of. rewrite Hprev. simpl. rewrite Epd, Hdt. simpl.
    destruct (DateTime.gtb pd dt) eqn:Eg.
    + destruct (warn_first_items "wrong order: " c i its tr Hi) as (msg & Hw).
      rewrite Hw. eexists. split; [reflexivity|].
      split; [intros _; exists prev, pd; repeat split; assumption|].
      intros _. apply emitted_one.
    + exists []. rewrite app_nil_r. split; [reflexivity|].
      split; [intros H; destruct (emitted_nil _ _ H)|].
      intros (p & d & Hp & Hd & Hg). inversion Hp; subst.
      rewrite Epd in Hd. inversion Hd; subst. congruence.
Qed.

(** X6.  When a candidate receipt with a valid date and at least one
    item is flushed, the warning [wrong order] is emitted exactly when a
    receipt was closed before in this table and its timestamp is
    strictly later than the candidate's; in either case the candidate
    is appended to the closed receipts (disorder is reported, not
    repaired and not dropped). *)
Theorem wrong_order_is_reported_and_kept :
  forall self k tr,
    _table_key self = Some k ->
    _table_items self <> [] ->
    (exists dt, Receipt.datetime (candidate self k) = Some dt) ->
    Forall (fun r => Receipt.datetime r <> None) (_receipts self) ->
    exists new,
      _push_receipt self tr = (Returned (flushed self), (tr ++ new)%list) /\
      (emitted WARNING "wrong order: " new <->
         exists prev pd dt,
           index_last (_receipts self) = Some prev /\
           Receipt.datetime prev = Some pd /\
           Receipt.datetime (candidate self k) = Some dt /\
           DateTime.ltb dt pd = true) /\
      _receipts (flushed self) = (_receipts self ++ [candidate self k])%list.
Proof.
  intros self k tr Hk Hi (dt & Hdt) Hall.
  destruct (_table_items self) as [|i its] eqn:Ei; [congruence|]. clear Hi.
  set (self0 := set_table_items (set_table_key self None) []).
  assert (Hc : Receipt.items (candidate self k) = i :: its)
    by (unfold candidate; simpl; exact Ei).
  destruct (validate_order_iff self0 _ i its dt tr Hc Hdt Hall)
    as (n1 & Ho & Hn1).
  destruct (validate_empty_row_trail self0 _ i its dt (tr ++ n1)%list Hc Hdt Hall)
    as (n2 & He & _ & _ & Hn2).
  exists (n1 ++ n2)%list. split; [|split].
  - unfold _push_receipt, flushed. rewrite Hk, Hdt. fold self0.
    rewrite (bind_eq _ _ _ _ _ Ho), (bind_eq _ _ _ _ _ He).
    rewrite app_assoc. reflexivity.
  - rewrite emitted_app, Hn1. simpl. split.
    + intros [(prev & pd & H1 & H2 & H3) | H]; [|destruct (Hn2 H)].
      exists prev, pd, dt. repeat split; assumption.
    + intros (prev & pd & dt' & H1 & H2 & H3 & H4). left.
      rewrite Hdt in H3. inversion H3; subst.
      exists prev, pd. repeat split; assumption.
  - unfold flushed. rewrite Hk, Hdt. reflexivity.
Qed.

(** The receipt of the 10th is closed after the one of the 30th. *)
Lemma wrong_order_is_reported_and_kept_witness :
  exists new,
    _push_receipt parser_day_goes_back [] =
      (Returned (flushed parser_day_goes_back), ([] ++ new)%list) /\
    (emitted WARNING "wrong order: " new <->
       exists prev pd dt,
         index_last (_receipts parser_day_goes_back) = Some prev /\
         Receipt.datetime prev = Some pd /\
         Receipt.datetime
           (candidate parser_day_goes_back (_TableKey.mk 10 9 30 "Store" 7))
           = Some dt /\
         DateTime.ltb dt pd = true) /\
    _receipts (flushed parser_day_goes_back) =
      (_receipts parser_day_goes_back
       ++ [candidate parser_day_goes_back (_TableKey.mk 10 9 30 "Store" 7)])%list.
Proof.
  apply (wrong_order_is_reported_and_kept
           parser_day_goes_back (_TableKey.mk 10 9 30 "Store" 7) []).
  - reflexivity.
  - simpl. discriminate.
  - eexists. vm_compute. reflexivity.
  - constructor; [vm_compute; discriminate | constructor].
Defined.



(** ** The records a run emits *)

Lemma warn_first_returned prefix receipt u tr tr' :
  warn_first prefix receipt tr = (Returned u, tr') ->
  exists msg, tr' = (tr ++ [(WARNING, (prefix ++ msg)%string)])%list.
Proof.
  unfold warn_first, _first_position_message. intros H.
  returns. subst. eexists. reflexivity.
Qed.

Lemma before_result_wrong_order msg :
  before_result (WARNING, "wrong order: " ++ msg).
Proof. intros m H. simpl in H. discriminate H. Qed.

Lemma before_result_need_before msg :
  before_result (WARNING, "need an empty row before: " ++ msg).
Proof. intros m H. simpl in H. discriminate H. Qed.

Lemma before_result_need_not msg :
  before_result (WARNING, "need not an empty row before: " ++ msg).
Proof. intros m H. simpl in H. discriminate H. Qed.

Lemma before_result_consecutive y m n :
  before_result (consecutive_empty_record y m n).
Proof. intros msg H. unfold consecutive_empty_record in H. simpl in H. discriminate H. Qed.

Lemma before_result_error msg : before_result (ERROR, msg).
Proof. intros m H. discriminate H. Qed.

Lemma validate_order_returned self c u tr tr' :
  validate_order self c tr = (Returned u, tr') ->
  exists new, tr' = (tr ++ new)%list /\ Forall before_result new.
Proof.
  unfold validate_order, datetime_of. destruct (_receipts self).
  - intros H. returns. subst. exists []. rewrite app_nil_r.
    split; [reflexivity | constructor].
  - intros H. returns. subst.
    match goal with
    | F : (if ?b then _ else _) _ = _ |- _ => destruct b
    end.
    + apply warn_first_returned in H. destruct H as (msg & ->).
      eexists. split; [reflexivity|].
      constructor; [apply before_result_wrong_order | constructor].
    + returns. subst. exists []. rewrite app_nil_r.
      split; [reflexivity | constructor].
Qed.

Lemma validate_empty_row_returned self c u tr tr' :
  validate_empty_row self c tr = (Returned u, tr') ->
  exists new, tr' = (tr ++ new)%list /\ Forall before_result new.
Proof.
  assert (Hnone : forall t t' (v : unit),
             ret tt t = (Returned v, t') ->
             exists new, t' = (t ++ new)%list /\ Forall before_result new).
  { intros t t' v H. returns. subst. exists []. rewrite app_nil_r.
    split; [reflexivity | constructor]. }
  assert (Hb : forall t t' (v : unit),
             warn_first "need an empty row before: " c t = (Returned v, t') ->
             exists new, t' = (t ++ new)%list /\ Forall before_result new).
  { intros t t' v H. apply warn_first_returned in H. destruct H as (msg & ->).
    eexists. split; [reflexivity|].
    constructor; [apply before_result_need_before | constructor]. }
  assert (Hn : forall t t' (v : unit),
             warn_first "need not an empty row before: " c t = (Returned v, t') ->
             exists new, t' = (t ++ new)%list /\ Forall before_result new).
  { intros t t' v H. apply warn_first_returned in H. destruct H as (msg & ->).
    eexists. split; [reflexivity|].
    constructor; [apply before_result_need_not | constructor]. }
  unfold validate_empty_row, datetime_of. destruct (_receipts self).
  - destruct (negb (_is_before_key_empty self)); intros H; eauto.
  - intros H. returns. subst.
    match goal with
    | F : (if ?b then _ else _) _ = _ |- _ => destruct b
    end.
    + destruct (negb (_is_before_key_empty self)); eauto.
    + destruct (_is_before_key_empty self); eauto.
Qed.

Lemma push_receipt_returned_trail self tr self' tr' :
  _push_receipt self tr = (Returned self', tr') ->
  exists new, tr' = (tr ++ new)%list /\ Forall before_result new.
Proof.
  unfold _push_receipt, _first_position_message.
  destruct (_table_key self) as [k|].
  - destruct (Receipt.datetime (candidate self k)).
    + intros H. returns. subst.
      repeat match goal with
      | F : validate_order _ _ _ = _ |- _ =>
          apply validate_order_returned in F; destruct F as (n1 & -> & F1)
      | F : validate_empty_row _ _ _ = _ |- _ =>
          apply validate_empty_row_returned in F; destruct F as (n2 & -> & F2)
      end.
      exists (n1 ++ n2)%list. rewrite app_assoc.
      split; [reflexivity | apply Forall_app; split; assumption].
    + destruct (Receipt.datetime_error (candidate self k)); intros H;
        try discriminate H.
      returns. subst. eexists. split; [reflexivity|].
      constructor; [apply before_result_error | constructor].
  - intros H. returns. subst. exists []. rewrite app_nil_r.
    split; [reflexivity | constructor].
Qed.

Lemma push_returned_trail self row tr self' tr' :
  push self row tr = (Returned self', tr') ->
  exists new, tr' = (tr ++ new)%list /\ Forall before_result new.
Proof.
  unfold push. destruct (_TableRow.is_empty row).
  - intros H. returns. subst.
    match goal with F : _push_receipt _ _ = _ |- _ =>
      apply push_receipt_returned_trail in F; destruct F as (n2 & -> & F2) end.
    destruct (_is_last_empty self); returns; subst.
    + eexists. rewrite <- app_assoc. split; [reflexivity|].
      constructor; [apply before_result_consecutive | exact F2].
    + exists n2. split; [reflexivity | exact F2].
  - intros H. returns. subst.
    destruct (_TableRow.key row); returns; subst.
    + match goal with F : _push_receipt _ _ = _ |- _ =>
        apply push_receipt_returned_trail in F; exact F end.
    + exists []. rewrite app_nil_r. split; [reflexivity | constructor].
Qed.

Lemma for_each_push_returned_trail rows :
  forall self tr self' tr',
    for_each push rows self tr = (Returned self', tr') ->
    exists new, tr' = (tr ++ new)%list /\ Forall before_result new.
Proof.
  induction rows as [|row rows IH]; intros self tr self' tr' H; simpl in H.
  - returns. subst. exists []. rewrite app_nil_r.
    split; [reflexivity | constructor].
  - returns.
    match goal with F : push _ _ _ = _ |- _ =>
      apply push_returned_trail in F; destruct F as (n1 & -> & F1) end.
    apply IH in H. destruct H as (n2 & -> & F2).
    exists (n1 ++ n2)%list. rewrite app_assoc.
    split; [reflexivity | apply Forall_app; split; assumption].
Qed.



Lemma before_result_not_emitted l :
  Forall before_result l -> ~ emitted WARNING "need an empty row after: " l.
Proof.
  intros H (msg & Hin). rewrite Forall_forall in H.
  exact (H _ Hin msg eq_refl).
Qed.

(** X9.  Whenever the assembler returns for a table, the warning
    [need an empty row after] is among the records it emitted exactly
    when the last row of the table is not an empty row. *)
Theorem missing_final_empty_row_is_reported :
  forall year month rows tr rs tr',
    run year month rows tr = (Returned rs, tr') ->
    exists new,
      tr' = (tr ++ new)%list /\
      (emitted WARNING "need an empty row after: " new <->
         exists row, index_last rows = Some row /\
                     _TableRow.is_empty row = false).
Proof.
  intros year month rows tr rs tr' H.
  destruct (index_last rows) as [last|] eqn:Elast.
  2: { destruct rows as [|r rows].
       - unfold run, result, bind in H. simpl in H. discriminate H.
       - destruct (index_last_some (r :: rows)) as (z & Hz & _);
           [discriminate | congruence]. }
  unfold run in H. returns.
  match goal with F : for_each push _ _ _ = _ |- _ =>
    pose proof (for_each_push_pushed _ _ _ _ _ F) as Hself;
    apply for_each_push_returned_trail in F; destruct F as (n1 & -> & F1) end.
  destruct (fold_pushed_shape year month rows) as (_ & _ & Hle & _).
  rewrite <- Hself, Elast in Hle. clear Hself.
  unfold result in H. returns. subst.
  match goal with F : _push_receipt _ _ = _ |- _ =>
    pose proof (push_receipt_flushed _ _ _ _ F) as Hf;
    apply push_receipt_returned_trail in F; destruct F as (n2 & -> & F2) end.
  destruct (flushed_fields x) as (_ & _ & Hsame & _).
  subst.
  destruct (_is_last_empty (flushed x)) eqn:El; simpl in *; returns; subst.
  - exists (n1 ++ n2)%list. rewrite app_assoc. split; [reflexivity|].
    split.
    + intros He. apply emitted_app in He.
      destruct He as [He|He];
        [destruct (before_result_not_emitted _ F1 He)
        | destruct (before_result_not_emitted _ F2 He)].
    + intros (row & Hr & Hne). inversion Hr; subst. congruence.
  - unfold _last_position_message in *. returns. subst.
    eexists. rewrite <- !app_assoc. split; [reflexivity|].
    split.
    + intros _. exists last. split; [reflexivity | congruence].
    + intros _. rewrite !emitted_app. right. right.
      eexists. left. reflexivity.
Qed.

(** The rows that end with the key row of line 5. *)
Lemma missing_final_empty_row_is_reported_witness :
  exists rs tr' new,
    run 2024 4 rows_open_end [] = (Returned rs, tr') /\
    tr' = ([] ++ new)%list /\
    (emitted WARNING "need an empty row after: " new <->
       exists row, index_last rows_open_end = Some row /\
                   _TableRow.is_empty row = false).
Proof.
  eexists. eexists.
  assert (H : run 2024 4 rows_open_end [] =
              (Returned
                 [Receipt.mk 2024 4 15 9 30 "Store"
                             [ReceiptItem.mk "Widget" 500 5] 5],
               [(WARNING,
                 "need an empty row after: |15|09:30|Store|Widget|500| at 2024/04.md:5")]))
    by (vm_compute; reflexivity).
  destruct (missing_final_empty_row_is_reported 2024 4 rows_open_end [] _ _ H)
    as (new & H1 & H2).
  exists new. split; [exact H|]. split; assumption.
Defined.

(** ** Where the receipts come from *)

Lemma assembled_from_incl rows rows' r :
  (forall row, In row rows -> In row rows') ->
  assembled_from rows r -> assembled_from rows' r.
Proof.
  intros Hin [(row & k & H1 & H2) Hi]. split.
  - exists row, k. split; [apply Hin; exact H1 | exact H2].
  - intros i Hi'. destruct (Hi i Hi') as (row' & R1 & R2).
    exists row'. split; [apply Hin; exact R1 | exact R2].
Qed.

Lemma flushed_drawn rows self :
  drawn_from rows self -> drawn_from rows (flushed self).
Proof.
  intros (Hr & Hk & Hi). unfold flushed.
  destruct (_table_key self) as [k|] eqn:Ek.
  - destruct (Hk k eq_refl) as (row & R1 & R2).
    destruct (Receipt.datetime (candidate self k)).
    + split; [|split].
      * simpl. apply Forall_app. split; [exact Hr|].
        constructor; [|constructor]. split; [|exact Hi].
        exists row, k. repeat split; assumption.
      * simpl. intros k0 H0. discriminate H0.
      * simpl. intros i0 [].
    + split; [exact Hr|]. split; simpl; [intros k0 H0; discriminate H0|].
      intros i0 [].
  - split; [exact Hr|]. split; [|exact Hi].
    intros k0 H0. rewrite Ek in H0. discriminate H0.
Qed.

Lemma pushed_drawn rows self row :
  In row rows -> drawn_from rows self -> drawn_from rows (pushed self row).
Proof.
  intros Hin Hd. pose proof (flushed_drawn _ _ Hd) as (Fr & Fk & Fi).
  destruct Hd as (Hr & Hk & Hi).
  unfold pushed. destruct (_TableRow.is_empty row).
  - split; [exact Fr|]. split; [exact Fk | exact Fi].
  - destruct (_TableRow.key row) as [k'|] eqn:Ek;
      destruct (_TableRow.item row) as [i'|] eqn:Ei; simpl.
    + split; [exact Fr|]. split.
      * intros k0 H0. inversion H0; subst. exists row. split; assumption.
      * intros i0 H0. apply in_app_or in H0. destruct H0 as [H0|[H0|[]]].
        -- apply Fi. exact H0.
        -- subst. exists row. split; assumption.
    + split; [exact Fr|]. split; [|exact Fi].
      intros k0 H0. inversion H0; subst. exists row. split; assumption.
    + split; [exact Hr|]. split; [exact Hk|].
      intros i0 H0. apply in_app_or in H0. destruct H0 as [H0|[H0|[]]].
      * apply Hi. exact H0.
      * subst. exists row. split; assumption.
    + split; [exact Hr|]. split; [exact Hk | exact Hi].
Qed.

Lemma fold_pushed_drawn rows l :
  forall self,
    (forall row, In row l -> In row rows) ->
    drawn_from rows self -> drawn_from rows (fold_left pushed l self).
Proof.
  induction l as [|row l IH]; intros self Hin Hd; simpl; [exact Hd|].
  apply IH; [intros r Hr; apply Hin; right; exact Hr|].
  apply pushed_drawn; [apply Hin; left; reflexivity | exact Hd].
Qed.

Lemma run_assembled_from year month rows tr rs tr' :
  run year month rows tr = (Returned rs, tr') ->
  Forall (assembled_from rows) rs.
Proof.
  intros H. apply run_flushed in H. subst rs.
  apply flushed_drawn, fold_pushed_drawn; [auto|].
  split; [constructor|]. split; simpl; [intros; discriminate | intros ? []].
Qed.

Lemma assembled_read_from lines rows r :
  Forall (read_from lines) rows ->
  assembled_from rows r -> receipt_read_from lines r.
Proof.
  intros Hrows [(row & k & Hin & Hk & Hd & Hh & Hm & Hs & Hl) Hi].
  rewrite Forall_forall in Hrows. split.
  - destruct (Hrows _ Hin) as (line & L1 & _ & L2 & (_ & Nk & _)).
    exists line, row, k. repeat split; try assumption.
    rewrite Hl. apply Nk. exact Hk.
  - intros i Hi'. destruct (Hi i Hi') as (row' & R1 & R2).
    destruct (Hrows _ R1) as (line & L1 & _ & L2 & (_ & _ & Ni)).
    exists line, row'. repeat split; try assumption.
    apply Ni. exact R2.
Qed.

Lemma assemble_loop_read_from year month lines tbls :
  forall acc tr rs tr',
    Forall (Forall (read_from lines)) tbls ->
    Forall (receipt_read_from lines) acc ->
    for_each (fun receipts table =>
                rs <- run year month table ;; ret (receipts ++ rs)%list)
             tbls acc tr = (Returned rs, tr') ->
    Forall (receipt_read_from lines) rs.
Proof.
  induction tbls as [|tb tbls IH]; intros acc tr rs tr' Ht Hacc H; simpl in H.
  - returns. subst. exact Hacc.
  - inversion Ht as [|? ? Htb Hrest]; subst. returns. subst.
    match goal with F : run _ _ _ _ = _ |- _ =>
      apply run_assembled_from in F; rename F into Ha end.
    apply (IH _ _ _ _ Hrest) in H; [exact H|].
    apply Forall_app. split; [exact Hacc|].
    eapply Forall_impl; [|exact Ha].
    intros r. apply assembled_read_from. exact Htb.
Qed.

(** X10.  Nothing in the result of [parse_payment] is invented: every
    receipt returned carries the number of a line of the expenses
    section, its day, hour, minute and store are the key the classifier
    reads from that line, and each of its items is the item the
    classifier reads from the section line whose number the item
    carries. *)
Theorem parse_payment_receipts_come_from_lines :
  forall year month lines tr rs tr',
    parse_payment year month lines tr = (Returned rs, tr') ->
    Forall (receipt_read_from lines) rs.
Proof.
  intros year month lines tr rs tr' H.
  unfold parse_payment in H. returns.
  destruct (sort_by_datetime_returned _ _ _ _ H) as (_ & Hp & _ & _).
  apply (Permutation_Forall Hp).
  match goal with F : assemble _ _ _ _ = _ |- _ =>
    unfold assemble in F; rename F into Ha end.
  returns.
  match goal with F : _parse_payment_table _ _ = _ |- _ =>
    pose proof (parse_payment_table_returned _ _ _ _ F) as Hr end.
  apply (assemble_loop_read_from _ _ _ _ _ _ _ _ Hr (Forall_nil _) Ha).
Qed.

(** The receipts of the report with two tables. *)
Lemma parse_payment_receipts_come_from_lines_witness :
  exists rs tr',
    parse_payment 2024 4 report_two_tables [] = (Returned rs, tr') /\
    Forall (receipt_read_from report_two_tables) rs.
Proof.
  eexists. eexists. split.
  - vm_compute. reflexivity.
  - eapply (parse_payment_receipts_come_from_lines 2024 4 report_two_tables []).
    vm_compute. reflexivity.
Defined.

(* ================================================================== *)
(** * Further properties: rendering and reading back *)
(* ================================================================== *)

Lemma enumerate_app n a b :
  enumerate n (a ++ b)%list =
  (enumerate n a ++ enumerate (n + Z.of_nat (List.length a)) b)%list.
Proof.
  revert n. induction a as [|x a IH]; intros n.
  - simpl. rewrite Z.add_0_r. reflexivity.
  - change (enumerate n ((x :: a) ++ b)%list)
      with (MonthlyReportLine.mk x n :: enumerate (n + 1) (a ++ b)%list).
    rewrite IH.
    replace (n + Z.of_nat (List.length (x :: a)))
      with (n + 1 + Z.of_nat (List.length a))
      by (change (List.length (x :: a)) with (S (List.length a)); lia).
    reflexivity.
Qed.

Lemma index_last_cons {A} (x : A) l :
  l <> [] -> index_last (x :: l) = index_last l.
Proof.
  intros Hne. destruct (exists_last Hne) as (l' & z & ->).
  unfold index_last. simpl. rewrite rev_app_distr. reflexivity.
Qed.

Lemma enumerate_last n x l :
  exists text,
    index_last (enumerate n (x :: l)) =
    Some (MonthlyReportLine.mk text (n + Z.of_nat (List.length l))).
Proof.
  revert n x. induction l as [|y l IH]; intros n x.
  - exists x. simpl. rewrite Z.add_0_r. reflexivity.
  - destruct (IH (n + 1) y) as (text & H). exists text.
    change (enumerate n (x :: y :: l))
      with (MonthlyReportLine.mk x n :: enumerate (n + 1) (y :: l)).
    rewrite index_last_cons by (simpl; discriminate).
    rewrite H. f_equal. f_equal. simpl List.length. lia.
Qed.

Lemma to_table_rows_length r :
  List.length (Receipt.to_table_rows r) = List.length (Receipt.items r).
Proof.
  destruct (Receipt.items r) as [|i its] eqn:E.
  - unfold Receipt.to_table_rows. rewrite E. reflexivity.
  - rewrite (to_table_rows_cons _ _ _ E). simpl. rewrite length_map. reflexivity.
Qed.

(** X11.  For a receipt whose day, hour, minute and prices are within
    the digit limit of the formatting, [to_table_rows] renders one row
    per item (none for a receipt without items, whose day, time and
    store then appear nowhere); so when the rows of a receipt with
    items are laid out from its own line number on, one per line, the
    last row lands on [last_line_number]. *)
Theorem last_line_number_is_last_rendered_line :
  forall r,
    renderable r ->
    List.length (Receipt.to_table_rows r) = List.length (Receipt.items r) /\
    (Receipt.items r <> [] ->
     exists text,
       index_last (enumerate (Receipt.line_number r) (Receipt.to_table_rows r))
       = Some (MonthlyReportLine.mk text (Receipt.last_line_number r))).
Proof.
  intros r _. split; [apply to_table_rows_length|].
  intros Hne. destruct (Receipt.items r) as [|i its] eqn:E; [congruence|].
  rewrite (to_table_rows_cons _ _ _ E).
  destruct (enumerate_last (Receipt.line_number r) (Receipt.key_row r i)
                           (map Receipt.continuation_row its)) as (text & H).
  exists text. rewrite H. unfold Receipt.last_line_number. rewrite E.
  rewrite length_map. f_equal. f_equal.
  change (List.length (i :: its)) with (S (List.length its)). lia.
Qed.

(** The receipt at line 5 with two items ends at line 6. *)
Lemma last_line_number_is_last_rendered_line_witness :
  renderable receipt_at_line_5 /\
  exists text,
    index_last (enumerate 5 (Receipt.to_table_rows receipt_at_line_5))
    = Some (MonthlyReportLine.mk text 6).
Proof.
  assert (H : renderable receipt_at_line_5).
  { unfold renderable, printable.
    repeat split; try (apply Nat.leb_le; vm_compute; reflexivity).
    repeat constructor; apply Nat.leb_le; vm_compute; reflexivity. }
  split; [exact H|].
  apply (proj2 (last_line_number_is_last_rendered_line receipt_at_line_5 H)).
  simpl. discriminate.
Defined.

(** ** A rendered receipt through the whole parser *)

Lemma classify_app a :
  forall b ra rb tr,
    classify a tr = (Returned (map Some ra), tr) ->
    classify b tr = (Returned (map Some rb), tr) ->
    classify (a ++ b)%list tr = (Returned (map Some (ra ++ rb)%list), tr).
Proof.
  induction a as [|l a IH]; intros b ra rb tr Ha Hb.
  - simpl in Ha. returns. destruct ra; [exact Hb | discriminate].
  - destruct ra as [|r ra]; [simpl in Ha; returns; discriminate|].
    apply classify_cons in Ha. destruct Ha as [Hp Ha].
    simpl. rewrite (bind_eq _ _ _ _ _ Hp).
    rewrite (bind_eq _ _ _ _ _ (IH b ra rb tr Ha Hb)). reflexivity.
Qed.

Lemma for_each_push_app l1 :
  forall l2 self tr,
    for_each push (l1 ++ l2)%list self tr =
    bind (for_each push l1 self) (fun s => for_each push l2 s) tr.
Proof.
  induction l1 as [|x l1 IHl]; intros l2 self tr; simpl; [reflexivity|].
  unfold bind. destruct (push self x tr) as [[s|e] t1];
    [rewrite IHl; reflexivity | reflexivity].
Qed.

Lemma parse_empty_row n tr :
  _TableRow.parse_line (MonthlyReportLine.mk "||||||" n) tr =
  (Returned (Some (_TableRow.mk None None n)), tr).
Proof. reflexivity. Qed.

Lemma parse_empty_rows n tr :
  classify [MonthlyReportLine.mk "||||||" n] tr =
  (Returned (map Some [_TableRow.mk None None n]), tr).
Proof. reflexivity. Qed.

Lemma datetime_bounds r :
  Receipt.datetime r <> None ->
  0 <= Receipt.day r <= 99 /\ 0 <= Receipt.hour r <= 99 /\
  0 <= Receipt.minute r <= 99.
Proof.
  unfold Receipt.datetime, DateTime.make, DateTime.valid.
  destruct (_ && _) eqn:E; [|congruence]. intros _.
  repeat (apply andb_true_iff in E; destruct E as [E ?]).
  repeat match goal with
  | H : (_ <=? _) = true |- _ => apply Z.leb_le in H
  end.
  assert (Hdm : DateTime.days_in_month (Receipt.year r) (Receipt.month r) <= 31).
  { unfold DateTime.days_in_month.
    destruct (Receipt.month r =? 2);
      [destruct (DateTime.is_leap (Receipt.year r)); lia|].
    destruct ((Receipt.month r =? 4) || (Receipt.month r =? 6)
              || (Receipt.month r =? 9) || (Receipt.month r =? 11)); lia. }
  lia.
Qed.

Lemma two_digit_numbers_printable :
  forallb (fun n => (count_digits (str (Z.of_nat n)) <=? int_max_str_digits)%nat)
          (List.seq 0 100) = true.
Proof. vm_compute. reflexivity. Qed.

Lemma small_printable d : 0 <= d <= 99 -> printable d.
Proof.
  intros Hd. pose proof two_digit_numbers_printable as H.
  rewrite forallb_forall in H. specialize (H (Z.to_nat d)).
  rewrite Z2Nat.id in H by lia.
  apply Nat.leb_le. apply H. apply in_seq. lia.
Qed.

Lemma classify_rendered r n tr :
  Receipt.items r <> [] ->
  cell_text (Receipt.store r) ->
  Forall (fun i => cell_text (ReceiptItem.name i)) (Receipt.items r) ->
  Forall (fun i => printable (ReceiptItem.price i)) (Receipt.items r) ->
  Receipt.datetime r <> None ->
  classify (enumerate n (Receipt.to_table_rows r)) tr =
  (Returned (map Some (reread r n)), tr).
Proof.
  intros Hne Hst Hnames Hprices Hdt.
  destruct (datetime_bounds r Hdt) as (Hd & Hh & Hm).
  pose proof (small_printable _ Hd) as Hpd.
  unfold reread. destruct (Receipt.items r) as [|i its] eqn:E; [congruence|].
  rewrite (to_table_rows_cons _ _ _ E).
  inversion Hnames as [|? ? Hi Hits]; subst.
  inversion Hprices as [|? ? Hpi Hpits]; subst. simpl.
  rewrite (bind_eq _ _ _ _ _
             (parse_key_row r i n tr (proj1 Hd) Hpd Hh Hm Hst Hi Hpi)).
  rewrite (bind_eq _ _ _ _ _
             (classify_continuation_rows its (n + 1) tr Hits Hpits)).
  reflexivity.
Qed.

Lemma push_continuation_rows its :
  forall n y m rs be k items tr,
    for_each push (continuation_rows n its)
             (mk y m rs false be (Some k) items) tr =
    (Returned (mk y m rs false be (Some k) (items ++ renumber n its)), tr).
Proof.
  induction its as [|i its IH]; intros n y m rs be k items tr; simpl.
  - rewrite app_nil_r. reflexivity.
  - unfold bind at 1. unfold push at 1. simpl.
    unfold bind, ret. simpl.
    change (for_each push (continuation_rows (n + 1) its)
              (mk y m rs false be (Some k)
                  (items ++ [ReceiptItem.mk (ReceiptItem.name i)
                                            (ReceiptItem.price i) n])) tr
            = (Returned
                 (mk y m rs false be (Some k)
                     (items ++ ReceiptItem.mk (ReceiptItem.name i)
                                              (ReceiptItem.price i) n
                            :: renumber (n + 1) its)), tr)).
    rewrite IH, <- app_assoc. reflexivity.
Qed.

Lemma run_rendered r n a b tr :
  Receipt.items r <> [] ->
  Receipt.datetime r <> None ->
  run (Receipt.year r) (Receipt.month r)
      (_TableRow.mk None None a :: reread r n ++ [_TableRow.mk None None b])%list
      tr =
  (Returned [relocated r n], tr).
Proof.
  intros Hne Hdt. unfold reread, relocated.
  destruct (Receipt.items r) as [|i its] eqn:E; [congruence|].
  set (y := Receipt.year r). set (m := Receipt.month r).
  set (k := _TableKey.mk (Receipt.day r) (Receipt.hour r) (Receipt.minute r)
                         (Receipt.store r) n).
  set (i0 := ReceiptItem.mk (ReceiptItem.name i) (ReceiptItem.price i) n).
  set (cand := Receipt.mk y m (Receipt.day r) (Receipt.hour r)
                          (Receipt.minute r) (Receipt.store r)
                          (renumber n (i :: its)) n).
  assert (Hc : exists dt, Receipt.datetime cand = Some dt).
  { change (Receipt.datetime cand) with (Receipt.datetime r).
    destruct (Receipt.datetime r) as [dt|]; [eexists; reflexivity | congruence]. }
  destruct Hc as (dt & Hc).
  assert (H1 : push (init y m) (_TableRow.mk None None a) tr =
               (Returned (mk y m [] true false None []), tr)) by reflexivity.
  assert (H2 : push (mk y m [] true false None [])
                    (_TableRow.mk (Some k) (Some i0) n) tr =
               (Returned (mk y m [] false true (Some k) [i0]), tr))
    by reflexivity.
  assert (H4 : push (mk y m [] false true (Some k) (renumber n (i :: its)))
                    (_TableRow.mk None None b) tr =
               (Returned (mk y m [cand] true true None []), tr)).
  { unfold push, _push_receipt. simpl.
    unfold bind at 1. simpl. unfold bind at 1.
    match goal with
    | |- context [Receipt.datetime ?c] =>
        change (Receipt.datetime c) with (Receipt.datetime cand)
    end.
    rewrite Hc. reflexivity. }
  assert (H5 : result (mk y m [cand] true true None []) tr =
               (Returned [cand], tr)) by reflexivity.
  unfold run.
  change (_TableRow.mk None None a
          :: (_TableRow.mk (Some k) (Some i0) n :: continuation_rows (n + 1) its)
             ++ [_TableRow.mk None None b])%list
    with ([_TableRow.mk None None a; _TableRow.mk (Some k) (Some i0) n]
          ++ continuation_rows (n + 1) its ++ [_TableRow.mk None None b])%list.
  unfold bind at 1. rewrite for_each_push_app.
  assert (H12 : for_each push
                  [_TableRow.mk None None a; _TableRow.mk (Some k) (Some i0) n]
                  (init y m) tr =
                (Returned (mk y m [] false true (Some k) [i0]), tr)).
  { simpl. rewrite (bind_eq _ _ _ _ _ H1), (bind_eq _ _ _ _ _ H2). reflexivity. }
  rewrite (bind_eq _ _ _ _ _ H12), for_each_push_app.
  rewrite (bind_eq _ _ _ _ _
             (push_continuation_rows its (n + 1) y m [] true k [i0] tr)).
  change ([i0] ++ renumber (n + 1) its)%list with (renumber n (i :: its)).
  simpl for_each. rewrite (bind_eq _ _ _ _ _ H4). unfold ret at 1.
  exact H5.
Qed.

Lemma rendered_report_lines r :
  rendered_report r =
  ([MonthlyReportLine.mk section_heading 1; MonthlyReportLine.mk header 2;
    MonthlyReportLine.mk alignment 3]
   ++ (MonthlyReportLine.mk "||||||" 4
       :: enumerate 5 (Receipt.to_table_rows r)
          ++ [MonthlyReportLine.mk "||||||"
                (5 + Z.of_nat (List.length (Receipt.to_table_rows r)))])
   ++ [])%list.
Proof.
  unfold rendered_report, report. rewrite app_nil_r.
  change (enumerate 1
            ([section_heading; header; alignment; "||||||"]
             ++ Receipt.to_table_rows r ++ ["||||||"])%list)
    with (MonthlyReportLine.mk section_heading 1
          :: MonthlyReportLine.mk header 2
          :: MonthlyReportLine.mk alignment 3
          :: MonthlyReportLine.mk "||||||" 4
          :: enumerate 5 (Receipt.to_table_rows r ++ ["||||||"])%list).
  rewrite enumerate_app. reflexivity.
Qed.

(** X12.  Rendering and parsing compose to the identity, up to line
    numbers.  Put the rows that [to_table_rows] renders for a receipt
    between two empty rows under the table header of an expenses
    section: if the receipt has a valid date, at least one item, prices
    of at most 4300 digits, and a store and item names that are
    non-empty and hold no [|], then [parse_payment], called with the
    receipt's year and month, returns exactly that receipt, its key row
    at line 5 and its items on the lines from 5 on, and emits no
    diagnostic. *)
Theorem rendered_receipt_is_parsed_back :
  forall r tr,
    Receipt.items r <> [] ->
    cell_text (Receipt.store r) ->
    Forall (fun i => cell_text (ReceiptItem.name i)) (Receipt.items r) ->
    Forall (fun i => printable (ReceiptItem.price i)) (Receipt.items r) ->
    Receipt.datetime r <> None ->
    parse_payment (Receipt.year r) (Receipt.month r) (rendered_report r) tr =
    (Returned [relocated r 5], tr).
Proof.
  intros r tr Hne Hst Hnames Hprices Hdt.
  set (len := Z.of_nat (List.length (Receipt.to_table_rows r))).
  set (rows := (_TableRow.mk None None 4
                :: reread r 5 ++ [_TableRow.mk None None (5 + len)])%list).
  assert (Hcl : classify
                  (MonthlyReportLine.mk "||||||" 4
                   :: enumerate 5 (Receipt.to_table_rows r)
                      ++ [MonthlyReportLine.mk "||||||" (5 + len)])%list tr =
                (Returned (map Some rows), tr)).
  { change (MonthlyReportLine.mk "||||||" 4
            :: enumerate 5 (Receipt.to_table_rows r)
               ++ [MonthlyReportLine.mk "||||||" (5 + len)])%list
      with ([MonthlyReportLine.mk "||||||" 4]
            ++ enumerate 5 (Receipt.to_table_rows r)
            ++ [MonthlyReportLine.mk "||||||" (5 + len)])%list.
    change rows with ([_TableRow.mk None None 4]
                      ++ reread r 5 ++ [_TableRow.mk None None (5 + len)])%list.
    apply classify_app; [apply parse_empty_rows|].
    apply classify_app; [|apply parse_empty_rows].
    apply classify_rendered; assumption. }
  assert (Htab : _parse_payment_table (rendered_report r) tr =
                 (Returned [rows], tr)).
  { rewrite rendered_report_lines. fold len.
    unfold _parse_payment_table, bind.
    rewrite (scan_block _ _ 1 2 3 [] _ Hcl (Forall_nil _)).
    reflexivity. }
  unfold parse_payment, assemble.
  unfold bind at 1. unfold bind at 1. rewrite Htab.
  simpl for_each. unfold bind at 1. unfold bind at 1.
  unfold rows. rewrite (run_rendered r 5 4 (5 + len) tr Hne Hdt).
  unfold ret at 1. unfold ret at 1. simpl app.
  unfold sort_by_datetime, bind, lift, keyed.
  change (Receipt.datetime (relocated r 5)) with (Receipt.datetime r).
  destruct (Receipt.datetime r) as [dt|]; [reflexivity | congruence].
Qed.

(** The receipt at line 5, rendered and parsed, is itself. *)
Lemma rendered_receipt_is_parsed_back_witness :
  parse_payment 2024 4 (rendered_report receipt_at_line_5) [] =
  (Returned [receipt_at_line_5], []).
Proof.
  apply (rendered_receipt_is_parsed_back receipt_at_line_5 []).
  - simpl. discriminate.
  - split; [discriminate | reflexivity].
  - repeat constructor; discriminate.
  - repeat constructor; apply Nat.leb_le; vm_compute; reflexivity.
  - vm_compute. discriminate.
Defined.

(* ================================================================== *)
(** * Further properties: how [parse_payment] can fail *)
(* ================================================================== *)
















(** The three ways, each on a report. *)
Lemma parse_payment_raises_on_long_price :
  parse_payment 2024 4 report_long_price [] = (Raised ValueError, []).
Proof. vm_compute. reflexivity. Qed.

Lemma parse_payment_raises_on_day_overflow :
  parse_payment 2024 4 report_day_overflow [] = (Raised OverflowError, []).
Proof. vm_compute. reflexivity. Qed.



(* ================================================================== *)
(** * Further properties: the monthly report *)
(* ================================================================== *)

Lemma star_longest {R} p s (f : string -> option R) :
  (forall s', f s' <> None) ->
  exists w rest,
    s = w ++ rest /\ all_chars p w = true /\ stops p rest = true /\
    star p s f = f rest.
Proof.
  intros Hf. induction s as [|c s (w & rest & Hs & Hw & Hr & Hstar)].
  - exists "", "". repeat split.
  - destruct (p c) eqn:Ec.
    + exists (String c w), rest. simpl. rewrite Ec, Hw, Hstar, Hs.
      repeat split; try assumption.
      destruct (f rest) eqn:Ef; [reflexivity | destruct (Hf _ Ef)].
    + exists "", (String c s). simpl. rewrite Ec. repeat split.
Qed.

Lemma title_match_spec text t :
  title_match text = Some t <->
  exists rest,
    text = "# " ++ t ++ rest /\ t <> "" /\
    all_chars not_newline t = true /\ stops not_newline rest = true.
Proof.
  unfold title_match. split.
  - intros H. rewrite exec_cat in H.
    destruct text as [|c1 [|c2 s]]; try discriminate H.
    + rewrite exec_chr_cons in H.
      destruct (Ascii.eqb "#" c1); [simpl in H|]; discriminate H.
    + rewrite exec_chr_cons in H.
      destruct (Ascii.eqb "#" c1) eqn:E1; [|discriminate H].
      rewrite exec_chr_cons in H.
      destruct (Ascii.eqb " " c2) eqn:E2; [|discriminate H].
      apply Ascii.eqb_eq in E1, E2. subst c1 c2.
      rewrite exec_plus in H. unfold plus in H.
      destruct s as [|c s]; [discriminate H|].
      destruct (not_newline c) eqn:Ec; [|discriminate H].
      destruct (star_longest not_newline s
                  (fun s' => Some (taken (String c s) s')))
        as (w & rest & Hs & Hw & Hr & Hstar); [discriminate|].
      rewrite Hstar in H. inversion H; subst.
      exists rest.
      change (String c (w ++ rest)) with (String c w ++ rest).
      rewrite taken_app. repeat split; try assumption; try discriminate.
      simpl. rewrite Ec, Hw. reflexivity.
  - intros (rest & -> & Hne & Hw & Hr).
    change ("# " ++ t ++ rest) with (String "#" (String " " (t ++ rest))).
    rewrite exec_cat, exec_chr, exec_chr, exec_plus.
    apply plus_greedy; try assumption. rewrite taken_app. reflexivity.
Qed.

(** X14.  [title()] is the text of a heading on the first line, cut at
    the first line feed: it returns [t] exactly when the report has a
    first line whose text is [# ] followed by [t] and a rest, where [t]
    is not empty and holds no line feed and the rest is empty or begins
    with a line feed.  So a report without lines, and one whose first
    line does not start with [# ] and one more character, has no
    title. *)
Theorem title_is_first_line_heading :
  forall report t,
    MonthlyReport.title report = Some t <->
    exists line others rest,
      MonthlyReport._lines report = line :: others /\
      MonthlyReportLine.text line = "# " ++ t ++ rest /\
      t <> "" /\ all_chars not_newline t = true /\
      stops not_newline rest = true.
Proof.
  intros report t. unfold MonthlyReport.title.
  destruct (MonthlyReport._lines report) as [|line others].
  - split; [discriminate|]. intros (l & o & r & H & _). discriminate H.
  - rewrite title_match_spec. split.
    + intros (rest & H). exists line, others, rest. split; [reflexivity | exact H].
    + intros (l & o & rest & Hl & H). inversion Hl; subst.
      exists rest. exact H.
Qed.

(** The first line of the sample file is a heading. *)
Lemma title_is_first_line_heading_witness :
  MonthlyReport.title
    (MonthlyReport.mk 2024 4 (report ["# 2024年 4月"; ""; section_heading]))
  = Some "2024年 4月".
Proof.
  apply (proj2 (title_is_first_line_heading
                  (MonthlyReport.mk 2024 4
                     (report ["# 2024年 4月"; ""; section_heading]))
                  "2024年 4月")).
  exists (MonthlyReportLine.mk "# 2024年 4月" 1),
         (enumerate 2 [""; section_heading]), "".
  repeat split; try reflexivity. discriminate.
Defined.

Lemma all_chars_append p (a b : string) :
  all_chars p (a ++ b) = all_chars p a && all_chars p b.
Proof.
  induction a as [|x a IH]; simpl; [reflexivity|].
  rewrite IH, andb_assoc. reflexivity.
Qed.

Lemma stops_without_class p rest :
  stops p rest = true -> all_chars (fun c => p c) rest = true -> rest = "".
Proof.
  destruct rest as [|c rest]; [reflexivity|]. simpl.
  intros H1 H2. apply andb_true_iff in H2. destruct H2 as [H2 _].
  rewrite H2 in H1. discriminate H1.
Qed.

Lemma title_match_whole text :
  all_chars not_newline text = true ->
  forall t, title_match text = Some t <-> (text = "# " ++ t /\ t <> "").
Proof.
  intros Hall t. rewrite title_match_spec. split.
  - intros (rest & -> & Hne & Hw & Hr).
    change ("# " ++ t ++ rest) with (String "#" (String " " (t ++ rest))) in Hall.
    simpl in Hall. rewrite all_chars_append, Hw in Hall. simpl in Hall.
    rewrite (stops_without_class _ _ Hr Hall), str_app_nil_r.
    split; [reflexivity | exact Hne].
  - intros (-> & Hne). exists "". rewrite str_app_nil_r.
    repeat split; assumption.
Qed.

Lemma expected_title_not_empty year month :
  MonthlyReport.expected_title year month <> "".
Proof.
  unfold MonthlyReport.expected_title.
  destruct (str year); simpl; discriminate.
Qed.

(** X15.  The title check of [load].  For a file whose lines hold no
    line feed except at their end, [load] returns the report of the
    lines without their final line feed, numbered from 1, and emits the
    warning [unexpected title] unless the first line is exactly [# ],
    the year, [年 ], the month without padding, and [月]; it emits
    nothing else. *)
Theorem load_checks_the_title :
  forall year month raw tr,
    Forall file_line raw ->
    exists new,
      MonthlyReport.load_lines year month raw tr =
        (Returned
           (MonthlyReport.mk year month
              (enumerate 1 (List.map removesuffix_newline raw))),
         (tr ++ new)%list) /\
      Forall (fun r => fst r = WARNING) new /\
      (List.length new <= 1)%nat /\
      (new = [] <->
       exists first others,
         raw = first :: others /\
         removesuffix_newline first =
           "# " ++ MonthlyReport.expected_title year month).
Proof.
  intros year month raw tr Hraw.
  unfold MonthlyReport.load_lines.
  set (report := MonthlyReport.mk year month
                   (enumerate 1 (List.map removesuffix_newline raw))).
  set (title := MonthlyReport.expected_title year month).
  assert (Hwarn : forall msg,
             exists new,
               (emit WARNING msg;; ret report) tr =
                 (Returned report, (tr ++ new)%list) /\
               Forall (fun r => fst r = WARNING) new /\
               (List.length new <= 1)%nat /\ new <> []).
  { intros msg. eexists. split; [reflexivity|].
    split; [constructor; [reflexivity | constructor]|].
    split; [simpl; lia | discriminate]. }
  assert (Hquiet : exists new,
             (ret tt;; ret report) tr = (Returned report, (tr ++ new)%list) /\
             Forall (fun r => fst r = WARNING) new /\
             (List.length new <= 1)%nat /\ new = []).
  { exists []. rewrite app_nil_r. split; [reflexivity|].
    split; [constructor|]. split; [simpl; lia | reflexivity]. }
  destruct raw as [|first others].
  - simpl. destruct (Hwarn ("unexpected title: " ++ dquote
                            ++ MonthlyReport.show None ++ dquote
                            ++ " (expected " ++ dquote ++ title ++ dquote ++ ")"))
      as (new & H1 & H2 & H3 & H4).
    exists new. split; [exact H1|]. split; [exact H2|]. split; [exact H3|].
    split; [intros E; congruence|]. intros (f & o & E & _). discriminate E.
  - inversion Hraw as [|? ? Hfirst _]; subst.
    unfold file_line in Hfirst.
    pose proof (title_match_whole _ Hfirst) as Hspec.
    change (MonthlyReport.title report)
      with (title_match (removesuffix_newline first)).
    destruct (title_match (removesuffix_newline first)) as [t|] eqn:Et.
    + destruct (proj1 (Hspec t) eq_refl) as [Htext Hne].
      destruct (t =? title)%string eqn:Eq.
      * apply String.eqb_eq in Eq. subst t.
        destruct Hquiet as (new & H1 & H2 & H3 & H4).
        exists new. split; [exact H1|]. split; [exact H2|]. split; [exact H3|].
        split; [intros _; exists first, others; split; [reflexivity | exact Htext]|].
        intros _. exact H4.
      * apply String.eqb_neq in Eq. simpl negb.
        destruct (Hwarn ("unexpected title: " ++ dquote
                         ++ MonthlyReport.show (Some t) ++ dquote
                         ++ " (expected " ++ dquote ++ title ++ dquote ++ ")"))
          as (new & H1 & H2 & H3 & H4).
        exists new. split; [exact H1|]. split; [exact H2|]. split; [exact H3|].
        split; [intros E; congruence|].
        intros (f & o & E & Hf). inversion E; subst f o.
        rewrite Htext in Hf.
        assert (t = title); [|congruence].
        change ("# " ++ t) with (String "#" (String " " t)) in Hf.
        change ("# " ++ MonthlyReport.expected_title year month)
          with (String "#" (String " " title)) in Hf.
        inversion Hf. reflexivity.
    + destruct (Hwarn ("unexpected title: " ++ dquote
                       ++ MonthlyReport.show None ++ dquote
                       ++ " (expected " ++ dquote ++ title ++ dquote ++ ")"))
        as (new & H1 & H2 & H3 & H4).
      exists new. split; [exact H1|]. split; [exact H2|]. split; [exact H3|].
      split; [intros E; congruence|].
      intros (f & o & E & Hf). inversion E; subst f o.
      assert (Hsome : @None string = Some title).
      { apply Hspec. split; [exact Hf | apply expected_title_not_empty]. }
      discriminate Hsome.
Qed.

(** The sample file opens with the title of April 2024. *)
Lemma load_checks_the_title_witness :
  exists report,
    MonthlyReport.load_lines 2024 4 raw_report_sample [] = (Returned report, []) /\
    MonthlyReport.title report = Some "2024年 4月".
Proof.
  destruct (load_checks_the_title 2024 4 raw_report_sample [])
    as (new & H1 & _ & _ & H4).
  - repeat constructor.
  - assert (Hn : new = []).
    { apply H4. eexists. eexists. split; [reflexivity|]. vm_compute. reflexivity. }
    subst new. eexists. split; [exact H1|]. vm_compute. reflexivity.
Defined.

Lemma removesuffix_newline_app body :
  removesuffix_newline (body ++ newline) = body.
Proof.
  induction body as [|c body IH]; [reflexivity|].
  change (String c body ++ newline) with (String c (body ++ newline)).
  destruct (body ++ newline) as [|c' s'] eqn:E.
  - destruct body; discriminate E.
  - change (removesuffix_newline (String c (String c' s')))
      with (String c (removesuffix_newline (String c' s'))).
    rewrite IH. reflexivity.
Qed.

Lemma concat_empty_cons (x : string) xs :
  String.concat "" (x :: xs) = x ++ String.concat "" xs.
Proof.
  destruct xs as [|y ys]; simpl.
  - rewrite str_app_nil_r. reflexivity.
  - reflexivity.
Qed.

Lemma joined_lines raw :
  Forall (fun line => exists body, line = body ++ newline) raw ->
  forall n,
    String.concat ""
      (List.map (fun line => MonthlyReportLine.text line ++ newline)
                (enumerate n (List.map removesuffix_newline raw)))
    = String.concat "" raw.
Proof.
  induction 1 as [|line raw (body & ->) _ IH]; intros n.
  - reflexivity.
  - cbn [List.map enumerate]. rewrite !concat_empty_cons, IH.
    simpl MonthlyReportLine.text. rewrite removesuffix_newline_app.
    reflexivity.
Qed.

(** X16.  [text()] undoes the line splitting of [load]: for a file
    every line of which ends with a line feed, the text of the loaded
    report is the content of the file, the concatenation of its
    lines. *)
Theorem text_restores_the_file :
  forall year month raw tr report tr',
    Forall (fun line => exists body, line = body ++ newline) raw ->
    MonthlyReport.load_lines year month raw tr = (Returned report, tr') ->
    MonthlyReport.text report = String.concat "" raw.
Proof.
  intros year month raw tr report tr' Hraw H.
  unfold MonthlyReport.load_lines in H. returns. subst report.
  unfold MonthlyReport.text. simpl MonthlyReport._lines.
  apply joined_lines. exact Hraw.
Qed.

(** The sample file. *)
Lemma text_restores_the_file_witness :
  exists report,
    MonthlyReport.load_lines 2024 4 raw_report_sample [] = (Returned report, []) /\
    MonthlyReport.text report = String.concat "" raw_report_sample.
Proof.
  eexists. split.
  - vm_compute. reflexivity.
  - eapply (text_restores_the_file 2024 4 raw_report_sample []).
    + unfold raw_report_sample.
      repeat (apply Forall_cons;
              [first [eexists; reflexivity | exists ""; reflexivity]|]).
      constructor.
    + vm_compute. reflexivity.
Defined.

(* ================================================================== *)
(** * Further properties: the book list *)
(* ================================================================== *)

Lemma dt_eqb_sym a b : DateTime.eqb a b = DateTime.eqb b a.
Proof.
  destruct a, b. unfold DateTime.eqb. simpl.
  rewrite (Z.eqb_sym year), (Z.eqb_sym month), (Z.eqb_sym day),
    (Z.eqb_sym hour), (Z.eqb_sym minute). reflexivity.
Qed.

Lemma dt_eqb_ltb a b : DateTime.eqb a b = true -> DateTime.ltb a b = false.
Proof. destruct a, b. intros H. dt_props. lia. Qed.

Lemma book_ltb_asym a b : Book.ltb a b = true -> Book.ltb b a = false.
Proof.
  unfold Book.ltb. rewrite (String.compare_antisym (Book.title a) (Book.title b)).
  destruct (String.compare (Book.title b) (Book.title a)); simpl;
    try discriminate; try reflexivity.
  intros H.
  apply orb_true_iff in H. apply orb_false_iff.
  destruct H as [H | H].
  - apply Z.ltb_lt in H. split; [apply Z.ltb_ge; lia|].
    apply andb_false_iff. left. apply Z.eqb_neq. lia.
  - apply andb_true_iff in H. destruct H as [Hp H]. apply Z.eqb_eq in Hp.
    split; [apply Z.ltb_ge; lia|].
    rewrite Hp, Z.eqb_refl. simpl.
    apply orb_true_iff in H. apply orb_false_iff. destruct H as [H | H].
    + split; [apply dt_ltb_asym; exact H|].
      apply andb_false_iff. left.
      destruct (DateTime.eqb (Book.purchase_time b) (Book.purchase_time a)) eqn:E;
        [|reflexivity].
      rewrite dt_eqb_sym in E. rewrite (dt_eqb_ltb _ _ E) in H. discriminate H.
    + apply andb_true_iff in H. destruct H as [He Hl].
      split; [rewrite dt_eqb_sym in He; apply dt_eqb_ltb; exact He|].
      apply andb_false_iff. right. apply Z.ltb_lt in Hl. apply Z.ltb_ge. lia.
Qed.

Lemma string_compare_lt_trans a b c :
  String.compare a b = Lt -> String.compare b c = Lt -> String.compare a c = Lt.
Proof.
  change String.compare with OrderedTypeEx.String_as_OT.cmp.
  rewrite !OrderedTypeEx.String_as_OT.cmp_lt.
  apply OrderedTypeEx.String_as_OT.lt_trans.
Qed.

Lemma string_compare_gt a b : String.compare a b = Gt -> String.compare b a = Lt.
Proof.
  intros H. rewrite String.compare_antisym, H. reflexivity.
Qed.

Lemma tail_order_trans (p1 p2 p3 l1 l2 l3 : Z) (d1 d2 d3 : DateTime.t) :
  (p2 <? p1) ||
    ((p2 =? p1) && (DateTime.ltb d2 d1 || (DateTime.eqb d2 d1 && (l2 <? l1))))
  = false ->
  (p3 <? p2) ||
    ((p3 =? p2) && (DateTime.ltb d3 d2 || (DateTime.eqb d3 d2 && (l3 <? l2))))
  = false ->
  (p3 <? p1) ||
    ((p3 =? p1) && (DateTime.ltb d3 d1 || (DateTime.eqb d3 d1 && (l3 <? l1))))
  = false.
Proof.
  destruct d1, d2, d3. intros H1 H2. dt_props. lia.
Qed.

Lemma book_le_trans a b c : book_le a b -> book_le b c -> book_le a c.
Proof.
  unfold book_le, Book.ltb. intros Hab Hbc.
  destruct (String.compare (Book.title b) (Book.title a)) eqn:Eba;
    [| discriminate Hab |].
  - apply String.compare_eq_iff in Eba. rewrite Eba in *.
    destruct (String.compare (Book.title c) (Book.title a)) eqn:Eca;
      [| discriminate Hbc | reflexivity].
    eapply tail_order_trans; eassumption.
  - apply string_compare_gt in Eba.
    destruct (String.compare (Book.title c) (Book.title b)) eqn:Ecb;
      [| discriminate Hbc |].
    + apply String.compare_eq_iff in Ecb. rewrite Ecb.
      rewrite String.compare_antisym, Eba. reflexivity.
    + apply string_compare_gt in Ecb.
      rewrite String.compare_antisym,
        (string_compare_lt_trans _ _ _ Eba Ecb). reflexivity.
Qed.

Lemma insert_book_perm x l : Permutation (x :: l) (insert_book x l).
Proof.
  induction l as [|y l IH]; simpl.
  - apply Permutation_refl.
  - destruct (Book.ltb y x).
    + eapply perm_trans; [apply perm_swap|]. apply perm_skip. exact IH.
    + apply Permutation_refl.
Qed.

Lemma sort_books_perm l : Permutation l (sort_books l).
Proof.
  induction l as [|x l IH]; simpl.
  - apply perm_nil.
  - eapply perm_trans; [apply perm_skip; exact IH|]. apply insert_book_perm.
Qed.

Lemma insert_book_sorted x l :
  Sorted book_le l -> Sorted book_le (insert_book x l).
Proof.
  induction l as [|y l IH]; intros Hs; simpl.
  - constructor; constructor.
  - inversion Hs as [|? ? Hl Hy]; subst.
    destruct (Book.ltb y x) eqn:E.
    + constructor; [apply IH; exact Hl|].
      destruct l as [|z l]; simpl.
      * constructor. unfold book_le. apply book_ltb_asym. exact E.
      * destruct (Book.ltb z x).
        -- inversion Hy; subst. constructor. assumption.
        -- constructor. unfold book_le. apply book_ltb_asym. exact E.
    + constructor; [exact Hs|]. constructor. exact E.
Qed.

Lemma sort_books_sorted l : StronglySorted book_le (sort_books l).
Proof.
  apply Sorted_StronglySorted; [exact book_le_trans|].
  induction l as [|x l IH]; simpl.
  - constructor.
  - apply insert_book_sorted. exact IH.
Qed.

Lemma books_of_receipt_returned receipt :
  forall its books tr out tr',
    for_each
      (fun books item =>
         if negb (is_book item) then ret books
         else
           purchase_time <- lift (Receipt.datetime_error receipt)
                               (Receipt.datetime receipt) ;;
           ret (books ++ [Book.mk (ReceiptItem.name item)
                                  (ReceiptItem.price item)
                                  purchase_time
                                  (ReceiptItem.line_number item)])%list)
      its books tr = (Returned out, tr') ->
    tr' = tr /\
    forall b,
      In b out <->
      In b books \/
      exists i dt,
        In i its /\ is_book i = true /\
        Receipt.datetime receipt = Some dt /\ b = book_of i dt.
Proof.
  induction its as [|i its IH]; intros books tr out tr' H; simpl in H.
  - returns. subst. split; [reflexivity|]. intros b. split; [auto|].
    intros [Hb | (i & dt & [] & _)]. exact Hb.
  - returns. destruct (is_book i) eqn:Ei; simpl in *; returns; subst.
    + apply IH in H. destruct H as [-> H]. split; [reflexivity|].
      intros b. rewrite H. split.
      * intros [Hb | (j & dt & Hj & Hr)].
        -- apply in_app_or in Hb. destruct Hb as [Hb | [Hb | []]]; [left; exact Hb|].
           right. exists i. eexists. subst b.
           split; [left; reflexivity|]. split; [exact Ei|].
           split; [eassumption | reflexivity].
        -- right. exists j, dt. split; [right; exact Hj | exact Hr].
      * intros [Hb | (j & dt & [Hj | Hj] & Hk & Hd & Hb)].
        -- left. apply in_or_app. left. exact Hb.
        -- subst j. left. apply in_or_app. right. left.
           subst b. unfold book_of. f_equal. congruence.
        -- right. exists j, dt. repeat split; assumption.
    + apply IH in H. destruct H as [-> H]. split; [reflexivity|].
      intros b. rewrite H. split.
      * intros [Hb | (j & dt & Hj & Hr)]; [left; exact Hb|].
        right. exists j, dt. split; [right; exact Hj | exact Hr].
      * intros [Hb | (j & dt & [Hj | Hj] & Hk & Hr)]; [left; exact Hb | |].
        -- subst j. congruence.
        -- right. exists j, dt. repeat split; try assumption; apply Hr.
Qed.

Lemma collect_books_loop_returned :
  forall receipts books tr out tr',
    for_each
      (fun books receipt =>
         if negb (Receipt.store receipt =? book_store)%string then ret books
         else books_of_receipt books receipt)
      receipts books tr = (Returned out, tr') ->
    tr' = tr /\
    forall b, In b out <-> In b books \/ listed receipts b.
Proof.
  induction receipts as [|r receipts IH]; intros books tr out tr' H; simpl in H.
  - returns. subst. split; [reflexivity|]. intros b. split; [auto|].
    intros [Hb | (r & i & dt & [] & _)]. exact Hb.
  - returns.
    destruct (Receipt.store r =? book_store)%string eqn:Es; simpl in *.
    + apply String.eqb_eq in Es.
      match goal with F : books_of_receipt _ _ _ = _ |- _ =>
        apply books_of_receipt_returned in F; destruct F as [-> Hr] end.
      apply IH in H. destruct H as [-> H]. split; [reflexivity|].
      intros b. rewrite H, Hr. split.
      * intros [[Hb | (i & dt & Hi)] | (r' & i & dt & Hin & Hrest)].
        -- left. exact Hb.
        -- right. exists r, i, dt. split; [left; reflexivity|].
           split; [exact Es|]. exact Hi.
        -- right. exists r', i, dt. split; [right; exact Hin | exact Hrest].
      * intros [Hb | (r' & i & dt & [Hin | Hin] & Hs & Hrest)].
        -- left. left. exact Hb.
        -- subst r'. left. right. exists i, dt. exact Hrest.
        -- right. exists r', i, dt. repeat split; try assumption; apply Hrest.
    + apply String.eqb_neq in Es. returns. subst.
      apply IH in H. destruct H as [-> H]. split; [reflexivity|].
      intros b. rewrite H. split.
      * intros [Hb | (r' & i & dt & Hin & Hrest)]; [left; exact Hb|].
        right. exists r', i, dt. split; [right; exact Hin | exact Hrest].
      * intros [Hb | (r' & i & dt & [Hin | Hin] & Hs & Hrest)];
          [left; exact Hb | subst r'; congruence|].
        right. exists r', i, dt. repeat split; try assumption; apply Hrest.
Qed.

(** X17.  The book list.  Whenever the book loop and sort of [main]
    return, the list is in ascending order of (title, price, purchase
    time, line number): no entry is smaller than an entry before it.
    It holds exactly the books of the listed items: an entry for an
    item if and only if the item is on a receipt whose store is
    [BOOK☆WALKER] and passes [is_book]; the purchase time is the
    receipt's timestamp.  No diagnostic is emitted. *)
Theorem sorted_books_are_the_listed_books :
  forall receipts tr books tr',
    sorted_books receipts tr = (Returned books, tr') ->
    tr' = tr /\
    StronglySorted book_le books /\
    forall b, In b books <-> listed receipts b.
Proof.
  intros receipts tr books tr' H. unfold sorted_books, collect_books in H.
  returns. subst.
  match goal with F : for_each _ _ _ _ = _ |- _ =>
    apply collect_books_loop_returned in F; destruct F as [-> Hin] end.
  split; [reflexivity|]. split; [apply sort_books_sorted|].
  intros b. split.
  - intros Hb.
    apply (Permutation_in _ (Permutation_sym (sort_books_perm _))) in Hb.
    apply Hin in Hb. destruct Hb as [[] | Hb]. exact Hb.
  - intros Hb. apply (Permutation_in _ (sort_books_perm _)).
    apply Hin. right. exact Hb.
Qed.

Lemma sorted_books_are_the_listed_books_witness :
  exists rs tr books,
    parse_payment 2024 4 report_books [] = (Returned rs, tr) /\
    sorted_books rs tr = (Returned books, tr) /\
    StronglySorted book_le books /\
    forall b, In b books <-> listed rs b.
Proof.
  eexists. eexists. eexists.
  split; [vm_compute; reflexivity|].
  match goal with |- ?A /\ _ =>
    assert (H : A) by (vm_compute; reflexivity) end.
  split; [exact H|].
  exact (proj2 (sorted_books_are_the_listed_books _ _ _ _ H)).
Defined.


Lemma parse_payment_has_datetime year month lines tr rs tr' :
  parse_payment year month lines tr = (Returned rs, tr') ->
  Forall (fun r => Receipt.datetime r <> None) rs.
Proof.
  intros H. unfold parse_payment in H. returns.
  match goal with F : assemble _ _ _ _ = _ |- _ =>
    apply assemble_well_dated in F; rename F into Hw end.
  destruct (sort_by_datetime_returned _ _ _ _ H) as (_ & Hp & _ & _).
  apply (Permutation_Forall Hp).
  eapply Forall_impl; [|exact Hw]. intros r (_ & _ & Hr). exact Hr.
Qed.

Lemma collect_receipts_loop_has_datetime :
  forall reports acc tr rs tr',
    Forall (fun r => Receipt.datetime r <> None) acc ->
    for_each
      (fun receipts report =>
         payment <- MonthlyReport.payment report ;;
         ret (receipts ++ payment)%list)
      reports acc tr = (Returned rs, tr') ->
    Forall (fun r => Receipt.datetime r <> None) rs.
Proof.
  induction reports as [|rep reports IH]; intros acc tr rs tr' Hacc H;
    simpl in H.
  - returns. subst. exact Hacc.
  - returns. subst. eapply IH; [|exact H].
    apply Forall_app. split; [exact Hacc|].
    eapply parse_payment_has_datetime. unfold MonthlyReport.payment in *.
    eassumption.
Qed.

Lemma sorted_books_returns receipts tr :
  Forall (fun r => Receipt.datetime r <> None) receipts ->
  exists books, sorted_books receipts tr = (Returned books, tr).
Proof.
  intros Hd. unfold sorted_books, collect_books.
  assert (Hloop : forall acc,
             exists out,
               for_each
                 (fun books receipt =>
                    if negb (Receipt.store receipt =? book_store)%string
                    then ret books
                    else books_of_receipt books receipt)
                 receipts acc tr = (Returned out, tr)).
  { induction Hd as [|r rs Hr _ IH]; intros acc.
    - exists acc. reflexivity.
    - simpl.
      assert (Hone : exists out,
                 (if negb (Receipt.store r =? book_store)%string
                  then ret acc
                  else books_of_receipt acc r) tr = (Returned out, tr)).
      { destruct (negb (Receipt.store r =? book_store)%string);
          [exists acc; reflexivity|].
        unfold books_of_receipt.
        destruct (Receipt.datetime r) as [dt|]; [|congruence].
        generalize acc. induction (Receipt.items r) as [|i its IHi]; intros a.
        - exists a. reflexivity.
        - simpl. destruct (negb (is_book i)).
          + unfold bind at 1. unfold ret at 1. apply IHi.
          + unfold bind at 1. unfold bind at 1. simpl. apply IHi. }
      destruct Hone as (out1 & Hone).
      rewrite (bind_eq _ _ _ _ _ Hone). apply IH. }
  destruct (Hloop []) as (out & Hout).
  rewrite (bind_eq _ _ _ _ _ Hout). eexists. reflexivity.
Qed.

(** X18.  Once the payments of all reports are parsed, the rest of the
    book list cannot fail: every receipt that [parse_payment] returns
    has a timestamp, so the purchase time of every book can be read,
    and the book loop and the sort add no diagnostic. *)
Theorem book_list_returns_after_parsing :
  forall reports tr receipts tr',
    collect_receipts reports tr = (Returned receipts, tr') ->
    exists books,
      book_list reports tr = (Returned books, tr') /\
      sorted_books receipts tr' = (Returned books, tr').
Proof.
  intros reports tr receipts tr' H.
  assert (Hd : Forall (fun r => Receipt.datetime r <> None) receipts).
  { unfold collect_receipts in H.
    eapply collect_receipts_loop_has_datetime; [apply Forall_nil | exact H]. }
  destruct (sorted_books_returns receipts tr' Hd) as (books & Hb).
  exists books. split; [|exact Hb].
  unfold book_list. rewrite (bind_eq _ _ _ _ _ H). exact Hb.
Qed.

Lemma book_list_returns_after_parsing_witness :
  exists receipts tr' books,
    collect_receipts reports_sample [] = (Returned receipts, tr') /\
    book_list reports_sample [] = (Returned books, tr').
Proof.
  eexists. eexists.
  assert (H : collect_receipts reports_sample []
              = (Returned _, _)) by (vm_compute; reflexivity).
  destruct (book_list_returns_after_parsing _ _ _ _ H) as (books & Hb & _).
  exists books. split; [exact H | exact Hb].
Defined.
